(** * Snippet Status Report generator: the JSON side (generate_ssr.py) and
      the JSON <-> protocol-buffer codec (third_party/protobuf_json).

    The program is Python 2.  Its JSON data are ordinary Python objects:
    dicts and lists are mutable and shared by reference, so the functions
    of generate_ssr.py, which rename keys and remove list entries in place,
    are embedded over an explicit object store.  The codec only reads its
    JSON argument and fills a message, so it is embedded over JSON trees
    and message values. *)

From Stdlib Require Import ZArith Ascii String.
From stdpp Require Import base option list gmap strings numbers pretty.

#[local] Set Warnings "-register-all".
#[local] Open Scope Z_scope.

(** ** Python objects in a store *)

Module Py.

(** A location names a mutable object (a list or a dict). *)
Abbreviation loc := nat.

(** Python values as the API response carries them.  Numbers are the
    integer codes and sizes of the creative listing; [str] and [unicode]
    with the same characters are equal in Python 2 and are one type here. *)
Inductive value :=
| VNone
| VBool (b : bool)
| VInt (z : Z)
| VStr (s : string)
| VRef (l : loc).
Arguments VRef l%_nat.

Inductive obj :=
| OList (items : list value)
| ODict (d : gmap string value).

Abbreviation heap := (list obj).

#[global] Instance value_eq_dec : EqDecision value.
Proof. solve_decision. Defined.

(** Exceptions a run can end with.  [RecursionLimit] is the RuntimeError of
    the interpreter's recursion limit; [SystemError] marks a store the
    interpreter cannot produce (a reference to no object, or a list that
    grew under a loop that is budgeted for its initial length). *)
Inductive exn :=
| KeyError
| TypeError
| AttributeError
| ValueError
| RecursionLimit
| SystemError.

Inductive result (A : Type) :=
| Ok (a : A)
| Raise (e : exn).
Arguments Ok {A} a.
Arguments Raise {A} e.

(** A computation transforms the store and ends with a value or an
    exception; the store it leaves is visible in both cases. *)
Definition M (A : Type) : Type := heap → result A * heap.

Definition ret {A} (a : A) : M A := λ h, (Ok a, h).
Definition raise {A} (e : exn) : M A := λ h, (Raise e, h).
Definition bind {A B} (m : M A) (k : A → M B) : M B :=
  λ h, match m h with
       | (Ok a, h') => k a h'
       | (Raise e, h') => (Raise e, h')
       end.
Definition lift {A} (f : heap → result A) : M A := λ h, (f h, h).

#[global] Instance M_ret : MRet M := @ret.
#[global] Instance M_bind : MBind M := λ A B k m, bind m k.

(** *** Objects behind a value *)

Definition load (v : value) : M (option (loc * obj)) :=
  λ h, match v with
       | VRef l => match h !! l with
                   | Some o => (Ok (Some (l, o)), h)
                   | None => (Raise SystemError, h)
                   end
       | _ => (Ok None, h)
       end.

Definition store (l : loc) (o : obj) : M unit :=
  λ h, (Ok tt, <[l := o]> h).

Definition alloc (o : obj) : M value :=
  λ h, (Ok (VRef (length h)), h ++ [o]).

(** *** Equality ([==]) *)

Definition Z_of_bool (b : bool) : Z := if b then 1 else 0.

(** [a == b] on values without identity: numbers compare by value ([True]
    is [1]), strings by characters, and values of unlike kinds differ. *)
Definition py_eq_scalar (a b : value) : bool :=
  match a, b with
  | VNone, VNone => true
  | VBool x, VBool y => bool_decide (x = y)
  | VBool x, VInt y => bool_decide (Z_of_bool x = y)
  | VInt x, VBool y => bool_decide (x = Z_of_bool y)
  | VInt x, VInt y => bool_decide (x = y)
  | VStr x, VStr y => bool_decide (x = y)
  | _, _ => false
  end.

(** [all_eq eq xs ys] for lists of the same length: the first unequal
    pair, or the first exception, decides. *)
Fixpoint all_eq (eq : value → value → result bool) (xs ys : list value)
  : result bool :=
  match xs, ys with
  | [], [] => Ok true
  | x :: xs', y :: ys' =>
      match eq x y with
      | Ok true => all_eq eq xs' ys'
      | r => r
      end
  | _, _ => Ok false
  end.

(** Entries of the first dict looked up in the second. *)
Fixpoint dict_eq (eq : value → value → result bool)
    (kvs : list (string * value)) (d2 : gmap string value) : result bool :=
  match kvs with
  | [] => Ok true
  | (k, v) :: kvs' =>
      match d2 !! k with
      | None => Ok false
      | Some v2 =>
          match eq v v2 with
          | Ok true => dict_eq eq kvs' d2
          | r => r
          end
      end
  end.

(** [a == b] as PyObject_RichCompareBool computes it: the same object is
    equal to itself; two lists are equal when they have the same length and
    equal items; two dicts when they have the same size and equal values
    under every key.  The comparison recurses into nested objects and is
    cut by the recursion limit. *)
Fixpoint py_eq (limit : nat) (h : heap) (a b : value) : result bool :=
  match a, b with
  | VRef la, VRef lb =>
      if bool_decide (la = lb) then Ok true
      else match h !! la, h !! lb with
           | Some oa, Some ob =>
               match limit with
               | O => Raise RecursionLimit
               | S limit' =>
                   match oa, ob with
                   | OList xs, OList ys =>
                       if bool_decide (length xs = length ys)
                       then all_eq (py_eq limit' h) xs ys
                       else Ok false
                   | ODict d1, ODict d2 =>
                       if bool_decide (size d1 = size d2)
                       then dict_eq (py_eq limit' h) (map_to_list d1) d2
                       else Ok false
                   | _, _ => Ok false
                   end
               end
           | _, _ => Raise SystemError
           end
  | VRef _, _ | _, VRef _ => Ok false
  | _, _ => Ok (py_eq_scalar a b)
  end.

(** *** Dict operations *)

(** Does [t] occur in [s] as a run of consecutive characters? *)
Fixpoint is_substring (t s : string) : bool :=
  if String.prefix t s then true
  else match s with
       | EmptyString => false
       | String _ s' => is_substring t s'
       end.

(** [key in d], for a string [key]: a key of a dict, an item of a list, a
    substring of a string. *)
Definition dict_contains (d : value) (key : string) : M bool :=
  o ← load d;
  match o with
  | Some (_, ODict m) => mret (bool_decide (is_Some (m !! key)))
  | Some (_, OList items) =>
      mret (bool_decide (Exists (λ x, py_eq_scalar x (VStr key) = true) items))
  | None =>
      match d with
      | VStr s => mret (is_substring key s)
      | _ => raise TypeError
      end
  end.

(** [d.pop(key)]: the [pop] of a list takes an index, not a string; other
    values have no [pop]. *)
Definition dict_pop (d : value) (key : string) : M value :=
  o ← load d;
  match o with
  | Some (l, ODict m) =>
      match m !! key with
      | Some v => store l (ODict (delete key m));; mret v
      | None => raise KeyError
      end
  | Some (_, OList _) => raise TypeError
  | None => raise AttributeError
  end.

(** [d[key] = v] *)
Definition dict_setitem (d : value) (key : string) (v : value) : M unit :=
  o ← load d;
  match o with
  | Some (l, ODict m) => store l (ODict (<[key := v]> m))
  | _ => raise TypeError
  end.

(** [d[key]] *)
Definition dict_getitem (d : value) (key : string) : M value :=
  o ← load d;
  match o with
  | Some (_, ODict m) =>
      match m !! key with
      | Some v => mret v
      | None => raise KeyError
      end
  | _ => raise TypeError
  end.

(** [d.get(key, default)]: the value under [key] if there is one.  The
    caller supplies the default; where the source passes a fresh [[]] the
    absent case is kept as [None], since that list is never stored. *)
Definition dict_get (d : value) (key : string) : M (option value) :=
  o ← load d;
  match o with
  | Some (_, ODict m) => mret (m !! key)
  | _ => raise AttributeError
  end.

(** [d.copy()]: a new dict with the same keys and the same value objects. *)
Definition dict_copy (d : value) : M value :=
  o ← load d;
  match o with
  | Some (_, ODict m) => alloc (ODict m)
  | _ => raise AttributeError
  end.

(** *** List operations *)

(** The list without its first item equal to [x], if there is one. *)
Fixpoint remove_first (eq : value → result bool) (items : list value)
  : result (option (list value)) :=
  match items with
  | [] => Ok None
  | y :: ys =>
      match eq y with
      | Ok true => Ok (Some ys)
      | Ok false =>
          match remove_first eq ys with
          | Ok (Some ys') => Ok (Some (y :: ys'))
          | r => r
          end
      | Raise e => Raise e
      end
  end.

(** [lst.remove(x)]: removes the first item that is [x] or equals it. *)
Definition list_remove (limit : nat) (lst x : value) : M unit :=
  o ← load lst;
  match o with
  | Some (l, OList items) =>
      r ← lift (λ h, remove_first (λ y, py_eq limit h y x) items);
      match r with
      | Some items' => store l (OList items')
      | None => raise ValueError
      end
  | _ => raise AttributeError
  end.

(** Is some item equal to [x]?  The first equal item, or the first
    exception, decides. *)
Fixpoint any_eq (eq : value → result bool) (items : list value) : result bool :=
  match items with
  | [] => Ok false
  | y :: ys =>
      match eq y with
      | Ok false => any_eq eq ys
      | r => r
      end
  end.

(** [x in seq] for a number [x]: membership in a list; a dict has string
    keys only. *)
Definition py_in (limit : nat) (x seq : value) : M bool :=
  o ← load seq;
  match o with
  | Some (_, OList items) => lift (λ h, any_eq (λ y, py_eq limit h x y) items)
  | Some (_, ODict _) => mret false
  | None => raise TypeError
  end.

(** *** The [for] statement *)

(** A loop body either runs on to the next item or leaves the function
    with a value ([return]). *)
Definition continue {R} : M (option R) := mret None.
Definition return_ {R} (r : R) : M (option R) := mret (Some r).

(** [for x in lst], for a list object: the iterator keeps an index into
    the live list, so items removed during the loop shift the later ones
    under it.  The budget is the length at loop entry; no loop body of this
    program adds to the list it iterates. *)
Fixpoint for_list {R} (budget : nat) (l : loc) (i : nat)
    (body : value → M (option R)) : M (option R) :=
  λ h, match h !! l with
       | Some (OList items) =>
           match items !! i with
           | None => (Ok None, h)
           | Some x =>
               match budget with
               | O => (Raise SystemError, h)
               | S budget' =>
                   (r ← body x;
                    match r with
                    | Some r => return_ r
                    | None => for_list budget' l (S i) body
                    end) h
               end
           end
       | _ => (Raise SystemError, h)
       end.

(** A loop over items fixed at loop entry. *)
Fixpoint for_seq {A R} (xs : list A) (body : A → M (option R)) : M (option R) :=
  match xs with
  | [] => continue
  | x :: xs' =>
      r ← body x;
      match r with
      | Some r => return_ r
      | None => for_seq xs' body
      end
  end.

Definition chars (s : string) : list value :=
  (λ c, VStr (String c EmptyString)) <$> list_ascii_of_string s.

(** [for x in v]: a list is iterated live, a dict yields its keys and a
    string its characters; other values are not iterable. *)
Definition py_for {R} (v : value) (body : value → M (option R)) : M (option R) :=
  o ← load v;
  match o with
  | Some (l, OList items) => for_list (length items) l 0 body
  | Some (_, ODict m) => for_seq (VStr <$> (map_to_list m).*1) body
  | None =>
      match v with
      | VStr s => for_seq (chars s) body
      | _ => raise TypeError
      end
  end.

Definition run {A} (m : M A) (h : heap) : result A * heap := m h.

End Py.

(** ** generate_ssr.py *)

Module generate_ssr.
Import Py.

Definition RICH_MEDIA_CAPABILITY_SSL : Z := 47.
Definition INVALID_SSL_DECLARATION : string := "INVALID_SSL_DECLARATION".
Definition SSL_ATTRIBUTE : string := "SSL_ATTRIBUTE".
Definition FLASHLESS_ATTRIBUTE : string := "FLASHLESS_ATTRIBUTE".

Definition KEY_TRANSLATION_items : list (string * string) :=
  [ ("advertiserId", "advertiser_id");
    ("buyerCreativeId", "buyer_creative_id");
    ("clickThroughUrl", "click_through_url");
    ("corrections", "snippet_correction");
    ("corrections.details", "detail");
    ("corrections.reason", "type");
    ("disapprovalReasons", "disapproval_reason");
    ("disapprovalReasons.details", "detail");
    ("disapprovalReasons.reason", "reason");
    ("filteringReasons", "snippet_filtering");
    ("filteringReasons.date", "date");
    ("filteringReasons.reasons", "item");
    ("filteringReasons.reasons.filteringCount", "filtering_count");
    ("filteringReasons.reasons.filteringStatus", "filtering_status");
    ("height", "height");
    ("productCategories", "detected_product_category");
    ("sensitiveCategories", "detected_sensitive_category");
    ("status", "status");
    ("width", "width") ].

Definition KEY_TRANSLATION : gmap string string :=
  list_to_map KEY_TRANSLATION_items.

Definition _ReplaceKey (dictionary : value) (old_key new_key : string) : M unit :=
  found ← dict_contains dictionary old_key;
  if found : bool
  then (v ← dict_pop dictionary old_key; dict_setitem dictionary new_key v)
  else mret tt.

(** The traversal.  [limit] is the depth of recursion the interpreter still
    allows.  The loop over a dict renames keys of the dict it iterates.
    Here the loop visits the keys the dict has at loop entry, once each:
    an idealisation of the interpreter's loop, which walks the table of the
    dict as the renamings change it and can pass over a key or meet a key
    again.  [generate_ssr_tables] below has the loop on the interpreter's
    table. *)
Fixpoint _ReplaceJSONFields (limit : nat) (json : value)
    (translation : gmap string string) (prefix : string) : M unit :=
  match limit with
  | O => raise RecursionLimit
  | S limit' =>
      o ← load json;
      match o with
      | Some (l, OList items) =>
          for_list (R := unit) (length items) l 0 (λ item,
            _ReplaceJSONFields limit' item translation prefix;;
            continue);;
          mret tt
      | Some (_, ODict m) =>
          for_seq (R := unit) (map_to_list m).*1 (λ field_name,
            let full_key := prefix +:+ field_name in
            match translation !! full_key with
            | Some new_key =>
                _ReplaceKey json field_name new_key;;
                child ← dict_getitem json new_key;
                _ReplaceJSONFields limit' child translation (full_key +:+ ".");;
                continue
            | None => continue
            end);;
          mret tt
      | None => mret tt
      end
  end.

(** [item.get('snippet_correction', [])] is [None] here when the key is
    absent: the default list is empty and the loop over it does nothing. *)
Definition _RemoveFlashlessAttributeCorrection (limit : nat) (item : value)
  : M unit :=
  corrections ← dict_get item "snippet_correction";
  match corrections with
  | None => mret tt
  | Some corrections =>
      py_for (R := unit) corrections (λ snippet_correction,
        type ← dict_get snippet_correction "type";
        is_flashless ←
          lift (λ h, py_eq limit h (default VNone type) (VStr FLASHLESS_ATTRIBUTE));
        if is_flashless : bool
        then lst ← dict_getitem item "snippet_correction";
             list_remove limit lst snippet_correction;;
             continue
        else continue);;
      mret tt
  end.

Definition _IsSSLCapable (limit : nat) (item : value) : M bool :=
  attribute ← dict_get item "attribute";
  declared ← match attribute with
             | None => mret false
             | Some attribute =>
                 py_in limit (VInt RICH_MEDIA_CAPABILITY_SSL) attribute
             end;
  if negb declared then mret false
  else
    disapproval_reasons ← dict_get item "disapproval_reason";
    r ← match disapproval_reasons with
        | None => continue
        | Some disapproval_reasons =>
            py_for disapproval_reasons (λ disapproval_reason,
              reason ← dict_get disapproval_reason "reason";
              hit ← lift (λ h, py_eq limit h (default VNone reason)
                                 (VStr INVALID_SSL_DECLARATION));
              if hit : bool then return_ false else continue)
        end;
    match r with
    | Some b => mret b
    | None =>
        snippet_corrections ← dict_get item "snippet_correction";
        r ← match snippet_corrections with
            | None => continue
            | Some snippet_corrections =>
                py_for snippet_corrections (λ snippet_correction,
                  type ← dict_get snippet_correction "type";
                  hit ← lift (λ h, py_eq limit h (default VNone type)
                                     (VStr SSL_ATTRIBUTE));
                  if hit : bool then return_ false else continue)
            end;
        match r with
        | Some b => mret b
        | None => mret true
        end
    end.

(** The statements of the loop body of GenerateSnippetStatusReportPBObject
    that act on the JSON item (lines 148 to 150): the rename pass, the copy,
    and the removal applied to the item.  What it returns is
    [translated_item], the object [json2pb] and [_IsSSLCapable] then read. *)
Definition translate_item (limit : nat) (item : value) : M value :=
  _ReplaceJSONFields limit item KEY_TRANSLATION "";;
  translated_item ← dict_copy item;
  _RemoveFlashlessAttributeCorrection limit item;;
  mret translated_item.

(** The same statements up to the copy. *)
Definition copy_item (limit : nat) (item : value) : M value :=
  _ReplaceJSONFields limit item KEY_TRANSLATION "";;
  dict_copy item.

(** The items of the list that the dict [v] holds under [key]. *)
Definition items_under (h : heap) (v : value) (key : string)
  : option (list value) :=
  match v with
  | VRef l =>
      match h !! l with
      | Some (ODict d) =>
          match d !! key with
          | Some (VRef l') =>
              match h !! l' with
              | Some (OList items) => Some items
              | _ => None
              end
          | _ => None
          end
      | _ => None
      end
  | _ => None
  end.

End generate_ssr.

(** ** The interpreter's dict (CPython 2.7, Objects/dictobject.c)

    [generate_ssr] above takes the loop of [_ReplaceJSONFields] over a dict
    to visit the keys the dict has when the loop starts.  The interpreter's
    iterator walks the hash table of the dict while the loop body renames
    keys in it.  The table is modelled here as dictobject.c has it on a
    64-bit build without hash randomisation: open addressing in a table
    whose size is a power of two, a removed key leaves a dummy entry, and an
    insertion that fills two thirds of the table moves the entries to a new
    one. *)

Module dictobject.
Import Py.

Definition PyDict_MINSIZE : Z := 8.
Definition PERTURB_SHIFT : Z := 5.

(** The bit pattern of a [long] or a [size_t]. *)
Definition word (x : Z) : Z := x mod 2 ^ 64.

(** [string_hash] and [unicode_hash], which agree on ASCII strings:
    [x = *p << 7; while (--len >= 0) x = (1000003*x) ^ *p++;
     x ^= Py_SIZE(a); if (x == -1) x = -2;], and 0 for the empty string. *)
Fixpoint hash_chars (x : Z) (cs : list ascii) : Z :=
  match cs with
  | [] => x
  | c :: cs' =>
      hash_chars (Z.lxor (word (1000003 * x)) (Z.of_nat (nat_of_ascii c))) cs'
  end.

Definition string_hash (s : string) : Z :=
  match list_ascii_of_string s with
  | [] => 0
  | (c :: _) as cs =>
      let x := Z.lxor (hash_chars (Z.shiftl (Z.of_nat (nat_of_ascii c)) 7) cs)
                      (Z.of_nat (length cs)) in
      if bool_decide (x = 2 ^ 64 - 1) then 2 ^ 64 - 2 else x
  end.

(** A [PyDictEntry]: never used ([me_key == NULL]), the dummy left by a
    removal, or a key with its hash and its value. *)
Inductive entry :=
| Unused
| Dummy
| Active (me_hash : Z) (me_key : string) (me_value : value).

(** A [PyDictObject]: [ma_fill] counts the active and the dummy entries,
    [ma_used] the active ones; [ma_mask] is the size of the table less
    one. *)
Record dict := {
  ma_fill : Z;
  ma_used : Z;
  ma_table : list entry;
}.

Definition ma_mask (mp : dict) : Z := Z.of_nat (length (ma_table mp)) - 1.

Definition slot (mask i : Z) : nat := Z.to_nat (Z.land i mask).

(** The probe loop of [lookdict]:
    [for (perturb = hash; ; perturb >>= PERTURB_SHIFT) {
       i = (i << 2) + i + perturb + 1; ep = &ep0[i & mask]; ... }].
    It ends at the key, or at the first entry never used, and then gives
    the first dummy it passed if there was one.  The loop has no bound in
    C: a table always has an entry never used, and once [perturb] is 0,
    after 13 shifts, the recurrence reaches every entry.  [fuel] is that
    bound, and [None] out of it is a table the interpreter cannot have. *)
Fixpoint probe (fuel : nat) (table : list entry) (mask hash : Z) (key : string)
    (i perturb : Z) (freeslot : option nat) : option nat :=
  match fuel with
  | O => None
  | S fuel' =>
      let i := word (Z.shiftl i 2 + i + perturb + 1) in
      let j := slot mask i in
      match table !! j with
      | None => None
      | Some Unused => Some (default j freeslot)
      | Some (Active me_hash me_key _) =>
          if bool_decide (me_hash = hash ∧ me_key = key) then Some j
          else probe fuel' table mask hash key i
                 (Z.shiftr perturb PERTURB_SHIFT) freeslot
      | Some Dummy =>
          probe fuel' table mask hash key i (Z.shiftr perturb PERTURB_SHIFT)
            (match freeslot with None => Some j | Some _ => freeslot end)
      end
  end.

Definition probe_fuel (table : list entry) : nat := length table + 14.

(** [lookdict]: the entry of [key], or the entry an insertion of [key]
    takes. *)
Definition lookdict (mp : dict) (key : string) (hash : Z) : option nat :=
  let table := ma_table mp in
  let mask := ma_mask mp in
  let i := Z.land hash mask in
  match table !! Z.to_nat i with
  | None => None
  | Some Unused => Some (Z.to_nat i)
  | Some (Active me_hash me_key _) =>
      if bool_decide (me_hash = hash ∧ me_key = key) then Some (Z.to_nat i)
      else probe (probe_fuel table) table mask hash key i hash None
  | Some Dummy =>
      probe (probe_fuel table) table mask hash key i hash (Some (Z.to_nat i))
  end.

(** [insertdict]: the value of a key that is there is replaced; a new key
    takes the entry [lookdict] gives, and [ma_fill] grows when that entry
    was never used. *)
Definition insertdict (mp : dict) (key : string) (hash : Z) (v : value)
  : option dict :=
  i ← lookdict mp key hash;
  ep ← ma_table mp !! i;
  let table := <[i := Active hash key v]> (ma_table mp) in
  Some match ep with
       | Active _ _ _ =>
           {| ma_fill := ma_fill mp; ma_used := ma_used mp; ma_table := table |}
       | Unused =>
           {| ma_fill := ma_fill mp + 1; ma_used := ma_used mp + 1;
              ma_table := table |}
       | Dummy =>
           {| ma_fill := ma_fill mp; ma_used := ma_used mp + 1;
              ma_table := table |}
       end.

(** [insertdict_clean]: the first entry never used on the probe sequence
    of [hash], in a table without dummies. *)
Fixpoint clean_slot (fuel : nat) (table : list entry) (mask : Z)
    (i perturb : Z) : option nat :=
  let j := slot mask i in
  match table !! j with
  | None => None
  | Some Unused => Some j
  | Some _ =>
      match fuel with
      | O => None
      | S fuel' =>
          clean_slot fuel' table mask (word (Z.shiftl i 2 + i + perturb + 1))
            (Z.shiftr perturb PERTURB_SHIFT)
      end
  end.

Definition insertdict_clean (table : list entry) (ep : entry)
  : option (list entry) :=
  match ep with
  | Active hash _ _ =>
      let mask := Z.of_nat (length table) - 1 in
      j ← clean_slot (probe_fuel table) table mask (Z.land hash mask) hash;
      Some (<[j := ep]> table)
  | _ => Some table
  end.

(** [for (newsize = PyDict_MINSIZE; newsize <= minused; newsize <<= 1);] *)
Fixpoint grow (fuel : nat) (newsize minused : Z) : Z :=
  match fuel with
  | O => newsize
  | S fuel' =>
      if bool_decide (newsize ≤ minused) then grow fuel' (newsize * 2) minused
      else newsize
  end.

Definition new_size (minused : Z) : Z := grow 64 PyDict_MINSIZE minused.

(** [dictresize]: the active entries are inserted into a new table in the
    order of the old one; the dummies are dropped.  A table of the least
    size that has no dummies and is to keep that size is left as it is. *)
Definition dictresize (mp : dict) (minused : Z) : option dict :=
  let newsize := new_size minused in
  if bool_decide (newsize = PyDict_MINSIZE ∧
                  Z.of_nat (length (ma_table mp)) = PyDict_MINSIZE ∧
                  ma_fill mp = ma_used mp)
  then Some mp
  else
    table ← foldl (λ acc ep, acc ≫= λ table, insertdict_clean table ep)
              (Some (replicate (Z.to_nat newsize) Unused))
              (ma_table mp);
    Some {| ma_fill := ma_used mp; ma_used := ma_used mp; ma_table := table |}.

(** [PyDict_SetItem]: after an insertion that added a key, the table is
    resized when two thirds of it are filled. *)
Definition PyDict_SetItem (mp : dict) (key : string) (v : value) : option dict :=
  let n_used := ma_used mp in
  mp' ← insertdict mp key (string_hash key) v;
  if bool_decide (n_used < ma_used mp' ∧ (ma_mask mp' + 1) * 2 ≤ ma_fill mp' * 3)
  then dictresize mp' ((if bool_decide (50000 < ma_used mp') then 2 else 4)
                       * ma_used mp')
  else Some mp'.

(** [PyDict_GetItem]: the value under [key], if there is one. *)
Definition PyDict_GetItem (mp : dict) (key : string) : option (option value) :=
  i ← lookdict mp key (string_hash key);
  ep ← ma_table mp !! i;
  Some match ep with
       | Active _ _ v => Some v
       | _ => None
       end.

(** [dict_pop] on a key that is there: its entry becomes a dummy. *)
Definition remove_entry (mp : dict) (i : nat) : dict :=
  {| ma_fill := ma_fill mp; ma_used := ma_used mp - 1;
     ma_table := <[i := Dummy]> (ma_table mp) |}.

(** [dictiter_iternextkey]: the first entry with a value at or after
    [di_pos]. *)
Fixpoint first_active (entries : list entry) (i : nat) : option (nat * string) :=
  match entries with
  | [] => None
  | Active _ key _ :: _ => Some (i, key)
  | _ :: entries' => first_active entries' (S i)
  end.

Definition next_key (mp : dict) (di_pos : nat) : option (nat * string) :=
  first_active (drop di_pos (ma_table mp)) di_pos.

(** [PyDict_New()] *)
Definition PyDict_New : dict :=
  {| ma_fill := 0; ma_used := 0;
     ma_table := replicate (Z.to_nat PyDict_MINSIZE) Unused |}.

(** The dict a JSON decoder builds of an object: the pairs are set in a new
    dict in the order of the document. *)
Definition from_items (items : list (string * value)) : option dict :=
  foldl (λ acc kv, acc ≫= λ mp, PyDict_SetItem mp kv.1 kv.2)
        (Some PyDict_New) items.

(** The keys in the order of the table. *)
Definition keys (mp : dict) : list string :=
  omap (λ ep, match ep with Active _ key _ => Some key | _ => None end)
       (ma_table mp).

End dictobject.

(** ** A store whose dicts are tables *)

Module PyTables.
Import Py dictobject.

Inductive obj :=
| OList (items : list value)
| ODict (mp : dict).

Abbreviation heap := (list obj).

(** [RuntimeError] is "dictionary changed size during iteration";
    [SystemError] marks a store or a table the interpreter cannot
    produce. *)
Inductive exn :=
| KeyError
| TypeError
| AttributeError
| RuntimeError
| RecursionLimit
| SystemError.

Inductive result (A : Type) :=
| Ok (a : A)
| Raise (e : exn).
Arguments Ok {A} a.
Arguments Raise {A} e.

Definition M (A : Type) : Type := heap → result A * heap.

Definition ret {A} (a : A) : M A := λ h, (Ok a, h).
Definition raise {A} (e : exn) : M A := λ h, (Raise e, h).
Definition bind {A B} (m : M A) (k : A → M B) : M B :=
  λ h, match m h with
       | (Ok a, h') => k a h'
       | (Raise e, h') => (Raise e, h')
       end.

#[global] Instance M_ret : MRet M := @ret.
#[global] Instance M_bind : MBind M := λ A B k m, bind m k.

Definition load (v : value) : M (option (loc * obj)) :=
  λ h, match v with
       | VRef l => match h !! l with
                   | Some o => (Ok (Some (l, o)), h)
                   | None => (Raise SystemError, h)
                   end
       | _ => (Ok None, h)
       end.

Definition store (l : loc) (o : obj) : M unit :=
  λ h, (Ok tt, <[l := o]> h).

Definition of_table {A} (o : option A) : M A :=
  match o with
  | Some a => ret a
  | None => raise SystemError
  end.

(** [key in d], on a dict. *)
Definition dict_contains (d : value) (key : string) : M bool :=
  o ← load d;
  match o with
  | Some (_, ODict mp) =>
      v ← of_table (PyDict_GetItem mp key);
      mret (bool_decide (is_Some v))
  | Some (_, OList items) =>
      mret (bool_decide (Exists (λ x, py_eq_scalar x (VStr key) = true) items))
  | None =>
      match d with
      | VStr s => mret (is_substring key s)
      | _ => raise TypeError
      end
  end.

(** [d.pop(key)] *)
Definition dict_pop (d : value) (key : string) : M value :=
  o ← load d;
  match o with
  | Some (l, ODict mp) =>
      i ← of_table (lookdict mp key (string_hash key));
      match ma_table mp !! i with
      | Some (Active _ _ v) => store l (ODict (remove_entry mp i));; mret v
      | _ => raise KeyError
      end
  | Some (_, OList _) => raise TypeError
  | None => raise AttributeError
  end.

(** [d[key] = v] *)
Definition dict_setitem (d : value) (key : string) (v : value) : M unit :=
  o ← load d;
  match o with
  | Some (l, ODict mp) =>
      mp' ← of_table (PyDict_SetItem mp key v);
      store l (ODict mp')
  | _ => raise TypeError
  end.

(** [d[key]] *)
Definition dict_getitem (d : value) (key : string) : M value :=
  o ← load d;
  match o with
  | Some (_, ODict mp) =>
      v ← of_table (PyDict_GetItem mp key);
      match v with
      | Some v => mret v
      | None => raise KeyError
      end
  | _ => raise TypeError
  end.

Definition continue {R} : M (option R) := mret None.
Definition return_ {R} (r : R) : M (option R) := mret (Some r).

(** [for x in lst]: the iterator keeps an index into the live list. *)
Fixpoint for_list {R} (budget : nat) (l : loc) (i : nat)
    (body : value → M (option R)) : M (option R) :=
  λ h, match h !! l with
       | Some (OList items) =>
           match items !! i with
           | None => (Ok None, h)
           | Some x =>
               match budget with
               | O => (Raise SystemError, h)
               | S budget' =>
                   (r ← body x;
                    match r with
                    | Some r => return_ r
                    | None => for_list budget' l (S i) body
                    end) h
               end
           end
       | _ => (Raise SystemError, h)
       end.

(** [for key in d]: the iterator keeps the size the dict had when the loop
    started ([di_used]) and a position in the live table ([di_pos]).  Each
    step first compares the sizes, then takes the next entry with a value
    from the position on, in the table as it is then.  The position only
    grows and a table is no longer than the longer of the one at loop entry
    and the one a resize makes for that size, which bounds the steps;
    [budget] is that bound. *)
Fixpoint for_dict {R} (budget : nat) (l : loc) (di_used : Z) (di_pos : nat)
    (body : string → M (option R)) : M (option R) :=
  λ h, match h !! l with
       | Some (ODict mp) =>
           if bool_decide (di_used ≠ ma_used mp) then (Raise RuntimeError, h)
           else
             match next_key mp di_pos with
             | None => (Ok None, h)
             | Some (i, key) =>
                 match budget with
                 | O => (Raise SystemError, h)
                 | S budget' =>
                     (r ← body key;
                      match r with
                      | Some r => return_ r
                      | None => for_dict budget' l di_used (S i) body
                      end) h
                 end
             end
       | _ => (Raise SystemError, h)
       end.

Definition dict_budget (mp : dict) : nat :=
  length (ma_table mp) + Z.to_nat (new_size (4 * ma_used mp)).

Definition run {A} (m : M A) (h : heap) : result A * heap := m h.

End PyTables.

(** ** generate_ssr.py: the renaming on the interpreter's tables *)

Module generate_ssr_tables.
Import Py dictobject PyTables.

Definition _ReplaceKey (dictionary : value) (old_key new_key : string) : M unit :=
  found ← dict_contains dictionary old_key;
  if found : bool
  then (v ← dict_pop dictionary old_key; dict_setitem dictionary new_key v)
  else mret tt.

(** The traversal, statement by statement as in [generate_ssr]; the loop
    over a dict is the interpreter's. *)
Fixpoint _ReplaceJSONFields (limit : nat) (json : value)
    (translation : gmap string string) (prefix : string) : M unit :=
  match limit with
  | O => raise RecursionLimit
  | S limit' =>
      o ← load json;
      match o with
      | Some (l, OList items) =>
          for_list (R := unit) (length items) l 0 (λ item,
            _ReplaceJSONFields limit' item translation prefix;;
            continue);;
          mret tt
      | Some (l, ODict mp) =>
          for_dict (R := unit) (dict_budget mp) l (ma_used mp) 0 (λ field_name,
            let full_key := prefix +:+ field_name in
            match translation !! full_key with
            | Some new_key =>
                _ReplaceKey json field_name new_key;;
                child ← dict_getitem json new_key;
                _ReplaceJSONFields limit' child translation (full_key +:+ ".");;
                continue
            | None => continue
            end);;
          mret tt
      | None => mret tt
      end
  end.

(** The keys of the dict at [l], in the order of its table. *)
Definition keys_at (h : heap) (l : loc) : option (list string) :=
  match h !! l with
  | Some (ODict mp) => Some (keys mp)
  | _ => None
  end.

(** A store from the objects of a JSON document: a dict is given by its
    pairs in the order of the document. *)
Inductive node :=
| NList (items : list value)
| NDict (items : list (string * value)).

Definition build (nodes : list node) : option heap :=
  mapM (λ n, match n with
             | NList items => Some (OList items)
             | NDict items => ODict <$> from_items items
             end) nodes.

(** An item with five keys, all of them in the table:
    [{"advertiserId": ["12345"], "buyerCreativeId": "c1",
      "clickThroughUrl": ["http://www.test.com/"],
      "disapprovalReasons": [], "productCategories": [10004]}]. *)
Definition five_keys : list node :=
  [ NDict [ ("advertiserId", VRef 1); ("buyerCreativeId", VStr "c1");
            ("clickThroughUrl", VRef 2); ("disapprovalReasons", VRef 3);
            ("productCategories", VRef 4) ];
    NList [VStr "12345"];
    NList [VStr "http://www.test.com/"];
    NList [];
    NList [VInt 10004] ].

(** The dict of [{"advertiser_id": "12345", "buyer_creative_id": "c1",
    "kind": "adexchangebuyer#creative"}]. *)
Definition renamed_keys : dict :=
  default PyDict_New
    (from_items [ ("advertiser_id", VStr "12345");
                  ("buyer_creative_id", VStr "c1");
                  ("kind", VStr "adexchangebuyer#creative") ]).

End generate_ssr_tables.

(** ** Python values as trees, and the builtins the codec applies *)

Module Builtins.

(** Python's [float] is used by the codec only through [float()], [int()],
    [bool()], [unicode()] and dict lookup; its arithmetic is an interface
    here. *)
Class PyFloat := {
  float : Type;
  (** [float(n)]; [None] is OverflowError *)
  float_of_int : Z → option float;
  (** [float(s)]; [None] is ValueError *)
  float_of_str : string → option float;
  (** [int(x)], truncation toward zero; [None] for nan and the infinities *)
  int_of_float : float → option Z;
  (** the integer [x] equals, if it equals one (a float is looked up in a
      dict as that integer) *)
  float_integral : float → option Z;
  (** [x == 0.0] *)
  float_is_zero : float → bool;
  (** [repr(x)] *)
  float_repr : float → string;
}.

Section json.
Context `{PyFloat}.

(** "JSON here does not refer to the text format, but rather to the Python
    builtin data types that correspond to the parts of a JSON document":
    dict, list, str, int/float, bool and NoneType.  [str] and [unicode] are
    one type of 8-bit strings. *)
Inductive json :=
| JNone
| JBool (b : bool)
| JInt (z : Z)
| JFloat (x : float)
| JStr (s : string)
| JList (items : list json)
| JDict (d : gmap string json).

Inductive exn :=
| ParseError (field : string) (type : Z)
| RequiredFieldMissing (init_errors : list string)
| TypeError
| ValueError
| OverflowError
| AttributeError
| KeyError
| OtherError (what : string).

Inductive outcome (A : Type) :=
| Returns (a : A)
| Raises (e : exn).
#[global] Arguments Returns {A} a.
#[global] Arguments Raises {A} e.

#[global] Instance outcome_ret : MRet outcome := @Returns.
#[global] Instance outcome_bind : MBind outcome := λ A B k m,
  match m with
  | Returns a => k a
  | Raises e => Raises e
  end.

#[global] Instance outcome_fmap : FMap outcome := λ A B f m,
  match m with
  | Returns a => Returns (f a)
  | Raises e => Raises e
  end.

Definition or_raise {A} (e : exn) (o : option A) : outcome A :=
  match o with
  | Some a => Returns a
  | None => Raises e
  end.

(** *** int() and long() *)

Definition is_space (c : ascii) : bool :=
  bool_decide (c ∈ [" "; "009"; "010"; "011"; "012"; "013"]%char).

Fixpoint lstrip (cs : list ascii) : list ascii :=
  match cs with
  | c :: cs' => if is_space c then lstrip cs' else cs
  | [] => []
  end.

Definition strip (cs : list ascii) : list ascii :=
  reverse (lstrip (reverse (lstrip cs))).

Definition digit_of (c : ascii) : option Z :=
  let n := Z.of_nat (nat_of_ascii c) in
  if bool_decide (48 ≤ n ≤ 57) then Some (n - 48) else None.

Fixpoint digits_value (acc : Z) (cs : list ascii) : option Z :=
  match cs with
  | [] => Some acc
  | c :: cs' =>
      match digit_of c with
      | Some d => digits_value (10 * acc + d) cs'
      | None => None
      end
  end.

Definition unsigned_literal (cs : list ascii) : option Z :=
  match cs with
  | [] => None
  | _ => digits_value 0 cs
  end.

(** A decimal literal: white space around an optional sign and digits. *)
Definition int_literal (cs : list ascii) : option Z :=
  match strip cs with
  | "-"%char :: ds => Z.opp <$> unsigned_literal ds
  | "+"%char :: ds => unsigned_literal ds
  | ds => unsigned_literal ds
  end.

Definition Z_of_bool (b : bool) : Z := if b then 1 else 0.

(** [int(x)] *)
Definition py_int (x : json) : outcome json :=
  match x with
  | JInt z => Returns (JInt z)
  | JBool b => Returns (JInt (Z_of_bool b))
  | JFloat f => JInt <$> or_raise ValueError (int_of_float f)
  | JStr s => JInt <$> or_raise ValueError (int_literal (list_ascii_of_string s))
  | JNone | JList _ | JDict _ => Raises TypeError
  end.

(** [long(x)]: as [int(x)], and a literal may end in [L]. *)
Definition long_literal (cs : list ascii) : option Z :=
  match reverse (strip cs) with
  | c :: ds =>
      if bool_decide (c = "L"%char ∨ c = "l"%char)
      then int_literal (reverse ds)
      else int_literal cs
  | [] => None
  end.

Definition py_long (x : json) : outcome json :=
  match x with
  | JStr s => JInt <$> or_raise ValueError (long_literal (list_ascii_of_string s))
  | _ => py_int x
  end.

(** [float(x)] *)
Definition py_float (x : json) : outcome json :=
  match x with
  | JFloat f => Returns (JFloat f)
  | JInt z => JFloat <$> or_raise OverflowError (float_of_int z)
  | JBool b => JFloat <$> or_raise OverflowError (float_of_int (Z_of_bool b))
  | JStr s => JFloat <$> or_raise ValueError (float_of_str s)
  | JNone | JList _ | JDict _ => Raises TypeError
  end.

(** [bool(x)]: the truth value. *)
Definition py_bool (x : json) : outcome json :=
  Returns (JBool
    match x with
    | JNone => false
    | JBool b => b
    | JInt z => negb (bool_decide (z = 0))
    | JFloat f => negb (float_is_zero f)
    | JStr s => negb (bool_decide (s = ""))
    | JList items => negb (bool_decide (length items = 0%nat))
    | JDict d => negb (bool_decide (size d = 0%nat))
    end).

(** [unicode(x)].  [container_repr] is [repr] of a list or a dict. *)
Definition py_unicode (container_repr : json → string) (x : json) : outcome json :=
  Returns (JStr
    match x with
    | JStr s => s
    | JInt z => pretty z
    | JBool b => if b then "True" else "False"
    | JNone => "None"
    | JFloat f => float_repr f
    | JList _ | JDict _ => container_repr x
    end).

(** *** The [string_escape] codec of [str] *)

Definition code (c : ascii) : Z := Z.of_nat (nat_of_ascii c).
Definition chr (n : Z) : ascii := ascii_of_nat (Z.to_nat n).

Definition hex_digit (n : Z) : ascii :=
  if bool_decide (n < 10) then chr (48 + n) else chr (87 + n).

Definition hex_value (c : ascii) : option Z :=
  let n := code c in
  if bool_decide (48 ≤ n ≤ 57) then Some (n - 48)
  else if bool_decide (97 ≤ n ≤ 102) then Some (n - 87)
  else if bool_decide (65 ≤ n ≤ 70) then Some (n - 55)
  else None.

Definition octal_value (c : ascii) : option Z :=
  let n := code c in
  if bool_decide (48 ≤ n ≤ 55) then Some (n - 48) else None.

(** [s.encode('string_escape')], one character: the quote and the
    backslash get a backslash, tab, newline and carriage return their
    letter, other characters outside the printable ASCII range two hex
    digits. *)
Definition escape_char (c : ascii) : list ascii :=
  if bool_decide (c = "'"%char ∨ c = "\"%char) then ["\"%char; c]
  else if bool_decide (c = "009"%char) then ["\"; "t"]%char
  else if bool_decide (c = "010"%char) then ["\"; "n"]%char
  else if bool_decide (c = "013"%char) then ["\"; "r"]%char
  else if bool_decide (code c < 32 ∨ 127 ≤ code c)
       then ["\"%char; "x"%char; hex_digit (code c / 16); hex_digit (code c mod 16)]
  else [c].

Definition encode_string_escape (cs : list ascii) : list ascii :=
  cs ≫= escape_char.

(** [s.decode('string_escape')]: [None] is the ValueError of a trailing
    backslash or of [\x] without two hex digits.  An unknown escape is kept
    as it is written. *)
Fixpoint decode_string_escape (cs : list ascii) : option (list ascii) :=
  match cs with
  | [] => Some []
  | c :: rest =>
      if bool_decide (c = "\"%char) then
        match rest with
        | [] => None
        | e :: rest1 =>
            let emit (x : ascii) (tl : list ascii) :=
              (λ out, x :: out) <$> decode_string_escape tl in
            if bool_decide (e = "010"%char) then decode_string_escape rest1
            else if bool_decide (e = "\"%char) then emit "\"%char rest1
            else if bool_decide (e = "'"%char) then emit "'"%char rest1
            else if bool_decide (e = "034"%char) then emit "034"%char rest1
            else if bool_decide (e = "b"%char) then emit "008"%char rest1
            else if bool_decide (e = "f"%char) then emit "012"%char rest1
            else if bool_decide (e = "t"%char) then emit "009"%char rest1
            else if bool_decide (e = "n"%char) then emit "010"%char rest1
            else if bool_decide (e = "r"%char) then emit "013"%char rest1
            else if bool_decide (e = "v"%char) then emit "011"%char rest1
            else if bool_decide (e = "a"%char) then emit "007"%char rest1
            else if bool_decide (e = "x"%char) then
              match rest1 with
              | h1 :: h2 :: rest3 =>
                  match hex_value h1, hex_value h2 with
                  | Some a, Some b => emit (chr (16 * a + b)) rest3
                  | _, _ => None
                  end
              | _ => None
              end
            else
              match octal_value e with
              | Some o1 =>
                  match rest1 with
                  | d2 :: rest2 =>
                      match octal_value d2 with
                      | Some o2 =>
                          match rest2 with
                          | d3 :: rest3 =>
                              match octal_value d3 with
                              | Some o3 => emit (chr (64 * o1 + 8 * o2 + o3)) rest3
                              | None => emit (chr (8 * o1 + o2)) rest2
                              end
                          | [] => emit (chr (8 * o1 + o2)) rest2
                          end
                      | None => emit (chr o1) rest1
                      end
                  | [] => emit (chr o1) rest1
                  end
              | None =>
                  (λ out, "\"%char :: e :: out) <$> decode_string_escape rest1
              end
        end
      else (λ out, c :: out) <$> decode_string_escape rest
  end.

(** [x.encode('string_escape')] and [x.decode('string_escape')] are
    methods of strings only. *)
Definition py_encode_string_escape (x : json) : outcome json :=
  match x with
  | JStr s =>
      Returns (JStr (string_of_list_ascii
                       (encode_string_escape (list_ascii_of_string s))))
  | _ => Raises AttributeError
  end.

Definition py_decode_string_escape (x : json) : outcome json :=
  match x with
  | JStr s =>
      (λ cs, JStr (string_of_list_ascii cs)) <$>
      or_raise ValueError (decode_string_escape (list_ascii_of_string s))
  | _ => Raises AttributeError
  end.

(** *** Containment, indexing and iteration, for a string key *)

(** [key in js] *)
Definition py_contains (key : string) (js : json) : outcome bool :=
  match js with
  | JDict d => Returns (bool_decide (is_Some (d !! key)))
  | JList items =>
      Returns (existsb (λ x, match x with
                             | JStr s => bool_decide (s = key)
                             | _ => false
                             end) items)
  | JStr s => Returns (Py.is_substring key s)
  | JNone | JBool _ | JInt _ | JFloat _ => Raises TypeError
  end.

(** [js[key]] *)
Definition py_getitem (js : json) (key : string) : outcome json :=
  match js with
  | JDict d => or_raise KeyError (d !! key)
  | _ => Raises TypeError
  end.

(** The items [for v in js] visits.  For a dict these are its keys, here
    in the order of the finite map: the interpreter's order is that of the
    hash table of the dict, which a tree does not record. *)
Definition py_iter (js : json) : outcome (list json) :=
  match js with
  | JList items => Returns items
  | JDict d => Returns (JStr <$> (map_to_list d).*1)
  | JStr s =>
      Returns ((λ c, JStr (String c EmptyString)) <$> list_ascii_of_string s)
  | JNone | JBool _ | JInt _ | JFloat _ => Raises TypeError
  end.

End json.
End Builtins.

(** ** Descriptors and messages (the google.protobuf runtime)

    The runtime is a library outside the repository.  What the codec uses
    of it is modelled here: the descriptor of a message type, a message as
    the fields that are set in it, the check a field makes of a value it is
    given, and the queries [HasField], [ListFields] and
    [FindInitializationErrors]. *)

Module EnumValueDescriptor.
Record t := { name : string; number : Z }.
End EnumValueDescriptor.

Module protobuf.
Import Builtins.

Inductive Label := LABEL_OPTIONAL | LABEL_REQUIRED | LABEL_REPEATED.

#[global] Instance Label_eq_dec : EqDecision Label.
Proof. solve_decision. Defined.

Definition TYPE_DOUBLE : Z := 1.
Definition TYPE_FLOAT : Z := 2.
Definition TYPE_INT64 : Z := 3.
Definition TYPE_UINT64 : Z := 4.
Definition TYPE_INT32 : Z := 5.
Definition TYPE_FIXED64 : Z := 6.
Definition TYPE_FIXED32 : Z := 7.
Definition TYPE_BOOL : Z := 8.
Definition TYPE_STRING : Z := 9.
Definition TYPE_GROUP : Z := 10.
Definition TYPE_MESSAGE : Z := 11.
Definition TYPE_BYTES : Z := 12.
Definition TYPE_UINT32 : Z := 13.
Definition TYPE_ENUM : Z := 14.
Definition TYPE_SFIXED32 : Z := 15.
Definition TYPE_SFIXED64 : Z := 16.
Definition TYPE_SINT32 : Z := 17.
Definition TYPE_SINT64 : Z := 18.

Record EnumDescriptor := { values : list EnumValueDescriptor.t }.

(** [dict((v.name, v) for v in values)]: a later value replaces an earlier
    one under the same key. *)
Definition values_by_name (e : EnumDescriptor)
  : gmap string EnumValueDescriptor.t :=
  foldl (λ m v, <[EnumValueDescriptor.name v := v]> m) ∅ (values e).

Definition values_by_number (e : EnumDescriptor)
  : gmap Z EnumValueDescriptor.t :=
  foldl (λ m v, <[EnumValueDescriptor.number v := v]> m) ∅ (values e).

Section protobuf.
Context `{PyFloat}.

Record FieldDescriptorOf (D : Type) := {
  name : string;
  full_name : string;
  type : Z;
  label : Label;
  default_value : json;
  enum_type : option EnumDescriptor;
  message_type : option D;
}.
#[global] Arguments name {D} _.
#[global] Arguments full_name {D} _.
#[global] Arguments type {D} _.
#[global] Arguments label {D} _.
#[global] Arguments default_value {D} _.
#[global] Arguments enum_type {D} _.
#[global] Arguments message_type {D} _.

(** A message type: its class name, its full name and its fields in
    declaration order.  A field of message type holds the descriptor of that
    type, so descriptors are finite trees. *)
Inductive Descriptor :=
| MkDescriptor (class_name : string) (type_name : string)
               (fields : list (FieldDescriptorOf Descriptor)).

Definition FieldDescriptor : Type := FieldDescriptorOf Descriptor.

Definition class_name (d : Descriptor) : string :=
  match d with MkDescriptor n _ _ => n end.
Definition type_name (d : Descriptor) : string :=
  match d with MkDescriptor _ n _ => n end.
Definition fields (d : Descriptor) : list FieldDescriptor :=
  match d with MkDescriptor _ _ fs => fs end.

(** A message is the fields set in it, by name: a singular field holds one
    element, a repeated field the list of its elements; an element is a
    Python value or a message.  A repeated field without elements is not
    set. *)
Inductive Message :=
| Msg (set_fields : gmap string FieldValue)
with FieldValue :=
| Singular (x : Element)
| Repeated (xs : list Element)
with Element :=
| Value (v : json)
| Sub (m : Message).

Definition set_fields (pb : Message) : gmap string FieldValue :=
  match pb with Msg s => s end.

(** A new message. *)
Definition empty : Message := Msg ∅.

Definition is_empty (pb : Message) : bool :=
  bool_decide (size (set_fields pb) = 0%nat).

Definition is_composite (t : Z) : bool :=
  bool_decide (t = TYPE_MESSAGE ∨ t = TYPE_GROUP).

(** *** What a field accepts *)

Definition int_bounds (t : Z) : option (Z * Z) :=
  if bool_decide (t ∈ [TYPE_INT32; TYPE_SINT32; TYPE_SFIXED32; TYPE_ENUM])
  then Some (- 2 ^ 31, 2 ^ 31 - 1)
  else if bool_decide (t ∈ [TYPE_UINT32; TYPE_FIXED32])
  then Some (0, 2 ^ 32 - 1)
  else if bool_decide (t ∈ [TYPE_INT64; TYPE_SINT64; TYPE_SFIXED64])
  then Some (- 2 ^ 63, 2 ^ 63 - 1)
  else if bool_decide (t ∈ [TYPE_UINT64; TYPE_FIXED64])
  then Some (0, 2 ^ 64 - 1)
  else None.

(** The check of a value given to a scalar field of type [t]: a value of
    another kind is a TypeError, an integer out of the range of the type a
    ValueError.  The value is stored as it is given. *)
Definition CheckValue (t : Z) (v : json) : outcome json :=
  match int_bounds t with
  | Some (lo, hi) =>
      match v with
      | JInt z => if bool_decide (lo ≤ z ≤ hi) then Returns v else Raises ValueError
      | JBool _ => Returns v
      | _ => Raises TypeError
      end
  | None =>
      if bool_decide (t = TYPE_DOUBLE ∨ t = TYPE_FLOAT) then
        match v with
        | JFloat _ | JInt _ | JBool _ => Returns v
        | _ => Raises TypeError
        end
      else if bool_decide (t = TYPE_BOOL) then
        match v with
        | JBool _ | JInt _ => Returns v
        | _ => Raises TypeError
        end
      else if bool_decide (t = TYPE_STRING ∨ t = TYPE_BYTES) then
        match v with
        | JStr _ => Returns v
        | _ => Raises TypeError
        end
      else Raises AttributeError
  end.

(** *** Reading and writing fields *)

(** [getattr(pb, name)] of a singular message field: the message set
    there, or a new one that is not yet part of [pb]. *)
Definition get_message (pb : Message) (name : string) : Message :=
  match set_fields pb !! name with
  | Some (Singular (Sub m)) => m
  | _ => empty
  end.

(** The message under [name] after it was written to in place: a message
    that was not set becomes set by the first write into it. *)
Definition put_message (pb : Message) (name : string) (m : Message) : Message :=
  match set_fields pb !! name with
  | None => if is_empty m then pb
            else Msg (<[name := Singular (Sub m)]> (set_fields pb))
  | Some _ => Msg (<[name := Singular (Sub m)]> (set_fields pb))
  end.

(** [getattr(pb, name)] of a repeated field: its elements. *)
Definition get_repeated (pb : Message) (name : string) : list Element :=
  match set_fields pb !! name with
  | Some (Repeated xs) => xs
  | _ => []
  end.

(** One more element at the end of a repeated field. *)
Definition append (pb : Message) (name : string) (x : Element) : Message :=
  Msg (<[name := Repeated (get_repeated pb name ++ [x])]> (set_fields pb)).

(** [setattr(pb, name, v)] after the check. *)
Definition set_value (pb : Message) (name : string) (v : json) : Message :=
  Msg (<[name := Singular (Value v)]> (set_fields pb)).

(** [pb.HasField(name)] *)
Definition HasField (pb : Message) (name : string) : bool :=
  bool_decide (is_Some (set_fields pb !! name)).

(** The value [pb.ListFields()] pairs with a field: a field that is set,
    a repeated field that has elements. *)
Definition listed (pb : Message) (name : string) : option FieldValue :=
  match set_fields pb !! name with
  | Some (Repeated []) => None
  | o => o
  end.

(** [getattr(pb, f.name)] of any field: an unset field reads as its
    default, an unset message field as a new message, an unset repeated
    field as no elements. *)
Definition getattr {D} (pb : Message) (f : FieldDescriptorOf D) : FieldValue :=
  match set_fields pb !! name f with
  | Some v => v
  | None =>
      if bool_decide (label f = LABEL_REPEATED) then Repeated []
      else if is_composite (type f) then Singular (Sub empty)
      else Singular (Value (default_value f))
  end.

Definition indexed (name : string) (i : nat) : string :=
  name +:+ "[" +:+ pretty i +:+ "].".

(** [pb.FindInitializationErrors()]: the required fields that are not set,
    then, with the path to them, those of the messages set in [pb]. *)
Fixpoint FindInitializationErrors (d : Descriptor) (pb : Message) : list string :=
  (name <$> filter (λ f, label f = LABEL_REQUIRED ∧ HasField pb (name f) = false)
                   (fields d))
  ++ (fields d ≫= λ f,
        match message_type f, listed pb (name f) with
        | Some sub, Some (Singular (Sub m)) =>
            (λ e, name f +:+ "." +:+ e) <$> FindInitializationErrors sub m
        | Some sub, Some (Repeated xs) =>
            mjoin (imap (λ i x,
                     match x with
                     | Sub m => (λ e, indexed (name f) i +:+ e)
                                <$> FindInitializationErrors sub m
                     | Value _ => []
                     end) xs)
        | _, _ => []
        end).

End protobuf.
End protobuf.

(** ** third_party/protobuf_json/protobuf_json.py *)

Module protobuf_json.
Import Builtins protobuf.

Section protobuf_json.
Context `{PyFloat}.

(** [repr] of a list or a dict, which [unicode] falls back to. *)
Variable container_repr : json → string.

(** The message-set codec finds the extension types in the module that
    generated the message class and reaches their messages through the
    Extensions interface of the runtime; neither is in the repository.  Its
    effect on the message it is given, and its result, are left open. *)
Variable _MessageSetJson2Pb : Message → json → bool → Message * outcome unit.
Variable _MessageSetPb2Json : Message → bool → bool → outcome json.

Definition _EnumNameToNumber (field : FieldDescriptor)
    (js_value : json) : outcome json :=
  match enum_type field with
  | None => Raises AttributeError
  | Some enum =>
      match js_value with
      | JList _ | JDict _ => Raises TypeError
      | JStr s =>
          match values_by_name enum !! s with
          | Some value_desc => Returns (JInt (EnumValueDescriptor.number value_desc))
          | None => py_int js_value
          end
      | JNone | JBool _ | JInt _ | JFloat _ => py_int js_value
      end
  end.

(** The key under which a value is looked up in a dict of numbers. *)
Definition number_key (js_value : json) : option Z :=
  match js_value with
  | JInt z => Some z
  | JBool b => Some (Z_of_bool b)
  | JFloat x => float_integral x
  | _ => None
  end.

Definition _EnumNumberToName (field : FieldDescriptor)
    (js_value : json) : outcome json :=
  match enum_type field with
  | None => Raises AttributeError
  | Some enum =>
      match js_value with
      | JList _ | JDict _ => Raises TypeError
      | _ =>
          match number_key js_value ≫= λ n, values_by_number enum !! n with
          | Some value_desc => Returns (JStr (EnumValueDescriptor.name value_desc))
          | None => Returns js_value
          end
      end
  end.

Definition _js2ftype : gmap Z (json → outcome json) :=
  list_to_map
    [ (TYPE_DOUBLE, py_float);
      (TYPE_FLOAT, py_float);
      (TYPE_INT64, py_long);
      (TYPE_UINT64, py_long);
      (TYPE_INT32, py_int);
      (TYPE_FIXED32, py_int);
      (TYPE_FIXED64, py_long);
      (TYPE_BOOL, py_bool);
      (TYPE_STRING, py_unicode container_repr);
      (TYPE_BYTES, py_decode_string_escape);
      (TYPE_UINT32, py_int);
      (TYPE_ENUM, py_int);
      (TYPE_SFIXED32, py_int);
      (TYPE_SFIXED64, py_long);
      (TYPE_SINT32, py_int);
      (TYPE_SINT64, py_long) ].

(** An entry of [_ftype2js] is a builtin or [pb2json] itself. *)
Inductive converter :=
| builtin (f : json → outcome json)
| nested.

Definition _ftype2js : gmap Z converter :=
  list_to_map
    [ (TYPE_DOUBLE, builtin py_float);
      (TYPE_FLOAT, builtin py_float);
      (TYPE_INT64, builtin py_long);
      (TYPE_UINT64, builtin py_long);
      (TYPE_INT32, builtin py_int);
      (TYPE_FIXED32, builtin py_int);
      (TYPE_FIXED64, builtin py_long);
      (TYPE_BOOL, builtin py_bool);
      (TYPE_STRING, builtin (py_unicode container_repr));
      (TYPE_GROUP, nested);
      (TYPE_MESSAGE, nested);
      (TYPE_BYTES, builtin py_encode_string_escape);
      (TYPE_UINT32, builtin py_int);
      (TYPE_ENUM, builtin py_int);
      (TYPE_SFIXED32, builtin py_int);
      (TYPE_SFIXED64, builtin py_long);
      (TYPE_SINT32, builtin py_int);
      (TYPE_SINT64, builtin py_long) ].

Definition _IsMessageSet (field : FieldDescriptor) : bool :=
  bool_decide (type field = TYPE_MESSAGE) &&
  match message_type field with
  | Some d => bool_decide (type_name d = "proto2.bridge.MessageSet")
  | None => false
  end.

(** A run on a message: the message as the run leaves it, and how the run
    ended.  The message is written in place, so what was written before an
    exception stays. *)
Definition run : Type := Message * outcome unit.

Definition for_each {A} (body : A → Message → run) : list A → Message → run :=
  fix loop xs pb :=
    match xs with
    | [] => (pb, Returns tt)
    | x :: xs' =>
        match body x pb with
        | (pb', Returns _) => loop xs' pb'
        | r => r
        end
    end.

(** The choice of [ftype] for a field: none for a message or a group. *)
Definition choose_ftype (owner : string) (field : FieldDescriptor)
    (use_enum_str_values : bool) : outcome (option (json → outcome json)) :=
  if is_composite (type field) then Returns None
  else if use_enum_str_values && bool_decide (type field = TYPE_ENUM)
  then Returns (Some (_EnumNameToNumber field))
  else match _js2ftype !! type field with
       | Some ftype => Returns (Some ftype)
       | None => Raises (ParseError (owner +:+ "." +:+ name field) (type field))
       end.

(** [pb_value.append(ftype(v))] and [setattr(pb, field.name, ftype(v))] *)
Definition convert (ftype : option (json → outcome json)) (t : Z) (v : json)
  : outcome json :=
  match ftype with
  | Some ftype => ftype v ≫= CheckValue t
  | None => Raises (OtherError "ftype is not bound")
  end.

(** The body of the loop of [json2pb] over the fields of the message. *)
Definition json2pb_field
    (json2pb : Descriptor → Message → json → bool → run)
    (owner : string) (js : json) (use_enum_str_values : bool)
    (field : FieldDescriptor) (pb : Message) : run :=
  match py_contains (name field) js with
  | Raises e => (pb, Raises e)
  | Returns false => (pb, Returns tt)
  | Returns true =>
  match choose_ftype owner field use_enum_str_values with
  | Raises e => (pb, Raises e)
  | Returns ftype =>
  match py_getitem js (name field) with
  | Raises e => (pb, Raises e)
  | Returns js_value =>
      if bool_decide (label field = LABEL_REPEATED) then
        match py_iter js_value with
        | Raises e => (pb, Raises e)
        | Returns vs =>
            for_each (λ v pb,
              if _IsMessageSet field then
                let '(m, r) := _MessageSetJson2Pb empty v use_enum_str_values in
                (append pb (name field) (Sub m), r)
              else if is_composite (type field) then
                match message_type field with
                | Some sub =>
                    let '(m, r) := json2pb sub empty v use_enum_str_values in
                    (append pb (name field) (Sub m), r)
                | None => (pb, Raises AttributeError)
                end
              else
                match convert ftype (type field) v with
                | Returns x => (append pb (name field) (Value x), Returns tt)
                | Raises e => (pb, Raises e)
                end) vs pb
        end
      else
        if _IsMessageSet field then
          let '(m, r) := _MessageSetJson2Pb (get_message pb (name field))
                           js_value use_enum_str_values in
          (put_message pb (name field) m, r)
        else if is_composite (type field) then
          match message_type field with
          | Some sub =>
              let '(m, r) := json2pb sub (get_message pb (name field))
                               js_value use_enum_str_values in
              (put_message pb (name field) m, r)
          | None => (pb, Raises AttributeError)
          end
        else
          match convert ftype (type field) js_value with
          | Returns x => (set_value pb (name field) x, Returns tt)
          | Raises e => (pb, Raises e)
          end
  end end end.

(** After the loop: the check of the required fields. *)
Definition check_initialized (d : Descriptor) (r : run) : run :=
  match r with
  | (pb, Returns _) =>
      match FindInitializationErrors d pb with
      | [] => (pb, Returns tt)
      | init_errors => (pb, Raises (RequiredFieldMissing init_errors))
      end
  | r => r
  end.

Fixpoint json2pb (d : Descriptor) (pb : Message) (js : json)
    (use_enum_str_values : bool) {struct d} : run :=
  check_initialized d
    (for_each (json2pb_field json2pb (class_name d) js use_enum_str_values)
       (fields d) pb).

(** The loop of [json2pb] alone, [for field in pb.DESCRIPTOR.fields], before
    the check of the required fields. *)
Definition json2pb_fields (d : Descriptor) (pb : Message) (js : json)
    (use_enum_str_values : bool) : run :=
  for_each (json2pb_field json2pb (class_name d) js use_enum_str_values)
    (fields d) pb.

(** A builtin converts a value, not a message. *)
Definition on_value (ftype : json → outcome json) (x : Element) : outcome json :=
  match x with
  | Value v => ftype v
  | Sub _ => Raises TypeError
  end.

Definition _Pb2JsonConverter
    (pb2json : Descriptor → Message → bool → bool → outcome json)
    (field : FieldDescriptor)
    (use_enum_str_values all_fields : bool) : outcome (Element → outcome json) :=
  if _IsMessageSet field then
    Returns (λ x, match x with
                  | Sub m => _MessageSetPb2Json m use_enum_str_values all_fields
                  | Value _ => Raises AttributeError
                  end)
  else if use_enum_str_values && bool_decide (type field = TYPE_ENUM) then
    Returns (on_value (_EnumNumberToName field))
  else
    match _ftype2js !! type field with
    | Some nested =>
        Returns (λ x, match x, message_type field with
                      | Sub m, Some sub =>
                          pb2json sub m use_enum_str_values all_fields
                      | _, _ => Raises AttributeError
                      end)
    | Some (builtin ftype) => Returns (on_value ftype)
    | None => Raises (ParseError (full_name field) (type field))
    end.

Definition fold_fields {A B} (body : A → B → outcome B) : list A → B → outcome B :=
  fix loop xs acc :=
    match xs with
    | [] => Returns acc
    | x :: xs' => body x acc ≫= loop xs'
    end.

(** The body of the loop of [pb2json], for one field of the descriptor:
    the field has a turn when [field_values] pairs it with a value, which is
    always so with [all_fields] and otherwise when [ListFields] lists it. *)
Definition pb2json_field
    (pb2json : Descriptor → Message → bool → bool → outcome json)
    (pb : Message) (use_enum_str_values all_fields : bool)
    (field : FieldDescriptor) (js : gmap string json)
  : outcome (gmap string json) :=
  match (if all_fields then Some (getattr pb field)
         else listed pb (name field)) with
  | None => Returns js
  | Some value =>
      if all_fields && bool_decide (label field = LABEL_OPTIONAL)
         && negb (HasField pb (name field))
      then Returns (<[name field := JNone]> js)
      else
        ftype ← _Pb2JsonConverter pb2json field use_enum_str_values all_fields;
        js_value ←
          (if bool_decide (label field = LABEL_REPEATED) then
             match value with
             | Repeated xs => JList <$> mapM ftype xs
             | Singular _ => Raises TypeError
             end
           else
             match value with
             | Singular x => ftype x
             | Repeated _ => Raises TypeError
             end);
        Returns (<[name field := js_value]> js)
  end.

Fixpoint pb2json (d : Descriptor) (pb : Message)
    (use_enum_str_values all_fields : bool) {struct d} : outcome json :=
  js ← fold_fields (pb2json_field pb2json pb use_enum_str_values all_fields)
         (fields d) ∅;
  match FindInitializationErrors d pb with
  | [] => Returns (JDict js)
  | init_errors => Raises (RequiredFieldMissing init_errors)
  end.

End protobuf_json.
End protobuf_json.

(** ** Notions the statements about generate_ssr.py use *)

Module generate_ssr_spec.
Import Py generate_ssr.

(** *** Loops that leave the store as it is *)

(** The result of a loop whose body reads the store only: the first
    [return] or exception of the body decides. *)
Fixpoint seq_result {A R} (g : A → result (option R)) (xs : list A)
  : result (option R) :=
  match xs with
  | [] => Ok None
  | x :: xs' =>
      match g x with
      | Ok None => seq_result g xs'
      | r => r
      end
  end.

(** A computation keeps a relation between the store before and after,
    however it ends. *)
Definition preserves (Rel : heap → heap → Prop) {A} (m : M A) : Prop :=
  ∀ h r h', m h = (r, h') → Rel h h'.

(** *** The shape of an item *)

(** The sequence an item holds under [key]: the items of the list stored
    there, or no items when the key is absent. *)
Definition seq_at (h : heap) (d : gmap string value) (key : string)
    (items : list value) : Prop :=
  match d !! key with
  | None => items = []
  | Some v => ∃ l, v = VRef l ∧ h !! l = Some (OList items)
  end.

(** [v] refers to the mapping [m]. *)
Definition dict_at (h : heap) (v : value) (m : gmap string value) : Prop :=
  ∃ l, v = VRef l ∧ h !! l = Some (ODict m).

(** What one step of a scan for a sentinel yields on an entry. *)
Definition entry_hit (h : heap) (field s : string) (x : value)
  : result (option bool) :=
  match x with
  | VRef le =>
      match h !! le with
      | Some (ODict e) =>
          Ok (if bool_decide (e !! field = Some (VStr s))
              then Some false else None)
      | _ => Raise AttributeError
      end
  | _ => Raise AttributeError
  end.

(** *** The translation table seen from a prefix *)

(** [strip_prefix p x]: what follows the prefix [p] in [x]. *)
Fixpoint strip_prefix (p x : string) : option string :=
  match p with
  | EmptyString => Some x
  | String c p' =>
      match x with
      | String c' x' => if decide (c = c') then strip_prefix p' x' else None
      | EmptyString => None
      end
  end.

(** The field names the table renames under the prefix [p], with their
    new names. *)
Definition entries_under (p : string) : list (string * string) :=
  omap (λ kv, (λ f, (f, kv.2)) <$> strip_prefix p kv.1) KEY_TRANSLATION_items.

Definition step_result (r : result unit) : result (option unit) :=
  match r with
  | Ok _ => Ok None
  | Raise e => Raise e
  end.

Definition loop_result (r : result (option unit)) : result unit :=
  match r with
  | Ok _ => Ok tt
  | Raise e => Raise e
  end.

(** What the traversal does under a prefix the table has no entry for: it
    walks the nested lists and changes nothing. *)
Fixpoint scan (limit : nat) (h : heap) (v : value) : result unit :=
  match limit with
  | O => Raise RecursionLimit
  | S limit' =>
      match v with
      | VRef l =>
          match h !! l with
          | None => Raise SystemError
          | Some (OList items) =>
              loop_result
                (seq_result (λ x, step_result (scan limit' h x)) items)
          | Some (ODict _) => Ok tt
          end
      | _ => Ok tt
      end
  end.

(** *** Inputs *)

(** [{"corrections": [{"reason": "VENDOR_IDS", "details": [...]}]}] and its
    renamed form, as stores: the item is object 0, the list of corrections
    object 1, the correction object 2 and its list of details object 3. *)
Definition corrections_input (details : list string) : heap :=
  [ ODict {[ "corrections" := VRef 1 ]};
    OList [VRef 2];
    ODict (<[ "reason" := VStr "VENDOR_IDS" ]> {[ "details" := VRef 3 ]});
    OList (VStr <$> details) ].

Definition corrections_output (details : list string) : heap :=
  [ ODict {[ "snippet_correction" := VRef 1 ]};
    OList [VRef 2];
    ODict (<[ "type" := VStr "VENDOR_IDS" ]> {[ "detail" := VRef 3 ]});
    OList (VStr <$> details) ].

(** A renamed item whose correction list holds the flashless entry twice,
    in two equal dicts. *)
Definition two_sentinels : heap :=
  [ ODict {[ "snippet_correction" := VRef 1 ]};
    OList [VRef 2; VRef 3];
    ODict {[ "type" := VStr FLASHLESS_ATTRIBUTE ]};
    ODict {[ "type" := VStr FLASHLESS_ATTRIBUTE ]} ].

(** A raw item with one correction, the flashless one. *)
Definition flashless_item : heap :=
  [ ODict {[ "corrections" := VRef 1 ]};
    OList [VRef 2];
    ODict {[ "reason" := VStr FLASHLESS_ATTRIBUTE ]} ].

(** An item that declares the SSL capability and has one disapproval and
    one correction, neither about SSL. *)
Definition ssl_item : heap :=
  [ ODict (<[ "attribute" := VRef 1 ]>
           (<[ "disapproval_reason" := VRef 2 ]>
            {[ "snippet_correction" := VRef 4 ]}));
    OList [VInt 3; VInt RICH_MEDIA_CAPABILITY_SSL];
    OList [VRef 3];
    ODict {[ "reason" := VStr "PROBLEM_WITH_CLICK_MACRO" ]};
    OList [VRef 5];
    ODict {[ "type" := VStr "VENDOR_IDS" ]} ].

End generate_ssr_spec.

(** ** Notions the statements about protobuf_json.py use *)

Module protobuf_json_spec.
Import Builtins protobuf protobuf_json.

Section protobuf_json_spec.
Context `{PyFloat}.
Variable container_repr : json → string.
Variable _MessageSetJson2Pb : Message → json → bool → Message * outcome unit.
Variable _MessageSetPb2Json : Message → bool → bool → outcome json.

(** *** Relations between the message before and after a step *)

(** The fields other than [name] are the same in both messages. *)
Definition same_but (name : string) (pb pb' : Message) : Prop :=
  ∀ k, k ≠ name → set_fields pb' !! k = set_fields pb !! k.

(** The field [name] is the same in both messages. *)
Definition same_at (name : string) (pb pb' : Message) : Prop :=
  set_fields pb' !! name = set_fields pb !! name.

(** Every field set in the first message is set in the second. *)
Definition keeps_fields (pb pb' : Message) : Prop :=
  ∀ k, is_Some (set_fields pb !! k) → is_Some (set_fields pb' !! k).

(** The singular scalar field [field] has been written from the mapping:
    when the mapping has a value under its name, [pb1] holds the value
    converted for the field. *)
Definition holds_converted (owner : string) (use_enum_str_values : bool)
    (js : json) (pb1 : Message) (field : FieldDescriptor) : Prop :=
  ∀ m js_value,
    js = JDict m →
    label field ≠ LABEL_REPEATED → is_composite (type field) = false →
    m !! name field = Some js_value →
    ∃ ftype x,
      choose_ftype container_repr owner field use_enum_str_values
      = Returns ftype ∧
      convert ftype (type field) js_value = Returns x ∧
      set_fields pb1 !! name field = Some (Singular (Value x)).

(** *** Schemas and the messages of a schema *)

(** [P] holds of every item of the list. *)
Definition All {A} (P : A → Prop) : list A → Prop :=
  fix go l :=
    match l with
    | [] => True
    | x :: l' => P x ∧ go l'
    end.

(** The types of scalar fields: every type but message and group. *)
Definition scalar_types : list Z :=
  [ TYPE_DOUBLE; TYPE_FLOAT; TYPE_INT64; TYPE_UINT64; TYPE_INT32;
    TYPE_FIXED64; TYPE_FIXED32; TYPE_BOOL; TYPE_STRING; TYPE_BYTES;
    TYPE_UINT32; TYPE_ENUM; TYPE_SFIXED32; TYPE_SFIXED64; TYPE_SINT32;
    TYPE_SINT64 ].

(** A descriptor a schema compiler produces: the fields of a message have
    different names; a message or group field has the descriptor of its
    type, which is not the message-set marker; a scalar field has one of
    the scalar types, and an enum field an enum whose values have different
    names. *)
Definition wf_field (wf : Descriptor → Prop) (f : FieldDescriptor) : Prop :=
  if is_composite (type f) then
    match message_type f with
    | Some sub => type_name sub ≠ "proto2.bridge.MessageSet" ∧ wf sub
    | None => False
    end
  else
    type f ∈ scalar_types ∧
    (type f = TYPE_ENUM →
     ∃ enum, enum_type f = Some enum ∧
             NoDup (EnumValueDescriptor.name <$> values enum)).

Fixpoint wf_descriptor (d : Descriptor) : Prop :=
  NoDup (name <$> fields d) ∧ All (wf_field wf_descriptor) (fields d).

(** The value a scalar field of type [t] holds: a number within the range
    of an integer type, a float, a bool, a string. *)
Definition valid_scalar (t : Z) (v : json) : Prop :=
  match int_bounds t with
  | Some (lo, hi) => ∃ z, v = JInt z ∧ lo ≤ z ≤ hi
  | None =>
      if bool_decide (t = TYPE_DOUBLE ∨ t = TYPE_FLOAT) then ∃ x, v = JFloat x
      else if bool_decide (t = TYPE_BOOL) then ∃ b, v = JBool b
      else if bool_decide (t = TYPE_STRING ∨ t = TYPE_BYTES) then ∃ s, v = JStr s
      else False
  end.

Definition typed_element (f : FieldDescriptor) (x : Element) : Prop :=
  if is_composite (type f)
  then match x with Sub _ => True | Value _ => False end
  else match x with Value v => valid_scalar (type f) v | Sub _ => False end.

(** The fields set in [pb] are fields of [d], each with a value of its
    type: one element for a singular field, one or more for a repeated
    one. *)
Definition typed (d : Descriptor) (pb : Message) : Prop :=
  (∀ k, is_Some (set_fields pb !! k) → k ∈ name <$> fields d) ∧
  ∀ (f : FieldDescriptor) fv,
    f ∈ fields d → set_fields pb !! name f = Some fv →
    if bool_decide (label f = LABEL_REPEATED)
    then ∃ xs, fv = Repeated xs ∧ xs ≠ [] ∧ Forall (typed_element f) xs
    else ∃ x, fv = Singular x ∧ typed_element f x.

(** Every optional field of [d] is set in [pb]. *)
Definition optional_set (d : Descriptor) (pb : Message) : Prop :=
  ∀ f : FieldDescriptor,
    f ∈ fields d → label f = LABEL_OPTIONAL → is_Some (set_fields pb !! name f).

(** No singular message field of [pb] is set to a message without fields. *)
Definition submessages_nonempty (d : Descriptor) (pb : Message) : Prop :=
  ∀ (f : FieldDescriptor) m,
    f ∈ fields d → set_fields pb !! name f = Some (Singular (Sub m)) →
    is_empty m = false.

(** [P] holds of the message and of every message below it. *)
Fixpoint everywhere (P : Descriptor → Message → Prop)
    (d : Descriptor) (pb : Message) : Prop :=
  P d pb ∧
  All (λ f : FieldDescriptor,
         match message_type f, set_fields pb !! name f with
         | Some sub, Some (Singular (Sub m)) => everywhere P sub m
         | Some sub, Some (Repeated xs) =>
             All (λ x, match x with
                       | Sub m => everywhere P sub m
                       | Value _ => True
                       end) xs
         | _, _ => True
         end) (fields d).

(** *** The round trip, field by field *)

(** The message with the field [k] as [stored] has it. *)
Definition restore (k : string) (stored : option FieldValue) (pb : Message)
  : Message :=
  match stored with
  | None => pb
  | Some fv => Msg (<[k := fv]> (set_fields pb))
  end.

(** Encode then decode gives the message back, for the messages of [d]
    that the round trip is about. *)
Definition roundtrips (use all : bool) (d : Descriptor) : Prop :=
  ∀ pb,
    everywhere typed d pb → everywhere submessages_nonempty d pb →
    FindInitializationErrors d pb = [] →
    (all = true → everywhere optional_set d pb) →
    ∃ js, pb2json container_repr _MessageSetPb2Json d pb use all
          = Returns (JDict js) ∧
          json2pb container_repr _MessageSetJson2Pb d empty (JDict js) use
          = (pb, Returns tt).

(** The step of the decode loop for [f] writes [stored] when the mapping
    has [o] under the name of [f]. *)
Definition decodable (owner : string) (use : bool) (f : FieldDescriptor)
    (stored : option FieldValue) (o : option json) : Prop :=
  ∀ js pb_cur,
    js !! name f = o → set_fields pb_cur !! name f = None →
    json2pb_field container_repr _MessageSetJson2Pb
      (json2pb container_repr _MessageSetJson2Pb) owner (JDict js) use f pb_cur
    = (restore (name f) stored pb_cur, Returns tt).

(** The messages of a field that is set meet the conditions of the round
    trip of their type. *)
Definition sub_ready (all : bool) (sub : Descriptor) (m : Message) : Prop :=
  everywhere typed sub m ∧ everywhere submessages_nonempty sub m ∧
  FindInitializationErrors sub m = [] ∧
  (all = true → everywhere optional_set sub m).

End protobuf_json_spec.
End protobuf_json_spec.

(** ** A schema and inputs for the examples *)

Module sample.
Import Builtins protobuf protobuf_json.

(** Floats that are whole numbers: enough of [float] to run the codec on
    the examples. *)
#[global] Instance whole_floats : PyFloat := {|
  float := Z;
  float_of_int z := Some z;
  float_of_str s := int_literal (list_ascii_of_string s);
  int_of_float x := Some x;
  float_integral x := Some x;
  float_is_zero x := bool_decide (x = 0);
  float_repr x := pretty x +:+ ".0";
|}.

Definition container_repr (x : json) : string := "<container>".

(** The schemas of the examples have no message-set field. *)
Definition _MessageSetJson2Pb (pb_msg : Message) (json_message_set : json)
    (use_enum_str_values : bool) : Message * outcome unit :=
  (pb_msg, Raises (OtherError "no message set")).

Definition _MessageSetPb2Json (message_set : Message)
    (use_enum_str_values all_fields : bool) : outcome json :=
  Raises (OtherError "no message set").

Definition field (name : string) (type : Z) (label : Label)
    (enum_type : option EnumDescriptor) (message_type : option Descriptor)
  : FieldDescriptor :=
  {| name := name; full_name := "sample." +:+ name; type := type;
     label := label; default_value := JNone; enum_type := enum_type;
     message_type := message_type |}.

(** [enum Status { OK = 1; BAD = 2; }] *)
Definition Status : EnumDescriptor :=
  {| values := [ {| EnumValueDescriptor.name := "OK";
                    EnumValueDescriptor.number := 1 |};
                 {| EnumValueDescriptor.name := "BAD";
                    EnumValueDescriptor.number := 2 |} ] |}.

Definition status_field : FieldDescriptor :=
  field "status" TYPE_ENUM LABEL_OPTIONAL (Some Status) None.

(** [message Inner { repeated int32 xs = 1; }] *)
Definition Inner : Descriptor :=
  MkDescriptor "Inner" "sample.Inner"
    [ field "xs" TYPE_INT32 LABEL_REPEATED None None ].

(** [message Item { required string id = 1; optional int32 n = 2; }] *)
Definition id_field : FieldDescriptor :=
  field "id" TYPE_STRING LABEL_REQUIRED None None.

Definition n_field : FieldDescriptor :=
  field "n" TYPE_INT32 LABEL_OPTIONAL None None.

Definition Item : Descriptor :=
  MkDescriptor "Item" "sample.Item" [ id_field; n_field ].

(** [message Outer { optional Inner inner = 1; }] *)
Definition Outer : Descriptor :=
  MkDescriptor "Outer" "sample.Outer"
    [ field "inner" TYPE_MESSAGE LABEL_OPTIONAL None (Some Inner) ].

(** An [Item] with both fields set. *)
Definition full_item : Message :=
  Msg (<[ "id" := Singular (Value (JStr "a")) ]>
       {[ "n" := Singular (Value (JInt 5)) ]}).

(** An [Outer] whose [inner] is set to a message without fields. *)
Definition hollow_outer : Message :=
  Msg {[ "inner" := Singular (Sub empty) ]}.

(** The mapping [{"n": 5}], which lacks the required [id], and the [Item]
    with only [n] set. *)
Definition without_id : gmap string json := {[ "n" := JInt 5 ]}.

Definition only_n : Message := Msg {[ "n" := Singular (Value (JInt 5)) ]}.

(** The mapping [{"n": "abc"}]: no [id], and an [n] that is no number. *)
Definition bad_n : gmap string json := {[ "n" := JStr "abc" ]}.

(** The mapping [{"id": "a"}]. *)
Definition with_id : gmap string json := {[ "id" := JStr "a" ]}.

(** What [pb2json] makes of [hollow_outer]: [{"inner": {}}]. *)
Definition hollow_json : gmap string json := {[ "inner" := JDict ∅ ]}.

(** [message Wrap { optional Item item = 1; optional int32 z = 2; }] *)
Definition item_field : FieldDescriptor :=
  field "item" TYPE_MESSAGE LABEL_OPTIONAL None (Some Item).

Definition z_field : FieldDescriptor :=
  field "z" TYPE_INT32 LABEL_OPTIONAL None None.

Definition Wrap : Descriptor :=
  MkDescriptor "Wrap" "sample.Wrap" [ item_field; z_field ].

(** The mapping [{"item": {"n": 5}, "z": 7}], whose item lacks the required
    [id], and the [Wrap] with only [n] of its item set. *)
Definition wrap_json : gmap string json :=
  <[ "item" := JDict without_id ]> {[ "z" := JInt 7 ]}.

Definition item_only : Message := Msg {[ "item" := Singular (Sub only_n) ]}.

End sample.

(** ** Notions the further statements about generate_ssr.py use *)

Module generate_ssr_shape.
Import Py generate_ssr.

(** The mapping [v] refers to, if it refers to one. *)
Definition entry_at (h : heap) (v : value) : option (gmap string value) :=
  match v with
  | VRef l =>
      match h !! l with
      | Some (ODict m) => Some m
      | _ => None
      end
  | _ => None
  end.

(** An entry the removal looks for: a mapping whose 'type' is
    FLASHLESS_ATTRIBUTE. *)
Definition is_flashless (h : heap) (v : value) : bool :=
  match entry_at h v with
  | Some m => bool_decide (m !! "type" = Some (VStr FLASHLESS_ATTRIBUTE))
  | None => false
  end.

Definition not_flashless (h : heap) (v : value) : Prop :=
  is_flashless h v = false.

(** No item that satisfies [p] is followed at once by another. *)
Fixpoint adjacent_free (p : value → bool) (xs : list value) : bool :=
  match xs with
  | [] => true
  | x :: xs' =>
      match xs' with
      | y :: _ => negb (p x && p y)
      | [] => true
      end && adjacent_free p xs'
  end.

(** JSON data of depth at most [n]: a scalar, or a list or a mapping of
    data of depth at most [n - 1]. *)
Fixpoint within (n : nat) (h : heap) (v : value) : Prop :=
  match v with
  | VRef l =>
      match n with
      | O => False
      | S n' =>
          match h !! l with
          | Some (OList xs) => Forall (within n' h) xs
          | Some (ODict m) => map_Forall (λ _, within n' h) m
          | None => False
          end
      end
  | _ => True
  end.

(** The body of the loop of [_RemoveFlashlessAttributeCorrection]. *)
Definition removal_body (limit : nat) (item : value) (snippet_correction : value)
  : M (option unit) :=
  type ← dict_get snippet_correction "type";
  is_flashless ←
    lift (λ h, py_eq limit h (default VNone type) (VStr FLASHLESS_ATTRIBUTE));
  if is_flashless : bool
  then lst ← dict_getitem item "snippet_correction";
       list_remove limit lst snippet_correction;;
       continue
  else continue.

(** Is [v] a mapping with the string [s] under [field]? *)
Definition has_field (h : heap) (field s : string) (v : value) : bool :=
  match entry_at h v with
  | Some m => bool_decide (m !! field = Some (VStr s))
  | None => false
  end.

(** The store while the loop over the list at [ll] runs: only that list
    has changed. *)
Definition during (h : heap) (ll : loc) (cur : list value) : heap :=
  <[ll := OList cur]> h.

(** What renaming keys can do to a store: no object comes or goes, a list
    stays as it is, and a mapping stays a mapping all of whose values it
    had before. *)
Definition renamed (h h' : heap) : Prop :=
  ∀ l : loc,
    match h !! l with
    | None => h' !! l = None
    | Some (OList xs) => h' !! l = Some (OList xs)
    | Some (ODict m) =>
        ∃ m', h' !! l = Some (ODict m') ∧
              ∀ k' v, m' !! k' = Some v → ∃ k, m !! k = Some v
    end.

(** The strings [x] ends with. *)
Fixpoint tails (x : string) : list string :=
  x :: match x with
       | EmptyString => []
       | String _ x' => tails x'
       end.

(** The key [k] is out of the reach of a table: no entry renames to [k],
    and no path of the table ends with [k]. *)
Definition out_of_reach (translation : gmap string string) (k : string) : Prop :=
  ∀ x nk, translation !! x = Some nk → nk ≠ k ∧ k ∉ tails x.

(** Every mapping of the store has under [k] what it had, and the lists
    are as they were. *)
Definition key_kept (k : string) (h h' : heap) : Prop :=
  ∀ l : loc,
    match h !! l with
    | None => h' !! l = None
    | Some (OList xs) => h' !! l = Some (OList xs)
    | Some (ODict m) => ∃ m', h' !! l = Some (ODict m') ∧ m' !! k = m !! k
    end.

(** Every mapping of the store is as it was. *)
Definition dicts_kept (h h' : heap) : Prop :=
  ∀ (l : loc) m, h !! l = Some (ODict m) → h' !! l = Some (ODict m).

End generate_ssr_shape.

(** ** generate_ssr.py: the report as CSV *)

Module generate_ssr_csv.
Import Builtins protobuf protobuf_json.

Section generate_ssr_csv.
Context `{PyFloat}.

(** [text_format.PrintFieldValue(field, value, buf, as_one_line=True)], as
    the text it writes to [buf]: the text format belongs to the protobuf
    runtime. *)
Variable PrintFieldValue : FieldDescriptor → Element → string.

(** [snippet_status_report_pb2.SnippetStatusItem.DESCRIPTOR]: the module is
    generated from a schema that is not in the repository. *)
Variable SnippetStatusItem : Descriptor.

(** [[field for field in fields
      if not field.name.startswith('DEPRECATED_')]] *)
Definition active_fields : list FieldDescriptor :=
  filter (λ field, String.prefix "DEPRECATED_" (name field) = false)
         (fields SnippetStatusItem).

Definition header_row : list string := name <$> active_fields.

Definition FieldSingletonAsString (field : FieldDescriptor) (value : Element)
  : string :=
  PrintFieldValue field value.

(** A repeated field reads as the list of its elements and a singular
    field as one element; a value of the other form is a TypeError, as in
    [pb2json]. *)
Definition FieldAsString (field : FieldDescriptor) (value : FieldValue)
  : outcome string :=
  if bool_decide (label field = LABEL_REPEATED) then
    match value with
    | Repeated items =>
        Returns ("[" +:+ String.concat ";"
                           (FieldSingletonAsString field <$> items) +:+ "]")
    | Singular _ => Raises TypeError
    end
  else
    match value with
    | Singular x => Returns (FieldSingletonAsString field x)
    | Repeated _ => Raises TypeError
    end.

(** [list(SnippetStatusColumns(snippet_status))] *)
Definition SnippetStatusColumns (snippet_status : Message)
  : outcome (list string) :=
  mapM (λ field, FieldAsString field (getattr snippet_status field))
       active_fields.

(** The rows after the header: a row is written when its columns are
    computed, so the rows before an exception stay written. *)
Fixpoint write_rows (statuses : list Element)
  : list (list string) * outcome unit :=
  match statuses with
  | [] => ([], Returns tt)
  | x :: statuses' =>
      match x with
      | Sub snippet_status =>
          match SnippetStatusColumns snippet_status with
          | Returns columns =>
              let '(rows, r) := write_rows statuses' in (columns :: rows, r)
          | Raises e => ([], Raises e)
          end
      | Value _ => ([], Raises AttributeError)
      end
  end.

(** The rows [writer.writerow] is called with, in order, and how the
    function ends.  [report_csv] is the truth value of the stream. *)
Definition WriteSnippetStatusReportInCSV (report : Message) (report_csv : bool)
  : list (list string) * outcome unit :=
  if negb report_csv then ([], Returns tt)
  else
    let '(rows, r) := write_rows (get_repeated report "snippet_status") in
    (header_row :: rows, r).

End generate_ssr_csv.
End generate_ssr_csv.

(** ** Further stores for the examples *)

Module sample_stores.
Import Py generate_ssr.

(** An item whose corrections are a flashless one, another one and a
    flashless one. *)
Definition spaced_sentinels : heap :=
  [ ODict {[ "snippet_correction" := VRef 1 ]};
    OList [VRef 2; VRef 3; VRef 4];
    ODict {[ "type" := VStr FLASHLESS_ATTRIBUTE ]};
    ODict {[ "type" := VStr "VENDOR_IDS" ]};
    ODict {[ "type" := VStr FLASHLESS_ATTRIBUTE ]} ].

(** The mapping of an item with the three sequences. *)
Definition ssl_flashless_dict : gmap string value :=
  <[ "attribute" := VRef 1 ]>
  (<[ "disapproval_reason" := VRef 2 ]>
   {[ "snippet_correction" := VRef 4 ]}).

(** An item that declares the SSL capability, with one disapproval and
    two corrections, the first of them flashless. *)
Definition ssl_flashless_item : heap :=
  [ ODict ssl_flashless_dict;
    OList [VInt RICH_MEDIA_CAPABILITY_SSL];
    OList [VRef 3];
    ODict {[ "reason" := VStr "PROBLEM_WITH_CLICK_MACRO" ]};
    OList [VRef 5; VRef 6];
    ODict {[ "type" := VStr FLASHLESS_ATTRIBUTE ]};
    ODict {[ "type" := VStr "VENDOR_IDS" ]} ].

(** [{'old': 'foo'}] *)
Definition old_foo : heap := [ ODict {[ "old" := VStr "foo" ]} ].

(** The store after the rename pass, the copy and the removal on
    [flashless_item]: object 3 is the copy. *)
Definition flashless_copied : heap :=
  [ ODict {[ "snippet_correction" := VRef 1 ]};
    OList [];
    ODict {[ "type" := VStr FLASHLESS_ATTRIBUTE ]};
    ODict {[ "snippet_correction" := VRef 1 ]} ].

End sample_stores.

(** ** A report for the examples *)

Module sample_report.
Import Builtins protobuf protobuf_json.

(** [message Row { optional string id = 1; optional int32 DEPRECATED_n = 2;
                   repeated int32 xs = 3; }] *)
Definition Row : Descriptor :=
  MkDescriptor "Row" "sample.Row"
    [ sample.field "id" TYPE_STRING LABEL_OPTIONAL None None;
      sample.field "DEPRECATED_n" TYPE_INT32 LABEL_OPTIONAL None None;
      sample.field "xs" TYPE_INT32 LABEL_REPEATED None None ].

(** Numbers in decimal and strings as they are: enough of the text format
    for the examples. *)
Definition print_value (field : FieldDescriptor) (value : Element) : string :=
  match value with
  | Value (JInt n) => pretty n
  | Value (JStr s) => s
  | _ => "?"
  end.

(** A report of two rows: the first has [id], [DEPRECATED_n] and two [xs],
    the second only [id]. *)
Definition two_rows : Message :=
  Msg {[ "snippet_status" :=
           Repeated
             [ Sub (Msg (<[ "id" := Singular (Value (JStr "a")) ]>
                         (<[ "DEPRECATED_n" := Singular (Value (JInt 7)) ]>
                          {[ "xs" := Repeated [Value (JInt 1); Value (JInt 2)] ]})));
               Sub (Msg {[ "id" := Singular (Value (JStr "b")) ]}) ] ]}.

End sample_report.

(** ** Further schemas and inputs for the examples *)

Module sample_inputs.
Import Builtins protobuf protobuf_json.

(** [message Note { optional string text = 1; optional bool flag = 2; }] *)
Definition text_field : FieldDescriptor :=
  sample.field "text" TYPE_STRING LABEL_OPTIONAL None None.

Definition flag_field : FieldDescriptor :=
  sample.field "flag" TYPE_BOOL LABEL_OPTIONAL None None.

Definition Note : Descriptor :=
  MkDescriptor "Note" "sample.Note" [ text_field; flag_field ].

(** What [pb2json] with [all_fields] makes of a new [Note]:
    [{"text": None, "flag": None}]. *)
Definition blank_note_json : gmap string json :=
  <[ "text" := JNone ]> {[ "flag" := JNone ]}.

(** The [Note] that [json2pb] makes of it: [text] is ['None'] and [flag]
    is [False]. *)
Definition none_note : Message :=
  Msg (<[ "text" := Singular (Value (JStr "None")) ]>
       {[ "flag" := Singular (Value (JBool false)) ]}).

(** [{"flag": "false"}] and the [Note] decoded from it. *)
Definition false_flag_json : gmap string json := {[ "flag" := JStr "false" ]}.

Definition true_flag_note : Message :=
  Msg {[ "flag" := Singular (Value (JBool true)) ]}.

(** An [Inner] with one element, [{"xs": [2, 3]}], and the [Inner] with the
    three elements. *)
Definition xs_field : FieldDescriptor :=
  sample.field "xs" TYPE_INT32 LABEL_REPEATED None None.

Definition one_x : Message := Msg {[ "xs" := Repeated [Value (JInt 1)] ]}.

Definition more_xs_json : gmap string json :=
  {[ "xs" := JList [JInt 2; JInt 3] ]}.

Definition three_xs : Message :=
  Msg {[ "xs" := Repeated [Value (JInt 1); Value (JInt 2); Value (JInt 3)] ]}.

(** The field of [Outer]. *)
Definition inner_field : FieldDescriptor :=
  sample.field "inner" TYPE_MESSAGE LABEL_OPTIONAL None (Some sample.Inner).

(** An [Item] with only [id] set, and what [pb2json] with [all_fields]
    makes of it: [{"id": "a", "n": None}]. *)
Definition id_only : Message := Msg {[ "id" := Singular (Value (JStr "a")) ]}.

Definition id_only_json : gmap string json :=
  <[ "id" := JStr "a" ]> {[ "n" := JNone ]}.

(** [{"id": "a", "n": 5}], which is [full_item] encoded. *)
Definition full_item_json : gmap string json :=
  <[ "id" := JStr "a" ]> {[ "n" := JInt 5 ]}.

End sample_inputs.

(** * Facts *)

(** ** Runs in the store *)

Module PyFacts.
Import Py generate_ssr_spec.

Lemma bind_run {A B} (m : M A) (k : A → M B) h :
  (m ≫= k) h = match m h with
               | (Ok a, h') => k a h'
               | (Raise e, h') => (Raise e, h')
               end.
Proof. reflexivity. Qed.

Lemma bind_ok {A B} (m : M A) (k : A → M B) h a h1 :
  m h = (Ok a, h1) → (m ≫= k) h = k a h1.
Proof. intros Hm. by rewrite bind_run, Hm. Qed.

Lemma bind_raise {A B} (m : M A) (k : A → M B) h e h1 :
  m h = (Raise e, h1) → (m ≫= k) h = (Raise e, h1).
Proof. intros Hm. by rewrite bind_run, Hm. Qed.

Lemma bind_inv {A B} (m : M A) (k : A → M B) h r h2 :
  (m ≫= k) h = (r, h2) →
  (∃ a h1, m h = (Ok a, h1) ∧ k a h1 = (r, h2)) ∨
  (∃ e, m h = (Raise e, h2) ∧ r = Raise e).
Proof.
  rewrite bind_run. destruct (m h) as [[a|e] h1]; intros Hk.
  - left. eauto.
  - right. exists e. by inversion Hk.
Qed.

Lemma bind_inv_ok {A B} (m : M A) (k : A → M B) h b h2 :
  (m ≫= k) h = (Ok b, h2) →
  ∃ a h1, m h = (Ok a, h1) ∧ k a h1 = (Ok b, h2).
Proof.
  intros [(a & h1 & ? & ?)|(e & _ & ?)]%bind_inv; [eauto | done].
Qed.

(** One step of a run: the monad's operations unfolded, and the matches
    they leave on known results reduced. *)
Ltac mstep :=
  unfold mbind, M_bind, bind, mret, M_ret, ret, raise, lift, store,
    continue, return_;
  cbv beta iota zeta.

(** *** Computations that keep a relation between the stores *)

Section preserves.
Context (Rel : heap → heap → Prop) `{!PreOrder Rel}.

#[local] Abbreviation preserves := (preserves Rel).

Lemma preserves_ret {A} (a : A) : preserves (mret a).
Proof. intros h r h' [= _ <-]. reflexivity. Qed.

Lemma preserves_raise {A} e : preserves (raise (A := A) e).
Proof. intros h r h' [= _ <-]. reflexivity. Qed.

Lemma preserves_lift {A} (f : heap → result A) : preserves (lift f).
Proof. intros h r h' [= _ <-]. reflexivity. Qed.

Lemma preserves_load v : preserves (load v).
Proof.
  intros h r h'. unfold load. destruct v; try (intros [= _ <-]; reflexivity).
  destruct (h !! l); intros [= _ <-]; reflexivity.
Qed.

Lemma preserves_bind {A B} (m : M A) (k : A → M B) :
  preserves m → (∀ a, preserves (k a)) → preserves (m ≫= k).
Proof.
  intros Hm Hk h r h' [(a & h1 & H1 & H2)|(e & H1 & _)]%bind_inv.
  - etrans; [by eapply Hm | by eapply Hk].
  - by eapply Hm.
Qed.

Lemma preserves_for_seq {A R} (xs : list A) (body : A → M (option R)) :
  (∀ x, x ∈ xs → preserves (body x)) → preserves (for_seq xs body).
Proof.
  induction xs as [|x xs IH]; intros Hbody; simpl.
  - apply preserves_ret.
  - apply preserves_bind; [apply Hbody; left|].
    intros [r|]; [apply preserves_ret|].
    apply IH. intros y Hy. apply Hbody. by right.
Qed.

Lemma preserves_for_list {R} budget l i (body : value → M (option R)) :
  (∀ x, preserves (body x)) → preserves (for_list budget l i body).
Proof.
  intros Hbody. revert i. induction budget as [|b IH]; intros i h r h'; simpl.
  - destruct (h !! l) as [[items|]|]; try (intros [= _ <-]; reflexivity).
    destruct (items !! i); intros [= _ <-]; reflexivity.
  - destruct (h !! l) as [[items|]|]; try (intros [= _ <-]; reflexivity).
    destruct (items !! i); [|intros [= _ <-]; reflexivity].
    apply preserves_bind; [apply Hbody|].
    intros [x|]; [apply preserves_ret|apply IH].
Qed.

Lemma preserves_py_for {R} v (body : value → M (option R)) :
  (∀ x, preserves (body x)) → preserves (py_for v body).
Proof.
  intros Hbody. unfold py_for. apply preserves_bind; [apply preserves_load|].
  intros [[l [items|m]]|].
  - by apply preserves_for_list.
  - by apply preserves_for_seq.
  - destruct v; try apply preserves_raise. by apply preserves_for_seq.
Qed.
End preserves.

Lemma for_seq_pure {A R} (xs : list A) (body : A → M (option R)) g h :
  (∀ x, x ∈ xs → body x h = (g x, h)) →
  for_seq xs body h = (seq_result g xs, h).
Proof.
  induction xs as [|x xs IH]; intros Hbody; simpl; [done|].
  rewrite bind_run, Hbody by left.
  destruct (g x) as [[r|]|e]; try done.
  apply IH. intros y Hy. apply Hbody. by right.
Qed.

Lemma for_list_pure {R} budget l i (body : value → M (option R)) g h items :
  h !! l = Some (OList items) →
  (∀ x, x ∈ items → body x h = (g x, h)) →
  (length items ≤ i + budget)%nat →
  for_list budget l i body h = (seq_result g (drop i items), h).
Proof.
  intros Hl Hbody. revert i.
  induction budget as [|b IH]; intros i Hlen; simpl; rewrite Hl.
  - rewrite lookup_ge_None_2, drop_ge by lia. done.
  - destruct (items !! i) as [x|] eqn:Hi.
    + rewrite (drop_S _ _ _ Hi). simpl.
      rewrite bind_run, Hbody by (by eapply list_elem_of_lookup_2).
      destruct (g x) as [[r|]|e]; try done.
      apply IH. lia.
    + apply lookup_ge_None_1 in Hi. by rewrite drop_ge.
Qed.

Lemma load_ref h l o : h !! l = Some o → load (VRef l) h = (Ok (Some (l, o)), h).
Proof. intros Hl. unfold load. by rewrite Hl. Qed.

Lemma dict_get_dict h l m key :
  h !! l = Some (ODict m) → dict_get (VRef l) key h = (Ok (m !! key), h).
Proof. intros Hl. unfold dict_get. by rewrite (bind_ok _ _ _ _ _ (load_ref _ _ _ Hl)). Qed.

Lemma dict_getitem_dict h l m key v :
  h !! l = Some (ODict m) → m !! key = Some v →
  dict_getitem (VRef l) key h = (Ok v, h).
Proof.
  intros Hl Hk. unfold dict_getitem.
  rewrite (bind_ok _ _ _ _ _ (load_ref _ _ _ Hl)). by rewrite Hk.
Qed.

Lemma py_eq_str limit h v s :
  py_eq limit h v (VStr s) = Ok (bool_decide (v = VStr s)).
Proof.
  destruct v; destruct limit; simpl; f_equal;
    repeat case_bool_decide; congruence.
Qed.

Lemma py_eq_int limit h z y :
  z ≠ 0 → z ≠ 1 →
  py_eq limit h (VInt z) y = Ok (bool_decide (y = VInt z)).
Proof.
  intros H0 H1. destruct y as [|b| | |]; destruct limit; simpl; f_equal;
    repeat case_bool_decide; try congruence; destruct b; simpl in *; congruence.
Qed.

Lemma any_eq_pure (eq : value → result bool) (f : value → bool) items :
  (∀ y, eq y = Ok (f y)) →
  any_eq eq items = Ok (bool_decide (Exists (λ y, f y = true) items)).
Proof.
  intros Heq. induction items as [|y ys IH]; simpl.
  - f_equal.
  - rewrite Heq. destruct (f y) eqn:Hy.
    + f_equal. symmetry. apply bool_decide_eq_true. by left.
    + rewrite IH. f_equal. apply bool_decide_ext. rewrite Exists_cons.
      split; [tauto|]. intros [?|?]; [congruence|done].
Qed.

End PyFacts.

(** ** generate_ssr.py *)

Module generate_ssr_facts.
Import Py generate_ssr generate_ssr_spec PyFacts.

(** *** _IsSSLCapable *)
Lemma seq_result_entries h field s items entries :
  Forall2 (dict_at h) items entries →
  seq_result (entry_hit h field s) items =
  Ok (if bool_decide (Exists (λ e : gmap string value,
                                e !! field = Some (VStr s)) entries)
      then Some false else None).
Proof.
  induction 1 as [|x e xs es (le & -> & Hle) _ IH]; [done|].
  cbn [seq_result entry_hit]. rewrite Hle.
  destruct (decide (e !! field = Some (VStr s))) as [He|He].
  - rewrite !bool_decide_eq_true_2; [done| by left | done].
  - rewrite (bool_decide_eq_false_2 _ He), IH. f_equal.
    repeat case_bool_decide; try done.
    + exfalso. rewrite Exists_cons in *. tauto.
    + exfalso. rewrite Exists_cons in *. tauto.
Qed.

Lemma scan_entries limit h d key field s items entries :
  seq_at h d key items →
  Forall2 (dict_at h) items entries →
  match d !! key with
  | None => continue
  | Some seq =>
      py_for seq (λ entry,
        x ← dict_get entry field;
        hit ← lift (λ h, py_eq limit h (default VNone x) (VStr s));
        if hit : bool then return_ false else continue)
  end h
  = (Ok (if bool_decide (Exists (λ e : gmap string value, e !! field = Some (VStr s)) entries)
         then Some false else None), h).
Proof.
  unfold seq_at. intros Hseq Hent.
  destruct (d !! key) as [v|].
  - destruct Hseq as (l & -> & Hl). unfold py_for.
    rewrite (bind_ok _ _ _ _ _ (load_ref _ _ _ Hl)).
    rewrite (for_list_pure _ _ _ _ (entry_hit h field s) h items Hl); [| |lia].
    + by rewrite drop_0, (seq_result_entries _ _ _ _ _ Hent).
    + intros x Hx.
      destruct (proj1 (list_elem_of_lookup _ _) Hx) as [i Hi].
      destruct (Forall2_lookup_l _ _ _ _ _ Hent Hi) as (e & _ & le & -> & Hle).
      rewrite (bind_ok _ _ _ _ _ (dict_get_dict _ _ _ _ Hle)).
      unfold entry_hit. rewrite Hle. unfold lift. rewrite bind_run, py_eq_str.
      destruct (e !! field) as [x|] eqn:Hx'; simpl.
      * repeat case_bool_decide; try done; congruence.
      * done.
  - subst items. inversion Hent. subst. done.
Qed.

Lemma scan_attribute limit h d items :
  seq_at h d "attribute" items →
  match d !! "attribute" with
  | None => mret false
  | Some attribute => py_in limit (VInt RICH_MEDIA_CAPABILITY_SSL) attribute
  end h
  = (Ok (bool_decide (VInt RICH_MEDIA_CAPABILITY_SSL ∈ items)), h).
Proof.
  unfold seq_at. intros Hseq. destruct (d !! "attribute") as [v|].
  - destruct Hseq as (l & -> & Hl). unfold py_in.
    rewrite (bind_ok _ _ _ _ _ (load_ref _ _ _ Hl)). unfold lift. f_equal.
    rewrite (any_eq_pure _ (λ y, bool_decide (y = VInt RICH_MEDIA_CAPABILITY_SSL))).
    2:{ intros y. by apply py_eq_int. }
    + f_equal. apply bool_decide_ext. rewrite list.Exists_exists. split.
      * intros (x & Hx & ->%bool_decide_eq_true). done.
      * intros ?. eexists. split; [done|]. by apply bool_decide_eq_true.
  - subst. rewrite bool_decide_eq_false_2; [done|]. by intros ?%elem_of_nil.
Qed.

(** C3: on an item whose sequences under 'attribute', 'disapproval_reason'
    and 'snippet_correction' are lists (a key the item lacks counts as the
    empty sequence) and whose reasons and corrections are mappings,
    [_IsSSLCapable] returns, leaves the store as it was, and returns [True]
    exactly when (a) the code 47 is among the attributes, (b) no
    disapproval reason has 'reason' equal to INVALID_SSL_DECLARATION and
    (c) no correction has 'type' equal to SSL_ATTRIBUTE. *)
Theorem IsSSLCapable_iff limit h item d attribute disapproval_reason
    snippet_correction reasons corrections :
  h !! item = Some (ODict d) →
  seq_at h d "attribute" attribute →
  seq_at h d "disapproval_reason" disapproval_reason →
  Forall2 (dict_at h) disapproval_reason reasons →
  seq_at h d "snippet_correction" snippet_correction →
  Forall2 (dict_at h) snippet_correction corrections →
  ∃ b, run (_IsSSLCapable limit (VRef item)) h = (Ok b, h) ∧
       (b = true ↔
          VInt RICH_MEDIA_CAPABILITY_SSL ∈ attribute ∧
          (∀ e, e ∈ reasons → e !! "reason" ≠ Some (VStr INVALID_SSL_DECLARATION)) ∧
          (∀ e, e ∈ corrections → e !! "type" ≠ Some (VStr SSL_ATTRIBUTE))).
Proof.
  intros Hitem Hattr Hdr Hreasons Hsc Hcorr.
  unfold run, _IsSSLCapable.
  rewrite (bind_ok _ _ _ _ _ (dict_get_dict _ _ _ _ Hitem)).
  rewrite (bind_ok _ _ _ _ _ (scan_attribute limit _ _ _ Hattr)).
  case_bool_decide as Ha; simpl.
  2:{ exists false. split; [done|]. split; [done|]. tauto. }
  rewrite (bind_ok _ _ _ _ _ (dict_get_dict _ _ _ _ Hitem)).
  rewrite (bind_ok _ _ _ _ _ (scan_entries limit _ _ _ _ _ _ _ Hdr Hreasons)).
  case_bool_decide as Hr.
  { exists false. split; [done|]. split; [done|]. intros (_ & Hno & _).
    apply list.Exists_exists in Hr as (e & He & Hhit). by destruct (Hno e He). }
  rewrite (bind_ok _ _ _ _ _ (dict_get_dict _ _ _ _ Hitem)).
  rewrite (bind_ok _ _ _ _ _ (scan_entries limit _ _ _ _ _ _ _ Hsc Hcorr)).
  case_bool_decide as Hc.
  { exists false. split; [done|]. split; [done|]. intros (_ & _ & Hno).
    apply list.Exists_exists in Hc as (e & He & Hhit). by destruct (Hno e He). }
  exists true. split; [done|]. split; [|done]. intros _.
  split; [done|]. split; intros e He Hhit.
  - apply Hr, list.Exists_exists. eauto.
  - apply Hc, list.Exists_exists. eauto.
Qed.

Lemma IsSSLCapable_iff_witness :
  ∃ b, run (_IsSSLCapable 1 (VRef 0)) ssl_item = (Ok b, ssl_item) ∧
       (b = true ↔
          VInt RICH_MEDIA_CAPABILITY_SSL
            ∈ [VInt 3; VInt RICH_MEDIA_CAPABILITY_SSL] ∧
          (∀ e, e ∈ [({[ "reason" := VStr "PROBLEM_WITH_CLICK_MACRO" ]}
                       : gmap string value)] →
                e !! "reason" ≠ Some (VStr INVALID_SSL_DECLARATION)) ∧
          (∀ e, e ∈ [({[ "type" := VStr "VENDOR_IDS" ]}
                       : gmap string value)] →
                e !! "type" ≠ Some (VStr SSL_ATTRIBUTE))).
Proof.
  apply (IsSSLCapable_iff 1 ssl_item 0
           (<[ "attribute" := VRef 1 ]>
            (<[ "disapproval_reason" := VRef 2 ]>
             {[ "snippet_correction" := VRef 4 ]}))
           [VInt 3; VInt RICH_MEDIA_CAPABILITY_SSL] [VRef 3] [VRef 5]).
  - reflexivity.
  - exists 1%nat. split; reflexivity.
  - exists 2%nat. split; reflexivity.
  - constructor; [|constructor]. exists 3%nat. split; reflexivity.
  - exists 4%nat. split; reflexivity.
  - constructor; [|constructor]. exists 5%nat. split; reflexivity.
Defined.

(** *** The translation table *)

Lemma append_nil_l (s : string) : "" +:+ s = s.
Proof. reflexivity. Qed.

Lemma append_cons_l c (p s : string) : String c p +:+ s = String c (p +:+ s).
Proof. reflexivity. Qed.

Lemma strip_prefix_spec p f x : strip_prefix p x = Some f ↔ p +:+ f = x.
Proof.
  revert x. induction p as [|c p IH]; intros x; simpl.
  - rewrite append_nil_l. split; congruence.
  - rewrite append_cons_l. destruct x as [|c' x]; [split; congruence|].
    case_decide as Hc.
    + subst c'. rewrite IH. split; congruence.
    + split; congruence.
Qed.

Lemma lookup_translation x nk :
  KEY_TRANSLATION !! x = Some nk ↔ (x, nk) ∈ KEY_TRANSLATION_items.
Proof.
  unfold KEY_TRANSLATION. symmetry. apply elem_of_list_to_map.
  apply (bool_decide_unpack _). by vm_compute.
Qed.

Lemma lookup_under p f nk :
  KEY_TRANSLATION !! (p +:+ f) = Some nk ↔ (f, nk) ∈ entries_under p.
Proof.
  rewrite lookup_translation. unfold entries_under.
  rewrite list_elem_of_omap. split.
  - intros Hin. exists (p +:+ f, nk). split; [done|]. simpl.
    by rewrite (proj2 (strip_prefix_spec p f _) eq_refl).
  - intros ([x nk'] & Hin & Hs). simpl in Hs.
    destruct (strip_prefix p x) as [f'|] eqn:Hf; [|done].
    simpl in Hs. injection Hs as -> ->.
    apply strip_prefix_spec in Hf. by subst x.
Qed.

(** The run of [_ReplaceKey] on a dict. *)
Lemma ReplaceKey_run h l m old new :
  h !! l = Some (ODict m) →
  _ReplaceKey (VRef l) old new h =
  (Ok tt, match m !! old with
          | Some v => <[l := ODict (<[new := v]> (delete old m))]> h
          | None => h
          end).
Proof.
  intros Hl. unfold _ReplaceKey, dict_contains.
  rewrite bind_run, (bind_ok _ _ _ _ _ (load_ref _ _ _ Hl)).
  destruct (m !! old) as [v|] eqn:Hold.
  - mstep. rewrite bool_decide_eq_true_2 by eauto.
    unfold dict_pop, dict_setitem, load. mstep. rewrite Hl, Hold. mstep.
    rewrite list_lookup_insert_eq by (by eapply lookup_lt_Some).
    by rewrite list_insert_insert_eq.
  - mstep. rewrite bool_decide_eq_false_2; [done|]. by intros [? ?].
Qed.

Lemma seq_result_continue {A R} (xs : list A) :
  seq_result (R := R) (λ _, Ok None) xs = Ok None.
Proof. induction xs; simpl; auto. Qed.

(** Under a prefix with no entries the traversal is [scan]. *)
Lemma ReplaceJSONFields_dead limit json p h :
  entries_under p = [] →
  _ReplaceJSONFields limit json KEY_TRANSLATION p h = (scan limit h json, h).
Proof.
  intros Hdead. revert json. induction limit as [|limit IH]; intros json; [done|].
  cbn [_ReplaceJSONFields scan]. unfold load. mstep.
  destruct json as [| | | |l]; try done.
  destruct (h !! l) as [[items|m]|] eqn:Hl; [| |done].
  - rewrite (for_list_pure _ _ _ _ (λ x, step_result (scan limit h x)) h items Hl);
      [|intros x _; mstep; rewrite IH; by destruct (scan limit h x)|lia].
    rewrite drop_0. by destruct (seq_result _ items).
  - rewrite (for_seq_pure _ _ (λ _, Ok None)).
    + by rewrite seq_result_continue.
    + intros f _. destruct (KEY_TRANSLATION !! (p +:+ f)) as [nk|] eqn:Hnk; [|done].
      apply lookup_under in Hnk. rewrite Hdead in Hnk. by apply elem_of_nil in Hnk.
Qed.

(** *** _ReplaceJSONFields on the corrections of an item *)

Ltac eval_closed t :=
  let v := eval vm_compute in t in
  replace t with v by (vm_compute; reflexivity).

Ltac eval_lookup :=
  match goal with
  | |- context [@lookup string ?V (gmap string ?V) ?i ?k ?m] =>
      eval_closed (@lookup string V (gmap string V) i k m)
  end.

Ltac eval_keys :=
  match goal with
  | |- context [(map_to_list ?m).*1] => eval_closed ((map_to_list m).*1)
  end.

Ltac heap_insert :=
  repeat match goal with
  | |- context [@insert nat obj (list obj) ?c ?i ?o ?h] =>
      let t := constr:(@insert nat obj (list obj) c i o h) in
      let t' := eval cbn [insert list_insert] in t in
      progress change t with t'
  end.

Ltac heap_lookup :=
  repeat match goal with
  | |- context [@lookup nat ?A (list ?A) ?c ?i ?h] =>
      let t := constr:(@lookup nat A (list A) c i h) in
      let t' := eval cbn [lookup list_lookup] in t in
      progress change t with t'
  end.

Ltac run_step :=
  repeat (progress (rewrite ?bind_run; heap_insert; heap_lookup;
                    cbv beta iota zeta)).

Lemma scan_strings limit h l (ss : list string) :
  h !! l = Some (OList (VStr <$> ss)) →
  scan (S (S limit)) h (VRef l) = Ok tt.
Proof.
  intros Hl.
  change (scan (S (S limit)) h (VRef l))
    with (match h !! l with
          | None => Raise SystemError
          | Some (OList items) =>
              loop_result
                (seq_result (λ x, step_result (scan (S limit) h x)) items)
          | Some (ODict _) => Ok tt
          end).
  rewrite Hl.
  assert (seq_result (λ x, step_result (scan (S limit) h x)) (VStr <$> ss)
          = Ok None) as ->; [|done].
  clear Hl. induction ss as [|s ss IH]; [done|]. cbn. apply IH.
Qed.

Lemma ReplaceJSONFields_dict limit l m p h :
  h !! l = Some (ODict m) →
  _ReplaceJSONFields (S limit) (VRef l) KEY_TRANSLATION p h =
  (for_seq (R := unit) (map_to_list m).*1 (λ field_name,
     match KEY_TRANSLATION !! (p +:+ field_name) with
     | Some new_key =>
         _ReplaceKey (VRef l) field_name new_key;;
         child ← dict_getitem (VRef l) new_key;
         _ReplaceJSONFields limit child KEY_TRANSLATION ((p +:+ field_name) +:+ ".");;
         continue
     | None => continue
     end);; mret tt) h.
Proof.
  intros Hl. cbn [_ReplaceJSONFields].
  by rewrite (bind_ok _ _ _ _ _ (load_ref _ _ _ Hl)).
Qed.

Lemma ReplaceJSONFields_list limit l items p h :
  h !! l = Some (OList items) →
  _ReplaceJSONFields (S limit) (VRef l) KEY_TRANSLATION p h =
  (for_list (R := unit) (length items) l 0 (λ item,
     _ReplaceJSONFields limit item KEY_TRANSLATION p;; continue);; mret tt) h.
Proof.
  intros Hl. cbn [_ReplaceJSONFields].
  by rewrite (bind_ok _ _ _ _ _ (load_ref _ _ _ Hl)).
Qed.

Lemma ReplaceJSONFields_scalar limit v p h :
  (∀ l, v ≠ VRef l) →
  _ReplaceJSONFields (S limit) v KEY_TRANSLATION p h = (Ok tt, h).
Proof. intros Hv. destruct v; try done. by destruct (Hv l). Qed.

Lemma ReplaceJSONFields_corrections_run n details :
  run (_ReplaceJSONFields (5 + n) (VRef 0) KEY_TRANSLATION "")
      (corrections_input details)
  = (Ok tt, corrections_output details).
Proof.
  unfold run, corrections_input. cbn [Nat.add].
  (* the item: "corrections" becomes "snippet_correction" *)
  erewrite ReplaceJSONFields_dict by reflexivity.
  eval_keys.
  cbn [for_seq]. rewrite append_nil_l.
  eval_lookup.
  rewrite !bind_run. erewrite ReplaceKey_run by reflexivity.
  eval_lookup. run_step.
  erewrite dict_getitem_dict; [|reflexivity|vm_compute; reflexivity].
  (* the list of corrections: element-wise, same prefix *)
  run_step. erewrite ReplaceJSONFields_list by reflexivity.
  cbn [length for_list]. run_step.
  (* the entry: "reason" and "details" under "corrections." *)
  erewrite ReplaceJSONFields_dict by reflexivity.
  eval_keys. cbn [for_seq]. run_step.
  repeat eval_lookup. run_step.
  erewrite ReplaceKey_run by reflexivity. eval_lookup. run_step.
  erewrite dict_getitem_dict; [|reflexivity|vm_compute; reflexivity]. run_step.
  rewrite ReplaceJSONFields_scalar by done. run_step.
  unfold continue at 1. unfold mret, M_ret, ret. run_step.
  erewrite ReplaceKey_run by reflexivity. eval_lookup. run_step.
  erewrite dict_getitem_dict; [|reflexivity|vm_compute; reflexivity]. run_step.
  (* the details: no entry of the table lies under "corrections.details." *)
  rewrite ReplaceJSONFields_dead by (vm_compute; reflexivity).
  erewrite scan_strings by reflexivity. run_step.
  unfold continue, return_, mret, M_ret, ret. run_step.
  unfold corrections_output.
  assert (Hitem : <["snippet_correction" := VRef 1]>
                    (delete "corrections" ({["corrections" := VRef 1]} : gmap string value))
                  = {["snippet_correction" := VRef 1]})
    by (vm_compute; reflexivity).
  assert (Hentry : <["detail" := VRef 3]>
                     (delete "details"
                        (<["type" := VStr "VENDOR_IDS"]>
                           (delete "reason"
                              (<["reason" := VStr "VENDOR_IDS"]>
                                 ({["details" := VRef 3]} : gmap string value)))))
                   = <["type" := VStr "VENDOR_IDS"]> {["detail" := VRef 3]})
    by (vm_compute; reflexivity).
  by rewrite Hitem, Hentry.
Qed.

(** C4: [_ReplaceJSONFields] with [KEY_TRANSLATION] and the empty prefix
    turns [{"corrections": [{"reason": "VENDOR_IDS", "details": [...]}]}]
    into [{"snippet_correction": [{"type": "VENDOR_IDS", "detail": [...]}]}]:
    the list is passed through with the prefix of its parent, and the keys
    of the entry are looked up under 'corrections.', the path of the
    original key, which alone has them in the table; neither the bare keys
    nor the keys under the new name 'snippet_correction.' are entries. *)
Theorem ReplaceJSONFields_corrections n details :
  run (_ReplaceJSONFields (5 + n) (VRef 0) KEY_TRANSLATION "")
      (corrections_input details)
  = (Ok tt, corrections_output details) ∧
  KEY_TRANSLATION !! "corrections" = Some "snippet_correction" ∧
  KEY_TRANSLATION !! "corrections.reason" = Some "type" ∧
  KEY_TRANSLATION !! "corrections.details" = Some "detail" ∧
  KEY_TRANSLATION !! "reason" = None ∧
  KEY_TRANSLATION !! "details" = None ∧
  KEY_TRANSLATION !! "snippet_correction.reason" = None ∧
  KEY_TRANSLATION !! "snippet_correction.details" = None.
Proof.
  split; [apply ReplaceJSONFields_corrections_run|].
  vm_compute. done.
Qed.

(** *** The removal of the flashless correction *)

(** C2, on a list that holds the flashless correction twice in a row:
    [_RemoveFlashlessAttributeCorrection] returns, and the list of the item
    still holds the second of the two entries, whose 'type' is
    FLASHLESS_ATTRIBUTE.  The loop walks the list it removes from, so the
    entry that moves into the place of a removed one is never visited. *)
Theorem RemoveFlashless_leaves_adjacent_sentinel limit :
  run (_RemoveFlashlessAttributeCorrection limit (VRef 0)) two_sentinels
  = (Ok tt, <[1%nat := OList [VRef 3]]> two_sentinels) ∧
  items_under (<[1%nat := OList [VRef 3]]> two_sentinels) (VRef 0)
    "snippet_correction"
  = Some [VRef 3] ∧
  <[1%nat := OList [VRef 3]]> two_sentinels !! 3%nat
  = Some (ODict {[ "type" := VStr FLASHLESS_ATTRIBUTE ]}).
Proof. destruct limit; vm_compute; done. Qed.

(** C1, on the raw item [{"corrections": [{"reason":
    "FLASHLESS_ATTRIBUTE"}]}]: the copy taken after the rename pass holds
    the flashless entry in its 'snippet_correction' list, and once the
    removal has run on the original item the same copy holds an empty
    list.  The copy is shallow: both mappings refer to one list. *)
Theorem translate_item_copy_loses_entry n :
  ∃ h1 h2 copy,
    run (copy_item (4 + n) (VRef 0)) flashless_item = (Ok copy, h1) ∧
    run (translate_item (4 + n) (VRef 0)) flashless_item = (Ok copy, h2) ∧
    items_under h1 copy "snippet_correction" = Some [VRef 2] ∧
    h1 !! 2%nat = Some (ODict {[ "type" := VStr FLASHLESS_ATTRIBUTE ]}) ∧
    items_under h2 copy "snippet_correction" = Some [].
Proof. eexists _, _, _. vm_compute. done. Qed.

End generate_ssr_facts.

(** ** generate_ssr.py: the renaming on the interpreter's tables *)

Module generate_ssr_tables_facts.
Import Py dictobject PyTables generate_ssr_tables.

(** C5: the rename pass is not idempotent on the interpreter's dict.  On
    an item with the five keys advertiserId, buyerCreativeId,
    clickThroughUrl, disapprovalReasons and productCategories, decoded from
    a document in that order, the first pass returns with productCategories
    not renamed.  The first two renamings take the entries the removals
    have left; the third takes an entry never used, which fills two thirds
    of the table of eight, and the table is moved to one of thirty-two.
    There productCategories is at entry 0, and the position of the loop is
    3.  The second pass renames the key, so it changes the result of the
    first. *)
Theorem ReplaceJSONFields_second_pass_renames :
  ∃ h0 h1 h2,
    build five_keys = Some h0 ∧
    run (_ReplaceJSONFields 4 (VRef 0) generate_ssr.KEY_TRANSLATION "") h0
    = (Ok tt, h1) ∧
    run (_ReplaceJSONFields 4 (VRef 0) generate_ssr.KEY_TRANSLATION "") h1
    = (Ok tt, h2) ∧
    keys_at h0 0 = Some ["advertiserId"; "clickThroughUrl";
                         "disapprovalReasons"; "productCategories";
                         "buyerCreativeId"] ∧
    keys_at h1 0 = Some ["productCategories"; "click_through_url";
                         "advertiser_id"; "disapproval_reason";
                         "buyer_creative_id"] ∧
    keys_at h2 0 = Some ["click_through_url"; "advertiser_id";
                         "detected_product_category"; "disapproval_reason";
                         "buyer_creative_id"] ∧
    generate_ssr.KEY_TRANSLATION !! "productCategories"
    = Some "detected_product_category" ∧
    h2 ≠ h1.
Proof.
  pose (h0 := default [] (build five_keys)).
  pose (h1 := (run (_ReplaceJSONFields 4 (VRef 0)
                      generate_ssr.KEY_TRANSLATION "") h0).2).
  pose (h2 := (run (_ReplaceJSONFields 4 (VRef 0)
                      generate_ssr.KEY_TRANSLATION "") h1).2).
  exists h0, h1, h2.
  repeat (split; [vm_compute; reflexivity|]).
  intros Heq.
  assert (Hkeys : keys_at h2 0 = keys_at h1 0) by (by rewrite Heq).
  vm_compute in Hkeys. discriminate Hkeys.
Qed.

(** *** A dict without a key to rename *)

Lemma first_active_spec entries i j key :
  first_active entries i = Some (j, key) →
  (i ≤ j < i + length entries)%nat ∧
  ∃ me_hash v, entries !! (j - i)%nat = Some (Active me_hash key v).
Proof.
  revert i. induction entries as [|ep entries IH]; intros i; simpl; [done|].
  destruct ep as [| |me_hash k v].
  - intros [Hj (h' & v' & Hep)]%IH. split; [lia|].
    exists h', v'. by replace (j - i)%nat with (S (j - S i)) by lia.
  - intros [Hj (h' & v' & Hep)]%IH. split; [lia|].
    exists h', v'. by replace (j - i)%nat with (S (j - S i)) by lia.
  - intros [= <- <-]. split; [lia|]. exists me_hash, v.
    by replace (i - i)%nat with 0%nat by lia.
Qed.

Lemma next_key_spec mp di_pos i key :
  next_key mp di_pos = Some (i, key) →
  (di_pos ≤ i < length (ma_table mp))%nat ∧ key ∈ keys mp.
Proof.
  unfold next_key. intros [Hi (me_hash & v & Hep)]%first_active_spec.
  rewrite length_drop in Hi. rewrite lookup_drop in Hep.
  replace (di_pos + (i - di_pos))%nat with i in Hep by lia.
  split; [lia|]. unfold keys. apply list_elem_of_omap.
  exists (Active me_hash key v). split; [|done].
  by eapply list_elem_of_lookup_2.
Qed.

(** A loop over a dict whose body leaves the store as it is walks the
    table to its end. *)
Lemma for_dict_idle {R} budget l mp di_pos (body : string → M (option R)) h :
  h !! l = Some (ODict mp) →
  (∀ key, key ∈ keys mp → body key h = (Ok None, h)) →
  (length (ma_table mp) - di_pos ≤ budget)%nat →
  for_dict budget l (ma_used mp) di_pos body h = (Ok None, h).
Proof.
  intros Hl Hbody. revert di_pos.
  induction budget as [|budget IH]; intros di_pos Hbudget.
  - cbn [for_dict]. rewrite Hl. rewrite bool_decide_eq_false_2 by (by intros ?).
    destruct (next_key mp di_pos) as [[i key]|] eqn:Hnext; [|done].
    apply next_key_spec in Hnext as [Hi _]. lia.
  - cbn [for_dict]. rewrite Hl. rewrite bool_decide_eq_false_2 by (by intros ?).
    destruct (next_key mp di_pos) as [[i key]|] eqn:Hnext; [|done].
    apply next_key_spec in Hnext as [Hi Hkey].
    unfold mbind, M_bind, bind. rewrite (Hbody key Hkey).
    apply IH. lia.
Qed.

(** X22: a dict that has no key to rename is left as it is.  When no key
    of the dict, with the prefix before it, is in the table, the pass over
    the dict returns and the store is the one it found, whatever the state
    of the table of the dict.  On data in which every renaming has been
    done, and which has none of the keys the table renames to themselves,
    a further pass is the identity. *)
Theorem ReplaceJSONFields_nothing_to_rename limit h l mp translation prefix :
  h !! l = Some (ODict mp) →
  (∀ key, key ∈ keys mp → translation !! (prefix +:+ key) = None) →
  run (_ReplaceJSONFields (S limit) (VRef l) translation prefix) h = (Ok tt, h).
Proof.
  intros Hl Hkeys. unfold run. cbn [_ReplaceJSONFields].
  unfold mbind, M_bind, bind, load. rewrite Hl.
  rewrite (for_dict_idle _ _ mp); [done|done| |unfold dict_budget; lia].
  intros key Hkey. by rewrite (Hkeys key Hkey).
Qed.

Lemma ReplaceJSONFields_nothing_to_rename_witness :
  run (_ReplaceJSONFields 1 (VRef 0) generate_ssr.KEY_TRANSLATION "")
      [ODict renamed_keys]
  = (Ok tt, [ODict renamed_keys]).
Proof.
  apply (ReplaceJSONFields_nothing_to_rename 0 [ODict renamed_keys] 0
           renamed_keys generate_ssr.KEY_TRANSLATION "").
  - reflexivity.
  - apply (proj1 (Forall_forall _ _)).
    apply (bool_decide_unpack _). vm_compute. exact I.
Defined.

End generate_ssr_tables_facts.

(** ** protobuf_json.py *)

Module protobuf_json_facts.
Import Builtins protobuf protobuf_json protobuf_json_spec.

(** The dict [dict((key(v), v) for v in values)]. *)
Lemma index_lookup `{Countable K} {V} (key : V → K) (xs : list V) k :
  match foldl (λ m v, <[key v := v]> m) (∅ : gmap K V) xs !! k with
  | Some v => v ∈ xs ∧ key v = k
  | None => ∀ v, v ∈ xs → key v ≠ k
  end.
Proof.
  induction xs as [|x xs IH] using rev_ind.
  - simpl. rewrite lookup_empty. by intros v ?%elem_of_nil.
  - rewrite foldl_app. simpl. destruct (decide (key x = k)) as [<-|Hne].
    + rewrite lookup_insert_eq. split; [|done]. apply elem_of_app. right. by left.
    + rewrite lookup_insert_ne by done.
      destruct (foldl _ _ xs !! k) as [v|].
      * destruct IH as [Hin Hk]. split; [|done]. apply elem_of_app. by left.
      * intros v [Hv|Hv%list_elem_of_singleton]%elem_of_app; [by apply IH|].
        by subst v.
Qed.

Lemma decode_escape_char c rest :
  decode_string_escape (escape_char c ++ rest)
  = (λ out, c :: out) <$> decode_string_escape rest.
Proof.
  destruct c as [[] [] [] [] [] [] [] []]; reflexivity.
Qed.

Lemma decode_encode_string_escape cs :
  decode_string_escape (encode_string_escape cs) = Some cs.
Proof.
  induction cs as [|c cs IH]; [done|].
  unfold encode_string_escape in *.
  by rewrite bind_cons, decode_escape_char, IH.
Qed.

Ltac eval_bounds :=
  match goal with
  | H : context [int_bounds ?t] |- _ =>
      let b := eval vm_compute in (int_bounds t) in
      change (int_bounds t) with b in H
  end.

Section protobuf_json_facts.
Context `{PyFloat}.
Variable container_repr : json → string.
Variable _MessageSetJson2Pb : Message → json → bool → Message * outcome unit.
Variable _MessageSetPb2Json : Message → bool → bool → outcome json.

#[local] Abbreviation json2pb := (json2pb container_repr _MessageSetJson2Pb).
#[local] Abbreviation json2pb_fields :=
  (json2pb_fields container_repr _MessageSetJson2Pb).
#[local] Abbreviation json2pb_field :=
  (json2pb_field container_repr _MessageSetJson2Pb).
#[local] Abbreviation pb2json := (pb2json container_repr _MessageSetPb2Json).
#[local] Abbreviation pb2json_field :=
  (pb2json_field container_repr _MessageSetPb2Json).
#[local] Abbreviation roundtrips :=
  (roundtrips container_repr _MessageSetJson2Pb _MessageSetPb2Json).
#[local] Abbreviation decodable :=
  (decodable container_repr _MessageSetJson2Pb).
#[local] Abbreviation holds_converted := (holds_converted container_repr).

(** *** The decode loop *)

Lemma json2pb_unfold d pb js use :
  json2pb d pb js use = check_initialized d (json2pb_fields d pb js use).
Proof. by destruct d. Qed.

Lemma for_each_ext {A} (body1 body2 : A → Message → run) xs pb :
  (∀ x pb, x ∈ xs → body1 x pb = body2 x pb) →
  for_each body1 xs pb = for_each body2 xs pb.
Proof.
  revert pb. induction xs as [|x xs IH]; intros pb Hbody; simpl; [done|].
  rewrite Hbody by left. destruct (body2 x pb) as [pb' [[]|e]]; [|done].
  apply IH. intros y pb2 Hy. apply Hbody. by right.
Qed.

(** C9: a key of the input mapping that is the name of no field of the
    descriptor changes nothing: [json2pb] gives the same message and the
    same outcome (a return or the same exception) with the key as
    without it. *)
Theorem json2pb_ignores_unknown_key d pb js key value use :
  (∀ field, field ∈ fields d → name field ≠ key) →
  json2pb d pb (JDict (<[key := value]> js)) use = json2pb d pb (JDict js) use.
Proof.
  intros Hkey. rewrite !json2pb_unfold. f_equal. unfold json2pb_fields.
  apply for_each_ext. intros field pb' Hfield. unfold json2pb_field.
  cbn [py_contains py_getitem].
  by rewrite lookup_insert_ne by (by apply not_eq_sym, Hkey).
Qed.

Lemma for_each_app {A} (body : A → Message → run) xs ys pb :
  for_each body (xs ++ ys) pb =
  match for_each body xs pb with
  | (pb', Returns _) => for_each body ys pb'
  | r => r
  end.
Proof.
  revert pb. induction xs as [|x xs IH]; intros pb; simpl; [done|].
  destruct (body x pb) as [pb' [[]|e]]; [apply IH|done].
Qed.

Lemma for_each_rel {A} (R : Message → Message → Prop) `{!PreOrder R}
    (body : A → Message → run) xs pb pb' r :
  (∀ x pb pb' r, x ∈ xs → body x pb = (pb', r) → R pb pb') →
  for_each body xs pb = (pb', r) → R pb pb'.
Proof.
  revert pb. induction xs as [|x xs IH]; intros pb Hbody; simpl.
  - intros [= <- _]. reflexivity.
  - destruct (body x pb) as [pb1 [[]|e]] eqn:Hx.
    + intros Hrest. etrans; [eapply Hbody; [by left|done]|].
      apply IH; [|done]. intros y pb2 pb3 r' Hy. apply Hbody. by right.
    + intros [= <- _]. eapply Hbody; [by left|done].
Qed.

Lemma same_but_preorder name : PreOrder (same_but name).
Proof.
  split; [by intros pb k|].
  intros pb1 pb2 pb3 H12 H23 k Hk. by rewrite H23, H12.
Qed.

#[local] Existing Instance same_but_preorder.

Lemma same_at_preorder name : PreOrder (same_at name).
Proof.
  split; [done|]. unfold same_at. intros pb1 pb2 pb3 H12 H23. by rewrite H23.
Qed.

#[local] Existing Instance same_at_preorder.

Lemma keeps_fields_preorder : PreOrder keeps_fields.
Proof. split; [by intros pb k|]. intros pb1 pb2 pb3 H12 H23 k Hk. auto. Qed.

#[local] Existing Instance keeps_fields_preorder.

Lemma same_but_append pb name x : same_but name pb (append pb name x).
Proof. intros k Hk. unfold append. simpl. by rewrite lookup_insert_ne. Qed.

Lemma same_but_set_value pb name v : same_but name pb (set_value pb name v).
Proof. intros k Hk. unfold set_value. simpl. by rewrite lookup_insert_ne. Qed.

Lemma same_but_put_message pb name m : same_but name pb (put_message pb name m).
Proof.
  intros k Hk. unfold put_message.
  destruct (set_fields pb !! name); [|destruct (is_empty m)]; simpl;
    rewrite ?lookup_insert_ne; done.
Qed.

Lemma keeps_fields_insert pb name fv :
  keeps_fields pb (Msg (<[name := fv]> (set_fields pb))).
Proof.
  intros k Hk. simpl. destruct (decide (name = k)) as [->|Hne].
  - rewrite lookup_insert_eq. eauto.
  - by rewrite lookup_insert_ne.
Qed.

Lemma keeps_fields_put_message pb name m : keeps_fields pb (put_message pb name m).
Proof.
  unfold put_message.
  destruct (set_fields pb !! name); [|destruct (is_empty m)];
    try apply keeps_fields_insert. reflexivity.
Qed.

(** A step of the loop writes to its own field only, and unsets nothing. *)
Lemma json2pb_field_rel (R : string → Message → Message → Prop)
    `{!∀ name, PreOrder (R name)} rec owner js use field pb pb' r :
  (∀ pb name x, R name pb (append pb name x)) →
  (∀ pb name v, R name pb (set_value pb name v)) →
  (∀ pb name m, R name pb (put_message pb name m)) →
  json2pb_field rec owner js use field pb = (pb', r) →
  R (name field) pb pb'.
Proof.
  intros Happ Hset Hput. unfold json2pb_field.
  destruct (py_contains _ _) as [[]|]; try (intros [= <- _]; reflexivity).
  destruct (choose_ftype _ _ _) as [ftype|]; try (intros [= <- _]; reflexivity).
  destruct (py_getitem _ _) as [js_value|]; try (intros [= <- _]; reflexivity).
  case_bool_decide.
  - destruct (py_iter js_value) as [vs|]; try (intros [= <- _]; reflexivity).
    apply (for_each_rel (R (name field))). intros v pb1 pb2 r' _.
    destruct (_IsMessageSet field).
    { destruct (_MessageSetJson2Pb _ _ _) as [m r1]. intros [= <- _]. apply Happ. }
    destruct (is_composite _).
    { destruct (message_type field) as [sub|]; [|intros [= <- _]; reflexivity].
      destruct (rec _ _ _ _) as [m r1]. intros [= <- _]. apply Happ. }
    destruct (convert _ _ _); intros [= <- _]; [apply Happ|reflexivity].
  - destruct (_IsMessageSet field).
    { destruct (_MessageSetJson2Pb _ _ _) as [m r1]. intros [= <- _]. apply Hput. }
    destruct (is_composite _).
    { destruct (message_type field) as [sub|]; [|intros [= <- _]; reflexivity].
      destruct (rec _ _ _ _) as [m r1]. intros [= <- _]. apply Hput. }
    destruct (convert _ _ _); intros [= <- _]; [apply Hset|reflexivity].
Qed.

Lemma json2pb_field_same_but rec owner js use field pb pb' r :
  json2pb_field rec owner js use field pb = (pb', r) →
  same_but (name field) pb pb'.
Proof.
  apply (json2pb_field_rel same_but).
  - apply same_but_append.
  - apply same_but_set_value.
  - apply same_but_put_message.
Qed.

Lemma json2pb_field_keeps_fields rec owner js use field pb pb' r :
  json2pb_field rec owner js use field pb = (pb', r) →
  keeps_fields pb pb'.
Proof.
  apply (json2pb_field_rel (λ _, keeps_fields)).
  - intros. apply keeps_fields_insert.
  - intros. apply keeps_fields_insert.
  - intros. apply keeps_fields_put_message.
Qed.

(** A field whose name is not a key of the mapping has no turn. *)
Lemma json2pb_field_absent rec owner m use field pb :
  m !! name field = None →
  json2pb_field rec owner (JDict m) use field pb = (pb, Returns tt).
Proof.
  intros Hm. unfold json2pb_field. cbn [py_contains]. rewrite Hm.
  rewrite bool_decide_eq_false_2; [done|]. by intros [? ?].
Qed.

Lemma json2pb_fields_absent d pb m use (field : FieldDescriptor) pb1 r :
  m !! name field = None →
  json2pb_fields d pb (JDict m) use = (pb1, r) →
  set_fields pb1 !! name field = set_fields pb !! name field.
Proof.
  intros Hm. unfold json2pb_fields.
  apply (for_each_rel (same_at (name field))).
  intros f pb2 pb3 r' _ Hstep. unfold same_at.
  destruct (decide (name f = name field)) as [Heq|Hne].
  - rewrite json2pb_field_absent in Hstep by (by rewrite Heq).
    by injection Hstep as <- _.
  - by apply (json2pb_field_same_but _ _ _ _ _ _ _ _ Hstep), not_eq_sym.
Qed.

Lemma FindInitializationErrors_required d pb field :
  field ∈ fields d → label field = LABEL_REQUIRED →
  set_fields pb !! name field = None →
  name field ∈ FindInitializationErrors d pb.
Proof.
  intros Hfield Hlabel Hunset. destruct d as [cn tn fs]. simpl in *.
  apply elem_of_app. left. apply list_elem_of_fmap. exists field.
  split; [done|]. apply list_elem_of_filter. split; [|done].
  split; [done|]. unfold HasField. rewrite Hunset.
  apply bool_decide_eq_false_2. by intros [? ?].
Qed.

Lemma FindInitializationErrors_nil_required d pb field :
  FindInitializationErrors d pb = [] →
  field ∈ fields d → label field = LABEL_REQUIRED →
  is_Some (set_fields pb !! name field).
Proof.
  intros Hnil Hfield Hlabel.
  destruct (set_fields pb !! name field) eqn:Hset; [eauto|].
  pose proof (FindInitializationErrors_required _ _ _ Hfield Hlabel Hset) as Hin.
  rewrite Hnil in Hin. by apply elem_of_nil in Hin.
Qed.

Lemma check_initialized_returns d r pb :
  check_initialized d r = (pb, Returns tt) →
  r = (pb, Returns tt) ∧ FindInitializationErrors d pb = [].
Proof.
  destruct r as [pb1 [[]|e]]; simpl; [|done].
  destruct (FindInitializationErrors d pb1) eqn:Herr; [|done].
  by intros [= <-].
Qed.

(** C6, second part: a message that [json2pb] returns is initialized. *)
Lemma json2pb_returns_initialized d pb js use pb' :
  json2pb d pb js use = (pb', Returns tt) →
  FindInitializationErrors d pb' = [] ∧
  ∀ field, field ∈ fields d → label field = LABEL_REQUIRED →
           is_Some (set_fields pb' !! name field).
Proof.
  rewrite json2pb_unfold. intros [_ Hnil]%check_initialized_returns.
  split; [done|]. intros field. by apply FindInitializationErrors_nil_required.
Qed.

(** C6, as the code has it: for a descriptor with a required field, a
    mapping without the key of that field and a message in which the field
    is unset, [json2pb] raises; when the loop over the fields has finished
    without an exception of its own, what it raises is
    [RequiredFieldMissing] with the field among the names it carries.  And
    a message that [json2pb] returns has no initialization error: every
    required field is set. *)
Theorem json2pb_required_field_missing d pb m use (field : FieldDescriptor) :
  field ∈ fields d → label field = LABEL_REQUIRED →
  m !! name field = None → set_fields pb !! name field = None →
  (∃ pb' e, json2pb d pb (JDict m) use = (pb', Raises e) ∧
            ∀ pb1, json2pb_fields d pb (JDict m) use = (pb1, Returns tt) →
                   ∃ init_errors, pb' = pb1 ∧
                                  e = RequiredFieldMissing init_errors ∧
                                  name field ∈ init_errors) ∧
  (∀ pb0 js0 pb2, json2pb d pb0 js0 use = (pb2, Returns tt) →
     FindInitializationErrors d pb2 = [] ∧
     ∀ f, f ∈ fields d → label f = LABEL_REQUIRED →
          is_Some (set_fields pb2 !! name f)).
Proof.
  intros Hfield Hlabel Hm Hpb. split; [|intros; by eapply json2pb_returns_initialized].
  rewrite json2pb_unfold.
  destruct (json2pb_fields d pb (JDict m) use) as [pb1 [[]|e]] eqn:Hloop.
  - pose proof (json2pb_fields_absent _ _ _ _ _ _ _ Hm Hloop) as Hunset.
    rewrite Hpb in Hunset.
    pose proof (FindInitializationErrors_required _ _ _ Hfield Hlabel Hunset) as Hin.
    simpl. destruct (FindInitializationErrors d pb1) as [|e1 es] eqn:Herr.
    { by apply elem_of_nil in Hin. }
    eexists _, _. split; [done|]. intros pb2 [= <-]. eauto.
  - simpl. eexists _, _. split; [done|]. by intros pb2.
Qed.

(** *** Where a run of the loop ends *)

(** A loop that raises has completed the steps of the items before one
    item, and the step of that item has raised. *)
Lemma for_each_raises {A} (body : A → Message → run) xs pb pb1 e :
  for_each body xs pb = (pb1, Raises e) →
  ∃ before x later pb2,
    xs = before ++ x :: later ∧
    for_each body before pb = (pb2, Returns tt) ∧
    body x pb2 = (pb1, Raises e).
Proof.
  revert pb. induction xs as [|x xs IH]; intros pb; simpl; [done|].
  destruct (body x pb) as [pb' [[]|e']] eqn:Hx.
  - intros (before & y & later & pb2 & -> & Hbefore & Hy)%IH.
    exists (x :: before), y, later, pb2. simpl. by rewrite Hx.
  - intros [= <- <-]. by exists [], x, xs, pb.
Qed.

(** The step of a field, whatever its end, leaves a field of another name
    as it was. *)
Lemma json2pb_field_same_at rec owner js use (field g : FieldDescriptor)
    pb pb' r :
  name field ≠ name g →
  json2pb_field rec owner js use field pb = (pb', r) →
  same_at (name g) pb pb'.
Proof.
  intros Hne Hstep. eapply json2pb_field_same_but; [exact Hstep|].
  by apply not_eq_sym.
Qed.

Lemma for_each_same_at rec owner js use (fs : list FieldDescriptor)
    (g : FieldDescriptor) pb pb' r :
  name g ∉ name <$> fs →
  for_each (json2pb_field rec owner js use) fs pb = (pb', r) →
  same_at (name g) pb pb'.
Proof.
  intros Hnotin. apply (for_each_rel (same_at (name g))).
  intros f pb2 pb3 r' Hf. apply json2pb_field_same_at.
  intros Heq. apply Hnotin. rewrite <- Heq. apply list_elem_of_fmap. eauto.
Qed.

(** The step of a singular scalar field that returns has written the
    converted value. *)
Lemma json2pb_field_written rec owner js use (field : FieldDescriptor) pb pb' :
  json2pb_field rec owner js use field pb = (pb', Returns tt) →
  holds_converted owner use js pb' field.
Proof.
  intros Hstep m js_value -> Hlabel Hscalar Hm. revert Hstep.
  unfold protobuf_json.json2pb_field. cbn [py_contains py_getitem].
  rewrite Hm. rewrite bool_decide_eq_true_2 by eauto.
  destruct (choose_ftype _ _ _ _) as [ftype|]; [|done]. cbn [or_raise].
  rewrite bool_decide_eq_false_2 by done.
  assert (_IsMessageSet field = false) as ->.
  { unfold _IsMessageSet. unfold is_composite in Hscalar.
    apply bool_decide_eq_false in Hscalar.
    rewrite bool_decide_eq_false_2; [done|]. tauto. }
  rewrite Hscalar.
  destruct (convert ftype (type field) js_value) as [x|] eqn:Hx; [|done].
  intros [= <-]. exists ftype, x. split; [done|]. split; [done|].
  unfold set_value. simpl. by rewrite lookup_insert_eq.
Qed.

Lemma holds_converted_same_at owner use js pb pb' (field : FieldDescriptor) :
  same_at (name field) pb pb' →
  holds_converted owner use js pb field → holds_converted owner use js pb' field.
Proof.
  intros Hsame Hpb m js_value Hjs Hlabel Hscalar Hm.
  destruct (Hpb m js_value Hjs Hlabel Hscalar Hm) as (ftype & x & ? & ? & Hset).
  exists ftype, x. unfold same_at in Hsame. by rewrite Hsame.
Qed.

(** Every field whose step the loop has completed holds its converted
    value after the steps that follow, however they end. *)
Lemma for_each_written rec owner js use (fs later : list FieldDescriptor)
    (field : FieldDescriptor) pb pb2 pb1 r :
  NoDup (name <$> fs ++ later) → field ∈ fs →
  for_each (json2pb_field rec owner js use) fs pb = (pb2, Returns tt) →
  for_each (json2pb_field rec owner js use) later pb2 = (pb1, r) →
  holds_converted owner use js pb1 field.
Proof.
  intros Hnodup (fs1 & fs2 & ->)%list_elem_of_split Hfs Hlater.
  rewrite for_each_app in Hfs.
  destruct (for_each _ fs1 pb) as [pb3 [[]|e]]; [|done].
  cbn [for_each] in Hfs.
  destruct (json2pb_field rec owner js use field pb3)
    as [pb4 [[]|e]] eqn:Hstep; [|done].
  rewrite <- app_assoc, <- app_comm_cons, fmap_app, fmap_cons in Hnodup.
  apply NoDup_app in Hnodup as (_ & _ & Hnodup).
  apply NoDup_cons in Hnodup as [Hnotin _].
  assert (Hnot2 : name field ∉ name <$> fs2).
  { intros Hin. apply Hnotin. rewrite fmap_app. apply elem_of_app. by left. }
  assert (Hnot3 : name field ∉ name <$> later).
  { intros Hin. apply Hnotin. rewrite fmap_app. apply elem_of_app. by right. }
  eapply holds_converted_same_at;
    [by eapply for_each_same_at; [exact Hnot3|exact Hlater]|].
  eapply holds_converted_same_at;
    [by eapply for_each_same_at; [exact Hnot2|exact Hfs]|].
  by eapply json2pb_field_written.
Qed.

(** Only the decode of a message raises [RequiredFieldMissing] inside the
    loop: the step of a scalar field raises what the conversion or the
    check of the value raises. *)
Lemma CheckValue_not_missing t v init_errors :
  CheckValue t v ≠ Raises (RequiredFieldMissing init_errors).
Proof.
  unfold CheckValue. destruct (int_bounds t) as [[lo hi]|].
  - destruct v; try done. by case_bool_decide.
  - repeat case_bool_decide; by destruct v.
Qed.

Lemma py_int_not_missing v init_errors :
  py_int v ≠ Raises (RequiredFieldMissing init_errors).
Proof.
  destruct v as [| | |x|s| |]; cbn; try done.
  - by destruct (int_of_float x).
  - by destruct (int_literal _).
Qed.

Lemma js2ftype_not_missing t ftype v init_errors :
  _js2ftype container_repr !! t = Some ftype →
  ftype v ≠ Raises (RequiredFieldMissing init_errors).
Proof.
  intros Ht%elem_of_list_to_map_2.
  repeat (apply elem_of_cons in Ht as [Heq|Ht];
          [injection Heq as _ ->; clear;
           unfold py_long, py_int, py_float, py_bool, py_unicode,
             py_decode_string_escape;
           destruct v; cbn; try done;
           repeat match goal with
                  | |- context [or_raise _ ?o] => destruct o; cbn
                  end; done|]).
  by apply elem_of_nil in Ht.
Qed.

(** A step of the loop that raises [RequiredFieldMissing] is the step of a
    message or group field that the mapping names. *)
Lemma json2pb_field_missing rec owner js use (field : FieldDescriptor)
    pb pb' init_errors :
  json2pb_field rec owner js use field pb
  = (pb', Raises (RequiredFieldMissing init_errors)) →
  is_composite (type field) = true ∧
  py_contains (name field) js = Returns true.
Proof.
  unfold protobuf_json.json2pb_field.
  destruct (py_contains (name field) js) as [[]|e] eqn:Hin;
    [|done|intros [= _ ->]; by destruct js].
  unfold choose_ftype.
  destruct (is_composite (type field)) eqn:Hcomp; [done|].
  assert (_IsMessageSet field = false) as ->.
  { unfold _IsMessageSet. unfold is_composite in Hcomp.
    apply bool_decide_eq_false in Hcomp.
    rewrite bool_decide_eq_false_2; [done|]. tauto. }
  assert (Hconv : ∀ ftype v,
            (if use && bool_decide (type field = TYPE_ENUM)
             then Returns (Some (_EnumNameToNumber field))
             else match _js2ftype container_repr !! type field with
                  | Some ftype => Returns (Some ftype)
                  | None => Raises (ParseError (owner +:+ "." +:+ name field)
                                      (type field))
                  end) = Returns ftype →
            convert ftype (type field) v
            ≠ Raises (RequiredFieldMissing init_errors)).
  { intros ftype v. destruct (use && _).
    - intros [= <-]. unfold convert, _EnumNameToNumber.
      destruct (enum_type field) as [enum|]; [|done].
      assert (Hint : py_int v ≫= CheckValue (type field)
                     ≠ Raises (RequiredFieldMissing init_errors)).
      { pose proof (py_int_not_missing v init_errors).
        destruct (py_int v) as [x|e]; cbn; [apply CheckValue_not_missing|].
        congruence. }
      destruct v as [| | | |s| |]; try done.
      destruct (values_by_name enum !! s); [|done]. cbn.
      apply CheckValue_not_missing.
    - destruct (_js2ftype container_repr !! type field) as [g|] eqn:Hg; [|done].
      intros [= <-]. unfold convert.
      pose proof (js2ftype_not_missing _ _ v init_errors Hg).
      destruct (g v) as [x|e]; cbn; [apply CheckValue_not_missing|congruence]. }
  destruct (if use && _ then _ else _) as [ftype|e] eqn:Hchoose;
    [|intros [= _ ->]; destruct (use && _); [done|];
      by destruct (_js2ftype container_repr !! type field)].
  destruct (py_getitem js (name field)) as [js_value|e] eqn:Hget;
    [|intros [= _ ->]; destruct js as [| | | | | |dd]; try done;
      cbn in Hget; by destruct (dd !! name field)].
  destruct (bool_decide (label field = LABEL_REPEATED)).
  - destruct (py_iter js_value) as [vs|e] eqn:Hiter;
      [|intros [= _ ->]; by destruct js_value].
    intros Hloop%for_each_raises.
    destruct Hloop as (before & v & later & pb2 & _ & _ & Hstep).
    pose proof (Hconv ftype v eq_refl) as Hv.
    destruct (convert ftype (type field) v); [done|]. congruence.
  - pose proof (Hconv ftype js_value eq_refl) as Hv.
    destruct (convert ftype (type field) js_value); [done|]. congruence.
Qed.


(** *** The enum converters *)

(** C8: the enum converters.  Decoding a string, [_EnumNameToNumber] gives
    the number of a value of the enum with that name when there is one, and
    otherwise what [int] makes of the string, its exception included.
    Encoding a number, [_EnumNumberToName] gives the name of a value with
    that number when there is one, and otherwise returns the number as it
    is; it never raises. *)
Theorem enum_codec_fallbacks (field : FieldDescriptor) enum :
  enum_type field = Some enum →
  (∀ s,
     (∃ value_desc, value_desc ∈ values enum ∧
        EnumValueDescriptor.name value_desc = s ∧
        _EnumNameToNumber field (JStr s)
        = Returns (JInt (EnumValueDescriptor.number value_desc))) ∨
     ((∀ value_desc, value_desc ∈ values enum →
         EnumValueDescriptor.name value_desc ≠ s) ∧
      _EnumNameToNumber field (JStr s) = py_int (JStr s))) ∧
  (∀ n,
     (∃ value_desc, value_desc ∈ values enum ∧
        EnumValueDescriptor.number value_desc = n ∧
        _EnumNumberToName field (JInt n)
        = Returns (JStr (EnumValueDescriptor.name value_desc))) ∨
     ((∀ value_desc, value_desc ∈ values enum →
         EnumValueDescriptor.number value_desc ≠ n) ∧
      _EnumNumberToName field (JInt n) = Returns (JInt n))).
Proof.
  intros Henum. split.
  - intros s. unfold _EnumNameToNumber. rewrite Henum.
    pose proof (index_lookup EnumValueDescriptor.name (values enum) s) as Hidx.
    unfold values_by_name. destruct (foldl _ _ _ !! s) as [vd|].
    + left. exists vd. by destruct Hidx.
    + right. done.
  - intros n. unfold _EnumNumberToName. rewrite Henum. cbn [number_key mbind option_bind].
    pose proof (index_lookup EnumValueDescriptor.number (values enum) n) as Hidx.
    unfold values_by_number. destruct (foldl _ _ _ !! n) as [vd|].
    + left. exists vd. by destruct Hidx.
    + right. done.
Qed.

(** *** Encode then decode *)

Lemma All_Forall {A} (P : A → Prop) l : All P l ↔ Forall P l.
Proof.
  induction l as [|x l IH]; simpl.
  - split; [constructor|done].
  - rewrite Forall_cons, IH. done.
Qed.

Lemma All_elem {A} (P : A → Prop) l x : All P l → x ∈ l → P x.
Proof. rewrite All_Forall, Forall_forall. auto. Qed.

Lemma Descriptor_tree_ind (P : Descriptor → Prop) :
  (∀ d, (∀ (f : FieldDescriptor) sub,
           f ∈ fields d → message_type f = Some sub → P sub) → P d) →
  ∀ d, P d.
Proof.
  intros Hstep.
  assert (Hall : ∀ d, Forall (λ f : FieldDescriptor,
                        ∀ sub, message_type f = Some sub → P sub) (fields d)
                      → P d).
  { intros d Hd. apply Hstep. intros f sub Hf. revert sub.
    by apply (proj1 (Forall_forall _ _) Hd). }
  clear Hstep. fix IH 1. intros [cn tn fs]. apply Hall. simpl.
  induction fs as [|f fs IHfs]; constructor.
  - destruct f as [? ? ? ? ? ? [sub'|]]; simpl; intros sub Hsub.
    + injection Hsub as <-. apply IH.
    + discriminate Hsub.
  - exact IHfs.
Qed.

Lemma wf_descriptor_unfold d :
  wf_descriptor d ↔
  NoDup (name <$> fields d) ∧ Forall (wf_field wf_descriptor) (fields d).
Proof. destruct d. simpl. by rewrite All_Forall. Qed.

Lemma everywhere_here P d pb : everywhere P d pb → P d pb.
Proof. destruct d. by intros [? _]. Qed.

Lemma everywhere_singular P d pb (f : FieldDescriptor) sub m :
  everywhere P d pb → f ∈ fields d → message_type f = Some sub →
  set_fields pb !! name f = Some (Singular (Sub m)) →
  everywhere P sub m.
Proof.
  destruct d as [cn tn fs]. simpl. intros [_ Hall] Hf Hsub Hm.
  pose proof (All_elem _ _ _ Hall Hf) as Hx. simpl in Hx.
  by rewrite Hsub, Hm in Hx.
Qed.

Lemma everywhere_repeated P d pb (f : FieldDescriptor) sub xs m :
  everywhere P d pb → f ∈ fields d → message_type f = Some sub →
  set_fields pb !! name f = Some (Repeated xs) → Sub m ∈ xs →
  everywhere P sub m.
Proof.
  destruct d as [cn tn fs]. simpl. intros [_ Hall] Hf Hsub Hxs Hm.
  pose proof (All_elem _ _ _ Hall Hf) as Hx. simpl in Hx.
  rewrite Hsub, Hxs in Hx. apply (All_elem _ _ _ Hx Hm).
Qed.

Lemma fmap_nil_inv' {A B} (g : A → B) l : g <$> l = [] → l = [].
Proof. by destruct l. Qed.

Lemma initialized_singular d pb (f : FieldDescriptor) sub m :
  FindInitializationErrors d pb = [] → f ∈ fields d →
  message_type f = Some sub →
  set_fields pb !! name f = Some (Singular (Sub m)) →
  FindInitializationErrors sub m = [].
Proof.
  destruct d as [cn tn fs]. simpl. intros [_ Hnil]%app_eq_nil Hf Hsub Hm.
  apply list_elem_of_split in Hf as (fs1 & fs2 & ->).
  rewrite bind_app, bind_cons in Hnil.
  apply app_eq_nil in Hnil as [_ [Hnil _]%app_eq_nil].
  unfold listed in Hnil. rewrite Hsub, Hm in Hnil.
  by apply fmap_nil_inv' in Hnil.
Qed.

Lemma mjoin_nil_inv {A} (ls : list (list A)) l :
  mjoin ls = [] → l ∈ ls → l = [].
Proof.
  induction ls as [|l' ls IH]; simpl; [by intros _ ?%elem_of_nil|].
  intros [-> Hrest]%app_eq_nil [->|Hin]%elem_of_cons; auto.
Qed.

Lemma initialized_repeated d pb (f : FieldDescriptor) sub xs m :
  FindInitializationErrors d pb = [] → f ∈ fields d →
  message_type f = Some sub →
  set_fields pb !! name f = Some (Repeated xs) → Sub m ∈ xs →
  FindInitializationErrors sub m = [].
Proof.
  destruct d as [cn tn fs]. simpl. intros [_ Hnil]%app_eq_nil Hf Hsub Hxs Hm.
  apply list_elem_of_split in Hf as (fs1 & fs2 & ->).
  rewrite bind_app, bind_cons in Hnil.
  apply app_eq_nil in Hnil as [_ [Hnil _]%app_eq_nil].
  unfold listed in Hnil. rewrite Hsub, Hxs in Hnil.
  destruct xs as [|x xs]; [by apply elem_of_nil in Hm|].
  apply list_elem_of_lookup in Hm as [i Hi].
  eapply mjoin_nil_inv in Hnil.
  2:{ apply list_elem_of_lookup. exists i. rewrite list_lookup_imap, Hi. done. }
  simpl in Hnil. by apply fmap_nil_inv' in Hnil.
Qed.

(** *** Scalars: what the encode table writes, the decode table reads back *)

Lemma string_escape_roundtrip s :
  py_encode_string_escape (JStr s) ≫= py_decode_string_escape = Returns (JStr s).
Proof.
  cbn. rewrite list_ascii_of_string_of_list_ascii, decode_encode_string_escape.
  cbn. by rewrite string_of_list_ascii_of_string.
Qed.

Lemma CheckValue_int t lo hi z :
  int_bounds t = Some (lo, hi) → lo ≤ z ≤ hi →
  CheckValue t (JInt z) = Returns (JInt z).
Proof.
  intros Hb Hz. unfold CheckValue. rewrite Hb. by rewrite bool_decide_eq_true_2.
Qed.

Lemma scalar_codec t v :
  t ∈ scalar_types → valid_scalar t v →
  ∃ g h j,
    _ftype2js container_repr !! t = Some (builtin g) ∧
    _js2ftype container_repr !! t = Some h ∧
    g v = Returns j ∧ (h j ≫= CheckValue t) = Returns v.
Proof.
  intros Ht Hv. unfold scalar_types in Ht.
  repeat (apply elem_of_cons in Ht as [->|Ht]); [..|by apply elem_of_nil in Ht];
    unfold valid_scalar in Hv; eval_bounds; cbv beta iota in Hv.
  all: try (destruct Hv as (z & -> & Hz);
            eexists _, _, _; split; [reflexivity|]; split; [reflexivity|];
            split; [reflexivity|]; cbn [py_int py_long mbind outcome_bind];
            by eapply CheckValue_int).
  - destruct Hv as [x ->]. by eexists _, _, _.
  - destruct Hv as [x ->]. by eexists _, _, _.
  - destruct Hv as [b ->]. by eexists _, _, _.
  - destruct Hv as [s ->]. by eexists _, _, _.
  - destruct Hv as [s ->]. eexists _, _, _.
    split; [reflexivity|]. split; [reflexivity|]. split; [reflexivity|].
    pose proof (string_escape_roundtrip s) as Hrt. cbn in Hrt |- *.
    destruct (or_raise _ _) as [cs|]; [|done].
    cbn in Hrt |- *. by injection Hrt as ->.
Qed.

Lemma NoDup_fmap_elem_inj {A B} (g : A → B) l x y :
  NoDup (g <$> l) → x ∈ l → y ∈ l → g x = g y → x = y.
Proof.
  induction l as [|a l IH]; [by intros _ ?%elem_of_nil|].
  rewrite fmap_cons, NoDup_cons.
  intros [Hnotin Hnd] [->|Hx]%elem_of_cons [->|Hy]%elem_of_cons Hg; auto.
  - destruct Hnotin. rewrite Hg. apply list_elem_of_fmap. eauto.
  - destruct Hnotin. rewrite <- Hg. apply list_elem_of_fmap. eauto.
Qed.

Lemma enum_codec (f : FieldDescriptor) enum v :
  enum_type f = Some enum →
  NoDup (EnumValueDescriptor.name <$> values enum) →
  valid_scalar TYPE_ENUM v →
  ∃ j, _EnumNumberToName f v = Returns j ∧
       (_EnumNameToNumber f j ≫= CheckValue TYPE_ENUM) = Returns v.
Proof.
  intros Henum Hnd Hv. unfold valid_scalar in Hv. eval_bounds.
  destruct Hv as (z & -> & Hz).
  unfold _EnumNumberToName, _EnumNameToNumber. rewrite Henum.
  cbn [number_key mbind option_bind].
  pose proof (index_lookup EnumValueDescriptor.number (values enum) z) as Hnum.
  unfold values_by_number. destruct (foldl _ _ _ !! z) as [vd|].
  - destruct Hnum as [Hvd Hz']. eexists. split; [done|].
    pose proof (index_lookup EnumValueDescriptor.name (values enum)
                  (EnumValueDescriptor.name vd)) as Hname.
    unfold values_by_name. destruct (foldl _ _ _ !! _) as [vd'|].
    + destruct Hname as [Hvd' Heq].
      rewrite (NoDup_fmap_elem_inj _ _ _ _ Hnd Hvd' Hvd Heq), Hz'.
      cbn [outcome_bind]. by eapply CheckValue_int.
    + by destruct (Hname vd Hvd).
  - eexists. split; [done|]. cbn [py_int outcome_bind]. by eapply CheckValue_int.
Qed.

(** *** The converters of a well-formed field *)

Lemma scalar_not_message_set (f : FieldDescriptor) :
  is_composite (type f) = false → _IsMessageSet f = false.
Proof.
  unfold is_composite, _IsMessageSet. intros Hc%bool_decide_eq_false.
  rewrite bool_decide_eq_false_2; [done|]. tauto.
Qed.

Lemma composite_not_message_set (f : FieldDescriptor) sub :
  message_type f = Some sub → type_name sub ≠ "proto2.bridge.MessageSet" →
  _IsMessageSet f = false.
Proof.
  unfold _IsMessageSet. intros -> Hname.
  rewrite (bool_decide_eq_false_2 _ Hname). apply andb_false_r.
Qed.

Lemma converter_scalar rec owner (f : FieldDescriptor) use all :
  is_composite (type f) = false → wf_field wf_descriptor f →
  ∃ g h,
    _Pb2JsonConverter container_repr _MessageSetPb2Json rec f use all
    = Returns (on_value g) ∧
    choose_ftype container_repr owner f use = Returns (Some h) ∧
    ∀ v, valid_scalar (type f) v →
         ∃ j, g v = Returns j ∧ convert (Some h) (type f) j = Returns v.
Proof.
  intros Hc Hwf. unfold wf_field in Hwf. rewrite Hc in Hwf.
  destruct Hwf as [Ht Henum].
  unfold _Pb2JsonConverter, choose_ftype.
  rewrite (scalar_not_message_set _ Hc), Hc.
  destruct (use && bool_decide (type f = TYPE_ENUM)) eqn:Huse.
  - apply andb_true_iff in Huse as [_ Hty%bool_decide_eq_true].
    destruct (Henum Hty) as (enum & He & Hnd).
    eexists _, _. split; [done|]. split; [done|].
    intros v Hv. rewrite Hty in Hv |- *. by eapply enum_codec.
  - assert (∀ v, valid_scalar (type f) v →
              ∃ g h j, _ftype2js container_repr !! type f = Some (builtin g) ∧
                       _js2ftype container_repr !! type f = Some h ∧
                       g v = Returns j ∧ (h j ≫= CheckValue (type f)) = Returns v)
      as Hcodec by (intros v; by apply scalar_codec).
    assert (∃ g h, _ftype2js container_repr !! type f = Some (builtin g) ∧
                   _js2ftype container_repr !! type f = Some h) as (g & h & Hg & Hh).
    { clear -Ht. unfold scalar_types in Ht.
      repeat (apply elem_of_cons in Ht as [->|Ht]);
        [..|by apply elem_of_nil in Ht]; by eexists _, _. }
    rewrite Hg, Hh. exists g, h. split; [done|]. split; [done|].
    intros v Hv. destruct (Hcodec v Hv) as (g' & h' & j & Hg' & Hh' & Hj & Hback).
    assert (g' = g) as -> by congruence. assert (h' = h) as -> by congruence.
    by exists j.
Qed.

Lemma converter_composite rec owner (f : FieldDescriptor) sub use all :
  is_composite (type f) = true → message_type f = Some sub →
  type_name sub ≠ "proto2.bridge.MessageSet" →
  _Pb2JsonConverter container_repr _MessageSetPb2Json rec f use all
  = Returns (λ x, match x, message_type f with
                  | Sub m, Some sub => rec sub m use all
                  | _, _ => Raises AttributeError
                  end) ∧
  choose_ftype container_repr owner f use = Returns None.
Proof.
  intros Hc Hsub Hname. unfold _Pb2JsonConverter, choose_ftype.
  rewrite (composite_not_message_set _ _ Hsub Hname), Hc.
  split; [|done].
  assert (bool_decide (type f = TYPE_ENUM) = false) as ->.
  { apply bool_decide_eq_false_2. intros Ht. rewrite Ht in Hc. done. }
  rewrite andb_false_r.
  unfold is_composite in Hc. apply bool_decide_eq_true in Hc as [->| ->]; done.
Qed.

(** *** Loops *)

Lemma mapM_Returns {A B} (g : A → outcome B) xs ys :
  Forall2 (λ x y, g x = Returns y) xs ys → mapM g xs = Returns ys.
Proof.
  induction 1 as [|x y xs ys Hx _ IH]; [done|].
  cbn [mapM]. rewrite Hx. cbn. rewrite IH. done.
Qed.

Lemma get_repeated_append pb name x :
  get_repeated (append pb name x) name = get_repeated pb name ++ [x].
Proof. unfold get_repeated at 1, append. simpl. by rewrite lookup_insert_eq. Qed.

Lemma for_each_appends (step : json → Message → run) name js_list xs pb_acc :
  Forall2 (λ j x, ∀ pb, step j pb = (append pb name x, Returns tt)) js_list xs →
  for_each step js_list pb_acc =
  (match xs with
   | [] => pb_acc
   | _ => Msg (<[name := Repeated (get_repeated pb_acc name ++ xs)]>
                 (set_fields pb_acc))
   end, Returns tt).
Proof.
  intros Hall. revert pb_acc.
  induction Hall as [|j x js xs Hj _ IH]; intros pb_acc; [done|].
  cbn [for_each]. rewrite Hj, IH. f_equal.
  destruct xs as [|x' xs]; [done|].
  rewrite get_repeated_append. unfold append. simpl.
  by rewrite insert_insert_eq, <- app_assoc.
Qed.

Lemma decodable_absent owner use f : decodable owner use f None None.
Proof. intros js pb_cur Hjs _. by apply json2pb_field_absent. Qed.

(** *** One field *)

Lemma turn_set pb (all : bool) (f : FieldDescriptor) fv :
  set_fields pb !! name f = Some fv → fv ≠ Repeated [] →
  (if all then Some (getattr pb f) else listed pb (name f)) = Some fv.
Proof.
  intros Hset Hne. unfold getattr, listed. rewrite Hset.
  destruct all; [done|]. by destruct fv as [|[|]].
Qed.

Lemma guard_set pb (all : bool) (f : FieldDescriptor) fv :
  set_fields pb !! name f = Some fv →
  all && bool_decide (label f = LABEL_OPTIONAL) && negb (HasField pb (name f))
  = false.
Proof.
  intros Hset. unfold HasField. rewrite Hset.
  rewrite (bool_decide_eq_true_2 (is_Some (Some fv))) by eauto.
  apply andb_false_r.
Qed.

(** A scalar field that is set. *)
Lemma scalar_field_roundtrip rec owner pb use all (f : FieldDescriptor) fv js0 :
  is_composite (type f) = false → wf_field wf_descriptor f →
  set_fields pb !! name f = Some fv →
  (if bool_decide (label f = LABEL_REPEATED)
   then ∃ xs, fv = Repeated xs ∧ xs ≠ [] ∧ Forall (typed_element f) xs
   else ∃ x, fv = Singular x ∧ typed_element f x) →
  ∃ j, pb2json_field rec pb use all f js0 = Returns (<[name f := j]> js0) ∧
       decodable owner use f (Some fv) (Some j).
Proof.
  intros Hc Hwf Hset Hty.
  destruct (converter_scalar rec owner f use all Hc Hwf)
    as (g & h & Hconv & Hchoose & Hcodec).
  unfold pb2json_field, decodable, json2pb_field. cbn [py_contains py_getitem].
  rewrite (guard_set _ _ _ _ Hset), Hconv. cbn [mbind outcome_bind].
  rewrite Hchoose, (scalar_not_message_set _ Hc), Hc.
  unfold typed_element in Hty. rewrite Hc in Hty.
  case_bool_decide as Hlabel.
  - destruct Hty as (xs & -> & Hne & Hxs).
    rewrite (turn_set _ _ _ _ Hset) by (by destruct xs).
    assert (∃ js_list,
              Forall2 (λ x j, on_value g x = Returns j) xs js_list ∧
              Forall2 (λ j x, convert (Some h) (type f) j = Returns
                                match x with Value v => v | Sub _ => JNone end
                              ∧ ∃ v, x = Value v) js_list xs)
      as (js_list & Henc & Hdec).
    { clear -Hxs Hcodec. induction Hxs as [|x xs Hx _ (js & IH1 & IH2)].
      - exists []. split; constructor.
      - destruct x as [v|m]; [|done].
        destruct (Hcodec v Hx) as (j & Hj & Hback).
        exists (j :: js). split; constructor; eauto. }
    exists (JList js_list). rewrite (mapM_Returns _ _ _ Henc). split; [done|].
    intros js pb_cur Hjs Hcur. rewrite Hjs. cbn [or_raise py_iter].
    rewrite bool_decide_eq_true_2 by eauto.
    rewrite (for_each_appends _ (name f) js_list xs).
    + unfold get_repeated. rewrite Hcur. simpl. by destruct xs.
    + clear -Hdec. induction Hdec as [|j x js xs [Hj [v ->]] _ IH];
        constructor; [|done].
      intros pb. by rewrite Hj.
  - destruct Hty as (x & -> & Hx). rewrite (turn_set _ _ _ _ Hset) by done.
    destruct x as [v|m]; [|done].
    destruct (Hcodec v Hx) as (j & Hj & Hback).
    exists j. cbn [on_value]. rewrite Hj. split; [done|].
    intros js pb_cur Hjs Hcur. rewrite Hjs. cbn [or_raise].
    rewrite bool_decide_eq_true_2 by eauto. by rewrite Hback.
Qed.

(** A message or group field that is set. *)
Lemma composite_field_roundtrip owner pb use all (f : FieldDescriptor) sub fv js0 :
  is_composite (type f) = true → message_type f = Some sub →
  type_name sub ≠ "proto2.bridge.MessageSet" →
  roundtrips use all sub →
  set_fields pb !! name f = Some fv →
  (if bool_decide (label f = LABEL_REPEATED)
   then ∃ xs, fv = Repeated xs ∧ xs ≠ [] ∧ Forall (typed_element f) xs
   else ∃ x, fv = Singular x ∧ typed_element f x) →
  (∀ m, fv = Singular (Sub m) → is_empty m = false ∧ sub_ready all sub m) →
  (∀ xs m, fv = Repeated xs → Sub m ∈ xs → sub_ready all sub m) →
  ∃ j, pb2json_field pb2json pb use all f js0 = Returns (<[name f := j]> js0) ∧
       decodable owner use f (Some fv) (Some j).
Proof.
  intros Hc Hsub Hname IH Hset Hty Hsingle Hrep.
  destruct (converter_composite pb2json owner f sub use all Hc Hsub Hname)
    as [Hconv Hchoose].
  unfold pb2json_field, decodable, json2pb_field. cbn [py_contains py_getitem].
  rewrite (guard_set _ _ _ _ Hset), Hconv. cbn [mbind outcome_bind].
  rewrite Hchoose, (composite_not_message_set _ _ Hsub Hname), Hc, Hsub.
  unfold typed_element in Hty. rewrite Hc in Hty.
  case_bool_decide as Hlabel.
  - destruct Hty as (xs & -> & Hne & Hxs).
    rewrite (turn_set _ _ _ _ Hset) by (by destruct xs).
    assert (∃ js_list,
              Forall2 (λ x j, match x with
                              | Sub m => pb2json sub m use all
                              | Value _ => Raises AttributeError
                              end = Returns j) xs js_list ∧
              Forall2 (λ j x, ∃ m, x = Sub m ∧
                                   json2pb sub empty j use = (m, Returns tt))
                      js_list xs)
      as (js_list & Henc & Hdec).
    { assert (Hready : ∀ m, Sub m ∈ xs → sub_ready all sub m) by eauto.
      clear -Hxs Hready IH. induction Hxs as [|x xs Hx _ IHxs].
      - exists []. split; constructor.
      - destruct IHxs as (js & IH1 & IH2).
        { intros m Hm. apply Hready. by right. }
        destruct x as [v|m]; [done|].
        destruct (Hready m) as (H1 & H2 & H3 & H4); [by left|].
        destruct (IH m H1 H2 H3 H4) as (jm & Hjm & Hback).
        exists (JDict jm :: js). split; constructor; eauto. }
    exists (JList js_list). rewrite (mapM_Returns _ _ _ Henc). split; [done|].
    intros js pb_cur Hjs Hcur. rewrite Hjs. cbn [or_raise py_iter].
    rewrite bool_decide_eq_true_2 by eauto.
    rewrite (for_each_appends _ (name f) js_list xs).
    + unfold get_repeated. rewrite Hcur. simpl. by destruct xs.
    + clear -Hdec. induction Hdec as [|j x js xs (m & -> & Hj) _ IH];
        constructor; [|done].
      intros pb. by rewrite Hj.
  - destruct Hty as (x & -> & Hx). rewrite (turn_set _ _ _ _ Hset) by done.
    destruct x as [v|m]; [done|].
    destruct (Hsingle m eq_refl) as (Hnonempty & H1 & H2 & H3 & H4).
    destruct (IH m H1 H2 H3 H4) as (jm & Hjm & Hback).
    exists (JDict jm). rewrite Hjm. split; [done|].
    intros js pb_cur Hjs Hcur. rewrite Hjs. cbn [or_raise].
    rewrite bool_decide_eq_true_2 by eauto.
    unfold get_message. rewrite Hcur, Hback.
    unfold put_message. by rewrite Hcur, Hnonempty.
Qed.

(** A field that is not set: it has a turn only with [all_fields], as a
    repeated field without elements. *)
Lemma unset_field_roundtrip owner d pb use all (f : FieldDescriptor) js0 :
  f ∈ fields d → wf_field wf_descriptor f →
  set_fields pb !! name f = None → js0 !! name f = None →
  FindInitializationErrors d pb = [] →
  (all = true → optional_set d pb) →
  ∃ js1, pb2json_field pb2json pb use all f js0 = Returns js1 ∧
         (∀ k, k ≠ name f → js1 !! k = js0 !! k) ∧
         decodable owner use f None (js1 !! name f).
Proof.
  intros Hf Hwf Hset Hjs0 Hinit Hopt. unfold pb2json_field.
  destruct all.
  2:{ unfold listed. rewrite Hset. exists js0. split; [done|]. split; [done|].
      rewrite Hjs0. apply decodable_absent. }
  destruct (label f) eqn:Hlabel.
  - destruct (Hopt eq_refl f Hf Hlabel) as [? ?]. congruence.
  - destruct (FindInitializationErrors_nil_required _ _ _ Hinit Hf Hlabel)
      as [? ?]. congruence.
  - unfold getattr. rewrite Hset, Hlabel. cbn [bool_decide decide_rel andb].
    rewrite bool_decide_eq_false_2 by done. cbn [andb].
    rewrite bool_decide_eq_true_2 by done.
    assert (∃ ftype_out ftype_in,
              _Pb2JsonConverter container_repr _MessageSetPb2Json pb2json f use true
              = Returns ftype_out ∧
              choose_ftype container_repr owner f use = Returns ftype_in)
      as (ftype_out & ftype_in & Hout & Hin).
    { destruct (is_composite (type f)) eqn:Hc.
      - unfold wf_field in Hwf. rewrite Hc in Hwf.
        destruct (message_type f) as [sub|] eqn:Hsub; [|done].
        destruct Hwf as [Hname _].
        destruct (converter_composite pb2json owner f sub use true Hc Hsub Hname)
          as [-> ->]. eauto.
      - destruct (converter_scalar pb2json owner f use true Hc Hwf)
          as (g & h & -> & -> & _). eauto. }
    rewrite Hout. cbn. eexists. split; [done|].
    split; [intros k Hk; by rewrite lookup_insert_ne|].
    rewrite lookup_insert_eq. intros js pb_cur Hjs Hcur.
    unfold json2pb_field. cbn [py_contains py_getitem]. rewrite Hjs, Hin.
    rewrite bool_decide_eq_true_2 by eauto. cbn [or_raise].
    rewrite Hlabel. by rewrite bool_decide_eq_true_2.
Qed.

Lemma encode_loop owner pb use all fs js0 :
  (∀ (f : FieldDescriptor) js0, f ∈ fs → js0 !! name f = None →
     ∃ js1, pb2json_field pb2json pb use all f js0 = Returns js1 ∧
            (∀ k, k ≠ name f → js1 !! k = js0 !! k) ∧
            decodable owner use f (set_fields pb !! name f) (js1 !! name f)) →
  NoDup (name <$> fs) →
  (∀ f : FieldDescriptor, f ∈ fs → js0 !! name f = None) →
  ∃ js, fold_fields (pb2json_field pb2json pb use all) fs js0 = Returns js ∧
        (∀ k, k ∉ name <$> fs → js !! k = js0 !! k) ∧
        ∀ f : FieldDescriptor, f ∈ fs →
          decodable owner use f (set_fields pb !! name f) (js !! name f).
Proof.
  intros Hfield. revert js0.
  induction fs as [|f fs IH]; intros js0 Hnd Hjs0.
  { exists js0. split; [done|]. split; [done|]. by intros f ?%elem_of_nil. }
  rewrite fmap_cons in Hnd. apply NoDup_cons in Hnd as [Hnotin Hnd].
  destruct (Hfield f js0) as (js1 & Hstep & Hframe & Hdec); [by left|apply Hjs0; by left|].
  destruct (IH (λ f' js' Hf', Hfield f' js' (list_elem_of_further _ _ _ Hf')) js1 Hnd)
    as (js & Hloop & Hframe' & Hdec').
  { intros f' Hf'. rewrite Hframe; [apply Hjs0; by right|].
    intros Heq. apply Hnotin. rewrite <- Heq. apply list_elem_of_fmap. eauto. }
  exists js. cbn [fold_fields]. rewrite Hstep. cbn [mbind outcome_bind].
  split; [done|]. split.
  - intros k Hk. rewrite fmap_cons, not_elem_of_cons in Hk. destruct Hk as [Hk1 Hk2].
    by rewrite Hframe', Hframe.
  - intros f' [->|Hf']%elem_of_cons; [|by apply Hdec'].
    by rewrite Hframe'.
Qed.

Lemma decode_loop owner pb use fs js pb_cur :
  NoDup (name <$> fs) →
  (∀ f : FieldDescriptor, f ∈ fs →
     decodable owner use f (set_fields pb !! name f) (js !! name f)) →
  (∀ f : FieldDescriptor, f ∈ fs → set_fields pb_cur !! name f = None) →
  ∃ pb_fin,
    for_each (json2pb_field json2pb owner (JDict js) use) fs pb_cur
    = (pb_fin, Returns tt) ∧
    (∀ f : FieldDescriptor, f ∈ fs →
       set_fields pb_fin !! name f = set_fields pb !! name f) ∧
    (∀ k, k ∉ name <$> fs → set_fields pb_fin !! k = set_fields pb_cur !! k).
Proof.
  revert pb_cur. induction fs as [|f fs IH]; intros pb_cur Hnd Hdec Hcur.
  { exists pb_cur. split; [done|]. split; [|done]. by intros f ?%elem_of_nil. }
  rewrite fmap_cons in Hnd. apply NoDup_cons in Hnd as [Hnotin Hnd].
  assert (Hother : ∀ f' : FieldDescriptor, f' ∈ fs → name f' ≠ name f).
  { intros f' Hf' Heq. apply Hnotin. rewrite <- Heq. apply list_elem_of_fmap. eauto. }
  set (pb1 := restore (name f) (set_fields pb !! name f) pb_cur).
  assert (Hpb1 : ∀ k, k ≠ name f → set_fields pb1 !! k = set_fields pb_cur !! k).
  { intros k Hk. unfold pb1, restore. destruct (set_fields pb !! name f); [|done].
    simpl. by rewrite lookup_insert_ne. }
  destruct (IH pb1 Hnd) as (pb_fin & Hloop & Hset & Hframe).
  { intros f' Hf'. apply Hdec. by right. }
  { intros f' Hf'. rewrite Hpb1 by auto. apply Hcur. by right. }
  exists pb_fin. cbn [for_each].
  rewrite (Hdec f (list_elem_of_here _ _) js pb_cur eq_refl (Hcur f (list_elem_of_here _ _))).
  fold pb1. split; [done|]. split.
  - intros f' [->|Hf']%elem_of_cons; [|by apply Hset].
    rewrite Hframe by done. unfold pb1, restore.
    destruct (set_fields pb !! name f) eqn:Hst.
    + simpl. by rewrite lookup_insert_eq.
    + apply Hcur. by left.
  - intros k Hk. rewrite fmap_cons, not_elem_of_cons in Hk. destruct Hk as [Hk1 Hk2].
    by rewrite Hframe, Hpb1.
Qed.

(** *** The round trip *)

Lemma field_roundtrip d pb use all (f : FieldDescriptor) js0 :
  wf_descriptor d →
  (∀ (f : FieldDescriptor) sub,
     f ∈ fields d → message_type f = Some sub →
     wf_descriptor sub → roundtrips use all sub) →
  everywhere typed d pb → everywhere submessages_nonempty d pb →
  FindInitializationErrors d pb = [] →
  (all = true → everywhere optional_set d pb) →
  f ∈ fields d → js0 !! name f = None →
  ∃ js1, pb2json_field pb2json pb use all f js0 = Returns js1 ∧
         (∀ k, k ≠ name f → js1 !! k = js0 !! k) ∧
         decodable (class_name d) use f (set_fields pb !! name f) (js1 !! name f).
Proof.
  intros Hwf IH Hty Hne Hinit Hopt Hf Hjs0.
  apply wf_descriptor_unfold in Hwf as [_ Hwf].
  pose proof (proj1 (Forall_forall _ _) Hwf f Hf) as Hwff.
  destruct (set_fields pb !! name f) as [fv|] eqn:Hset.
  2:{ eapply unset_field_roundtrip; eauto.
      intros Hall. by apply everywhere_here, Hopt. }
  pose proof (proj2 (everywhere_here _ _ _ Hty) f fv Hf Hset) as Hshape.
  assert (∃ j, pb2json_field pb2json pb use all f js0 = Returns (<[name f := j]> js0) ∧
               decodable (class_name d) use f (Some fv) (Some j))
    as (j & Henc & Hdec).
  { destruct (is_composite (type f)) eqn:Hc.
    - pose proof Hwff as Hwff'. unfold wf_field in Hwff'. rewrite Hc in Hwff'.
      destruct (message_type f) as [sub|] eqn:Hsub; [|done].
      destruct Hwff' as [Hname Hwfsub].
      eapply composite_field_roundtrip; eauto.
      + intros m ->. split.
        * by apply (everywhere_here _ _ _ Hne f m).
        * split; [by eapply everywhere_singular|].
          split; [by eapply everywhere_singular|].
          split; [by eapply initialized_singular|].
          intros Hall. eapply everywhere_singular; eauto.
      + intros xs m -> Hm.
        split; [by eapply everywhere_repeated|].
        split; [by eapply everywhere_repeated|].
        split; [by eapply initialized_repeated|].
        intros Hall. eapply everywhere_repeated; eauto.
    - by eapply scalar_field_roundtrip. }
  exists (<[name f := j]> js0). split; [done|].
  split; [intros k Hk; by rewrite lookup_insert_ne|].
  by rewrite lookup_insert_eq.
Qed.

Lemma pb2json_unfold d pb use all :
  pb2json d pb use all =
  fold_fields (pb2json_field pb2json pb use all) (fields d) ∅ ≫= λ js,
  match FindInitializationErrors d pb with
  | [] => Returns (JDict js)
  | init_errors => Raises (RequiredFieldMissing init_errors)
  end.
Proof. by destruct d. Qed.

Lemma encode_decode_roundtrip d use all :
  wf_descriptor d → roundtrips use all d.
Proof.
  induction d as [d IH] using Descriptor_tree_ind.
  intros Hwf pb Hty Hne Hinit Hopt.
  pose proof (proj1 (wf_descriptor_unfold d) Hwf) as [Hnd _].
  destruct (encode_loop (class_name d) pb use all (fields d) ∅)
    as (js & Henc & Hframe & Hdec); [|done|by intros f _|].
  { intros f js0 Hf Hjs0. by eapply field_roundtrip. }
  destruct (decode_loop (class_name d) pb use (fields d) js empty Hnd Hdec)
    as (pb_fin & Hloop & Hset & Hrest); [by intros f _|].
  exists js. rewrite pb2json_unfold, Henc. cbn [mbind outcome_bind].
  rewrite Hinit. split; [done|].
  rewrite json2pb_unfold. unfold json2pb_fields. rewrite Hloop.
  assert (pb_fin = pb) as ->.
  { destruct pb_fin as [s1], pb as [s2]. f_equal. apply map_eq. intros k.
    simpl in *. destruct (decide (k ∈ name <$> fields d)) as [Hk|Hk].
    - apply list_elem_of_fmap in Hk as (f & -> & Hf). by apply Hset.
    - rewrite (Hrest k Hk), lookup_empty.
      destruct (s2 !! k) eqn:Hs2; [|done].
      destruct Hk. apply (proj1 (everywhere_here _ _ _ Hty)). simpl. eauto. }
  simpl. by rewrite Hinit.
Qed.

(** C7, as the code has it: for a schema without message-set fields, and a
    message of it with no required field unset, with every optional field
    set when [all_fields] is on, and with no singular message field set to
    a message without fields, [pb2json] returns a mapping from which
    [json2pb], in the same enum mode and on a fresh message, returns the
    original message: every field equal, repeated fields in their order. *)
Theorem pb2json_json2pb_roundtrip d pb use all :
  wf_descriptor d →
  everywhere typed d pb →
  everywhere submessages_nonempty d pb →
  FindInitializationErrors d pb = [] →
  (all = true → everywhere optional_set d pb) →
  ∃ js, pb2json d pb use all = Returns (JDict js) ∧
        json2pb d empty (JDict js) use = (pb, Returns tt).
Proof. intros Hwf. by apply encode_decode_roundtrip. Qed.

End protobuf_json_facts.

(** *** The statements on the sample schema *)

Lemma json2pb_ignores_unknown_key_witness :
  json2pb sample.container_repr sample._MessageSetJson2Pb sample.Item empty
    (JDict (<["kind" := JStr "adexchangebuyer#creative"]> sample.with_id)) true
  = json2pb sample.container_repr sample._MessageSetJson2Pb sample.Item empty
      (JDict sample.with_id) true.
Proof.
  apply json2pb_ignores_unknown_key.
  intros field Hfield. cbn in Hfield.
  apply elem_of_cons in Hfield as [->|Hfield]; [done|].
  apply elem_of_cons in Hfield as [->|Hfield]; [done|].
  by apply elem_of_nil in Hfield.
Defined.

Lemma json2pb_required_field_missing_witness :
  (∃ pb' e,
     json2pb sample.container_repr sample._MessageSetJson2Pb sample.Item empty
       (JDict sample.without_id) true = (pb', Raises e) ∧
     ∀ pb1,
       json2pb_fields sample.container_repr sample._MessageSetJson2Pb
         sample.Item empty (JDict sample.without_id) true
       = (pb1, Returns tt) →
       ∃ init_errors, pb' = pb1 ∧ e = RequiredFieldMissing init_errors ∧
                      name sample.id_field ∈ init_errors) ∧
  (∀ pb0 js0 pb2,
     json2pb sample.container_repr sample._MessageSetJson2Pb sample.Item
       pb0 js0 true = (pb2, Returns tt) →
     FindInitializationErrors sample.Item pb2 = [] ∧
     ∀ f : FieldDescriptor, f ∈ fields sample.Item → label f = LABEL_REQUIRED →
          is_Some (set_fields pb2 !! name f)).
Proof.
  apply (json2pb_required_field_missing sample.container_repr
           sample._MessageSetJson2Pb sample.Item empty sample.without_id true
           sample.id_field).
  - cbn. left.
  - reflexivity.
  - reflexivity.
  - reflexivity.
Defined.

(** C6, as the claim states it, fails on the mapping [{"n": "abc"}]: the
    required [id] is missing, and what [json2pb] raises is the [ValueError]
    of [int("abc")], before the check for required fields is reached. *)
Lemma json2pb_conversion_error_before_check :
  sample.id_field ∈ fields sample.Item ∧
  label sample.id_field = LABEL_REQUIRED ∧
  sample.bad_n !! name sample.id_field = None ∧
  json2pb sample.container_repr sample._MessageSetJson2Pb sample.Item empty
    (JDict sample.bad_n) true = (empty, Raises ValueError) ∧
  ¬ ∃ pb' init_errors,
      json2pb sample.container_repr sample._MessageSetJson2Pb sample.Item empty
        (JDict sample.bad_n) true
      = (pb', Raises (RequiredFieldMissing init_errors)).
Proof.
  assert (Hrun : json2pb sample.container_repr sample._MessageSetJson2Pb
                   sample.Item empty (JDict sample.bad_n) true
                 = (empty, Raises ValueError)) by reflexivity.
  split; [cbn; left|]. split; [reflexivity|]. split; [reflexivity|].
  split; [exact Hrun|]. rewrite Hrun. intros (pb' & errs & Heq). discriminate Heq.
Qed.



Lemma enum_codec_fallbacks_witness :
  (∀ s,
     (∃ value_desc, value_desc ∈ values sample.Status ∧
        EnumValueDescriptor.name value_desc = s ∧
        _EnumNameToNumber sample.status_field (JStr s)
        = Returns (JInt (EnumValueDescriptor.number value_desc))) ∨
     ((∀ value_desc, value_desc ∈ values sample.Status →
         EnumValueDescriptor.name value_desc ≠ s) ∧
      _EnumNameToNumber sample.status_field (JStr s) = py_int (JStr s))) ∧
  (∀ n,
     (∃ value_desc, value_desc ∈ values sample.Status ∧
        EnumValueDescriptor.number value_desc = n ∧
        _EnumNumberToName sample.status_field (JInt n)
        = Returns (JStr (EnumValueDescriptor.name value_desc))) ∨
     ((∀ value_desc, value_desc ∈ values sample.Status →
         EnumValueDescriptor.number value_desc ≠ n) ∧
      _EnumNumberToName sample.status_field (JInt n) = Returns (JInt n))).
Proof.
  apply (enum_codec_fallbacks sample.status_field sample.Status).
  reflexivity.
Defined.

Lemma Item_wf : wf_descriptor sample.Item.
Proof.
  split.
  - cbn. apply NoDup_cons. split; [|apply NoDup_singleton].
    by intros ?%list_elem_of_singleton.
  - cbn. split; [|split; [|done]]; (split; [cbv [scalar_types]; set_solver | done]).
Qed.

Lemma Item_fields (f : FieldDescriptor) :
  f ∈ fields sample.Item → f = sample.id_field ∨ f = sample.n_field.
Proof.
  cbn. intros Hf.
  apply elem_of_cons in Hf as [->|Hf]; [by left|].
  apply elem_of_cons in Hf as [->|Hf]; [by right|].
  by apply elem_of_nil in Hf.
Qed.

Lemma full_item_fields k :
  is_Some (set_fields sample.full_item !! k) → k = "id" ∨ k = "n".
Proof.
  intros [fv Hk]. cbn in Hk.
  destruct (decide (k = "id")) as [->|Hid]; [by left|].
  rewrite lookup_insert_ne in Hk by done.
  apply lookup_singleton_Some in Hk as [<- _]. by right.
Qed.

Lemma full_item_typed : everywhere typed sample.Item sample.full_item.
Proof.
  split; [split|].
  - intros k [->| ->]%full_item_fields; cbn; set_solver.
  - intros f fv [->| ->]%Item_fields Hfv.
    + assert (fv = Singular (Value (JStr "a"))) as -> by (revert Hfv; by intros [= <-]).
      cbn. eexists. split; [done|]. by exists "a".
    + assert (fv = Singular (Value (JInt 5))) as -> by (revert Hfv; by intros [= <-]).
      cbn. eexists. split; [done|]. exists 5. split; [done|]. lia.
  - cbn. done.
Qed.

Lemma full_item_submessages :
  everywhere submessages_nonempty sample.Item sample.full_item.
Proof.
  split; [|cbn; done].
  intros f m [->| ->]%Item_fields Hm; revert Hm; by intros [=].
Qed.

Lemma full_item_optional :
  everywhere optional_set sample.Item sample.full_item.
Proof.
  split; [|cbn; done].
  intros f [->| ->]%Item_fields _; by eexists.
Qed.

Lemma pb2json_json2pb_roundtrip_witness :
  ∃ js, pb2json sample.container_repr sample._MessageSetPb2Json sample.Item
          sample.full_item true true = Returns (JDict js) ∧
        json2pb sample.container_repr sample._MessageSetJson2Pb sample.Item
          empty (JDict js) true = (sample.full_item, Returns tt).
Proof.
  apply (pb2json_json2pb_roundtrip sample.container_repr
           sample._MessageSetJson2Pb sample._MessageSetPb2Json
           sample.Item sample.full_item true true).
  - exact Item_wf.
  - exact full_item_typed.
  - exact full_item_submessages.
  - reflexivity.
  - intros _. exact full_item_optional.
Defined.

Lemma hollow_outer_optional : everywhere optional_set sample.Outer sample.hollow_outer.
Proof.
  split.
  - intros f Hf _. cbn in Hf.
    apply elem_of_cons in Hf as [->|Hf]; [by eexists|].
    by apply elem_of_nil in Hf.
  - cbn. split; [|done]. split; [|done].
    intros f Hf Hlabel. cbn in Hf.
    apply elem_of_cons in Hf as [->|Hf]; [done|].
    by apply elem_of_nil in Hf.
Qed.

(** C7, as the claim states it, fails on an [Outer] whose optional [inner]
    is set to a message without fields: every optional field is set and no
    required field is unset, [pb2json] gives [{"inner": {}}], and [json2pb]
    of that on a fresh message returns a message in which [inner] is not
    set. *)
Lemma hollow_outer_not_restored :
  everywhere optional_set sample.Outer sample.hollow_outer ∧
  FindInitializationErrors sample.Outer sample.hollow_outer = [] ∧
  pb2json sample.container_repr sample._MessageSetPb2Json sample.Outer
    sample.hollow_outer false false = Returns (JDict sample.hollow_json) ∧
  json2pb sample.container_repr sample._MessageSetJson2Pb sample.Outer
    empty (JDict sample.hollow_json) false = (empty, Returns tt) ∧
  HasField sample.hollow_outer "inner" = true ∧
  HasField empty "inner" = false ∧
  empty ≠ sample.hollow_outer.
Proof.
  split; [exact hollow_outer_optional|].
  repeat (split; [reflexivity|]).
  intros Heq. apply (f_equal (λ pb, HasField pb "inner")) in Heq.
  discriminate Heq.
Qed.

End protobuf_json_facts.

(** ** generate_ssr.py: the passes over an item *)

Module generate_ssr_props.
Import Py generate_ssr generate_ssr_spec PyFacts generate_ssr_facts.
Import generate_ssr_shape.

(** *** Equality of entries *)

Lemma dict_eq_true (eq : value → value → result bool) kvs d2 :
  dict_eq eq kvs d2 = Ok true →
  ∀ k v, (k, v) ∈ kvs → ∃ v2, d2 !! k = Some v2 ∧ eq v v2 = Ok true.
Proof.
  induction kvs as [|[k0 v0] kvs IH]; simpl.
  - intros _ k v ?%elem_of_nil. done.
  - destruct (d2 !! k0) as [v2|] eqn:Hk0; [|done].
    destruct (eq v0 v2) as [[]|] eqn:Heq; try done.
    intros Hrest k v [[= -> ->]|Hin]%elem_of_cons; eauto.
Qed.

(** Mappings that compare equal have the same keys. *)
Lemma dict_eq_lookup (eq : value → value → result bool) (d1 d2 : gmap string value) k v2 :
  size d1 = size d2 →
  dict_eq eq (map_to_list d1) d2 = Ok true →
  d2 !! k = Some v2 →
  ∃ v1, d1 !! k = Some v1 ∧ eq v1 v2 = Ok true.
Proof.
  intros Hsize Heq Hk.
  pose proof (dict_eq_true _ _ _ Heq) as Hall.
  assert (Hsub : dom d1 ⊆ dom d2).
  { intros k' [v' Hk']%elem_of_dom. apply elem_of_dom.
    destruct (Hall k' v') as (v2' & ? & _); [by apply elem_of_map_to_list|].
    eauto. }
  assert (Hdom : dom d1 = dom d2).
  { apply set_subseteq_size_eq; [done|]. rewrite !size_dom. lia. }
  assert (k ∈ dom d1) as [v1 Hv1]%elem_of_dom.
  { rewrite Hdom. apply elem_of_dom. eauto. }
  exists v1. split; [done|].
  destruct (Hall k v1) as (v2' & Hk' & Hv); [by apply elem_of_map_to_list|].
  congruence.
Qed.

(** An entry equal to a flashless entry is flashless. *)
Lemma py_eq_flashless limit h x y :
  is_Some (entry_at h y) → is_flashless h x = true →
  py_eq limit h y x = Ok true → is_flashless h y = true.
Proof.
  unfold is_flashless, entry_at.
  destruct y as [| | | |ly]; try (by intros [? ?]).
  destruct (h !! ly) as [[|ey]|] eqn:Hly; try (by intros [? ?]). intros _.
  destruct x as [| | | |lx]; try done.
  destruct (h !! lx) as [[|ex]|] eqn:Hlx; try done.
  intros Hx%bool_decide_eq_true.
  destruct (decide (ly = lx)) as [->|Hl].
  { intros _. rewrite Hly in Hlx. injection Hlx as ->.
    by apply bool_decide_eq_true. }
  destruct limit as [|limit]; cbn [py_eq];
    rewrite (bool_decide_eq_false_2 _ Hl), Hly, Hlx; [done|].
  case_bool_decide as Hsize; [|done]. intros Heq.
  destruct (dict_eq_lookup _ _ _ _ _ Hsize Heq Hx) as (v1 & Hv1 & Hv).
  rewrite py_eq_str in Hv. injection Hv as Hv%bool_decide_eq_true.
  subst v1. by apply bool_decide_eq_true.
Qed.

(** *** The loop of the removal *)

Lemma remove_first_inv (eq : value → result bool) cur cur' :
  remove_first eq cur = Ok (Some cur') →
  ∃ pre y post, cur = pre ++ y :: post ∧ cur' = pre ++ post ∧ eq y = Ok true.
Proof.
  revert cur'. induction cur as [|z cur IH]; intros cur'; simpl; [done|].
  destruct (eq z) as [[]|] eqn:Hz; [| |done].
  - intros [= <-]. by exists [], z, cur.
  - destruct (remove_first eq cur) as [[cur1|]|]; try done.
    intros [= <-]. destruct (IH cur1 eq_refl) as (pre & y & post & -> & -> & Hy).
    by exists (z :: pre), y, post.
Qed.

(** The scan for the item to remove stops at the first item that compares
    equal. *)
Lemma remove_first_at (eq : value → result bool) pre x post :
  Forall (λ y, eq y ≠ Ok true) pre → eq x = Ok true →
  remove_first eq (pre ++ x :: post) = Ok (Some (pre ++ post)) ∨
  ∃ e, remove_first eq (pre ++ x :: post) = Raise e.
Proof.
  intros Hpre Hx. induction Hpre as [|y pre Hy _ IH]; simpl.
  - rewrite Hx. by left.
  - destruct (eq y) as [[]|e]; [done| |eauto].
    destruct IH as [->|[e ->]]; eauto.
Qed.

Lemma remove_first_total (eq : value → result bool) cur x :
  x ∈ cur → eq x = Ok true → Forall (λ y, ∃ b, eq y = Ok b) cur →
  ∃ cur', remove_first eq cur = Ok (Some cur').
Proof.
  intros Hx Heq Hall. induction Hall as [|y cur [b Hy] _ IH]; simpl.
  - by apply elem_of_nil in Hx.
  - rewrite Hy. destruct b; [eauto|].
    apply elem_of_cons in Hx as [->|Hx]; [congruence|].
    destruct (IH Hx) as [cur' ->]. eauto.
Qed.

Lemma py_eq_same limit h l : py_eq limit h (VRef l) (VRef l) = Ok true.
Proof. destruct limit; cbn [py_eq]; by rewrite bool_decide_eq_true_2. Qed.

Lemma all_eq_total (eq : value → value → result bool) xs ys :
  (∀ x y, x ∈ xs → y ∈ ys → ∃ r, eq x y = Ok r) →
  ∃ r, all_eq eq xs ys = Ok r.
Proof.
  revert ys. induction xs as [|x xs IH]; intros [|y ys] Heq; simpl; eauto.
  destruct (Heq x y) as [[] ->]; [by left|by left| |eauto].
  apply IH. intros x' y' Hx' Hy'. apply Heq; by right.
Qed.

Lemma dict_eq_total (eq : value → value → result bool) kvs (d2 : gmap string value) :
  (∀ k v v2, (k, v) ∈ kvs → d2 !! k = Some v2 → ∃ r, eq v v2 = Ok r) →
  ∃ r, dict_eq eq kvs d2 = Ok r.
Proof.
  induction kvs as [|[k v] kvs IH]; intros Heq; simpl; [eauto|].
  destruct (d2 !! k) as [v2|] eqn:Hk; [|eauto].
  destruct (Heq k v v2) as [[] ->]; [by left|done| |eauto].
  apply IH. intros k' v' v2' Hin. apply Heq. by right.
Qed.

(** On data within the recursion limit [==] returns. *)
Lemma py_eq_total limit h n a b :
  (n ≤ limit)%nat → within n h a → within n h b →
  ∃ r, py_eq limit h a b = Ok r.
Proof.
  revert n a b. induction limit as [|limit IH]; intros n a b Hn Ha Hb.
  - destruct a as [| | | |la], b as [| | | |lb]; cbn [py_eq]; eauto.
    assert (n = 0%nat) as -> by lia. done.
  - destruct a as [| | | |la], b as [| | | |lb]; cbn [py_eq]; eauto.
    case_bool_decide; [eauto|].
    destruct n as [|n]; [done|]. cbn [within] in Ha, Hb.
    destruct (h !! la) as [[xs|d1]|]; [| |done];
      (destruct (h !! lb) as [[ys|d2]|]; [| |done]); eauto.
    + case_bool_decide; [|eauto]. apply all_eq_total.
      intros x y Hx Hy. apply (IH n); [lia| |].
      * by apply (proj1 (Forall_forall _ _) Ha).
      * by apply (proj1 (Forall_forall _ _) Hb).
    + case_bool_decide; [|eauto]. apply dict_eq_total.
      intros k v v2 Hin%elem_of_map_to_list Hk. apply (IH n); [lia| |].
      * by apply (Ha k).
      * by apply (Hb k).
Qed.

Lemma filter_Forall_id {A} (P : A → Prop) `{!∀ x, Decision (P x)} (l : list A) :
  Forall P l → filter P l = l.
Proof.
  induction 1 as [|x l Hx _ IH]; [done|].
  by rewrite filter_cons_True, IH.
Qed.

Lemma take_app_S {A} (pre post : list A) :
  take (S (length pre)) (pre ++ post) = pre ++ take 1 post.
Proof. induction pre as [|x pre IH]; [done|]. simpl in *. by f_equal. Qed.

Lemma drop_app_S {A} (pre post : list A) :
  drop (S (length pre)) (pre ++ post) = drop 1 post.
Proof. induction pre as [|x pre IH]; [done|]. done. Qed.

Lemma adjacent_free_tail p x xs :
  adjacent_free p (x :: xs) = true → adjacent_free p xs = true.
Proof. cbn [adjacent_free]. by intros [_ ?]%andb_true_iff. Qed.

Lemma adjacent_free_next p x y xs :
  adjacent_free p (x :: y :: xs) = true → p x = true → p y = false.
Proof.
  cbn [adjacent_free]. intros [Hxy _]%andb_true_iff Hx.
  rewrite Hx in Hxy. by destruct (p y).
Qed.

Section removal.
Context (limit : nat) (h : heap) (li ll : loc) (d : gmap string value)
        (items : list value).
Hypothesis Hitem : h !! li = Some (ODict d).
Hypothesis Hkey : d !! "snippet_correction" = Some (VRef ll).
Hypothesis Hlist : h !! ll = Some (OList items).
Hypothesis Hentries : Forall (λ v, is_Some (entry_at h v)) items.

#[local] Abbreviation during := (during h ll).

Lemma during_list cur : during cur !! ll = Some (OList cur).
Proof. apply list_lookup_insert_eq. by eapply lookup_lt_Some. Qed.

Lemma during_other cur l : l ≠ ll → during cur !! l = h !! l.
Proof. intros Hl. unfold generate_ssr_shape.during. by rewrite list_lookup_insert_ne. Qed.

Lemma during_item cur : during cur !! li = Some (ODict d).
Proof. rewrite during_other; [done|]. intros ->. congruence. Qed.

Lemma during_entry cur v : entry_at (during cur) v = entry_at h v.
Proof.
  destruct v as [| | | |l]; try done. unfold entry_at.
  destruct (decide (l = ll)) as [->|Hl].
  - by rewrite during_list, Hlist.
  - by rewrite during_other.
Qed.

Lemma during_flashless cur v : is_flashless (during cur) v = is_flashless h v.
Proof. unfold is_flashless. by rewrite during_entry. Qed.

Lemma during_during cur cur' : <[ll := OList cur']> (during cur) = during cur'.
Proof. apply list_insert_insert_eq. Qed.

(** One turn of the loop on an entry. *)
Lemma removal_body_run cur x :
  is_Some (entry_at h x) →
  removal_body limit (VRef li) x (during cur) =
  if is_flashless h x then
    match remove_first (λ y, py_eq limit (during cur) y x) cur with
    | Ok (Some cur') => (Ok None, during cur')
    | Ok None => (Raise ValueError, during cur)
    | Raise e => (Raise e, during cur)
    end
  else (Ok None, during cur).
Proof.
  intros [e He]. rewrite <- (during_flashless cur).
  unfold is_flashless. rewrite during_entry, He.
  rewrite <- (during_entry cur) in He. unfold entry_at in He.
  destruct x as [| | | |le]; try done.
  destruct (during cur !! le) as [[|e']|] eqn:Hle; try done.
  injection He as ->. unfold removal_body.
  rewrite (bind_ok _ _ _ _ _ (dict_get_dict _ _ _ _ Hle)).
  unfold lift at 1. rewrite bind_run, py_eq_str.
  destruct (e !! "type") as [t|] eqn:Ht; cbn [default from_option id].
  2:{ rewrite !bool_decide_eq_false_2 by done. done. }
  destruct (decide (t = VStr FLASHLESS_ATTRIBUTE)) as [->|Hne].
  2:{ rewrite !bool_decide_eq_false_2 by congruence. done. }
  rewrite !bool_decide_eq_true_2 by done.
  rewrite (bind_ok _ _ _ _ _
             (dict_getitem_dict _ _ _ _ _ (during_item cur) Hkey)).
  unfold list_remove.
  rewrite bind_run, (bind_ok _ _ _ _ _ (load_ref _ _ _ (during_list cur))).
  unfold lift. rewrite bind_run.
  destruct (remove_first _ cur) as [[cur'|]|err]; try done.
  unfold store. mstep. by rewrite during_during.
Qed.

Lemma entries_sublist cur :
  cur `sublist_of` items → Forall (λ v, is_Some (entry_at h v)) cur.
Proof.
  intros Hsub%sublist_subseteq. apply Forall_forall. intros v Hv.
  by apply (proj1 (Forall_forall _ _) Hentries), Hsub.
Qed.

(** What the loop keeps, however it ends. *)
Lemma removal_loop_keeps budget i cur r h' :
  cur `sublist_of` items →
  filter (λ v, is_flashless h v = false) cur
  = filter (λ v, is_flashless h v = false) items →
  for_list budget ll i (removal_body limit (VRef li)) (during cur) = (r, h') →
  ∃ items', h' = during items' ∧ items' `sublist_of` items ∧
            filter (λ v, is_flashless h v = false) items'
            = filter (λ v, is_flashless h v = false) items.
Proof.
  revert i cur. induction budget as [|budget IH]; intros i cur Hsub Hfilter;
    cbn [for_list]; rewrite during_list.
  - destruct (cur !! i); intros [= _ <-]; eauto.
  - destruct (cur !! i) as [x|] eqn:Hi; [|intros [= _ <-]; eauto].
    pose proof (entries_sublist _ Hsub) as Hcur.
    assert (Hx : is_Some (entry_at h x)).
    { apply (proj1 (Forall_forall _ _) Hcur). by eapply list_elem_of_lookup_2. }
    rewrite bind_run, (removal_body_run _ _ Hx).
    destruct (is_flashless h x) eqn:Hflash; [|by apply IH].
    destruct (remove_first _ cur) as [[cur'|]|e] eqn:Hrm;
      try (intros [= _ <-]; eauto).
    apply remove_first_inv in Hrm as (pre & y & post & -> & -> & Hy).
    apply IH.
    + etrans; [|exact Hsub]. apply sublist_app; [done|]. by apply sublist_cons.
    + rewrite <- Hfilter, !filter_app. f_equal. rewrite filter_cons_False; [done|].
      assert (is_flashless h y = true) as ->; [|done].
      rewrite <- (during_flashless (pre ++ y :: post)).
      eapply py_eq_flashless; [| |exact Hy].
      * rewrite during_entry. apply (proj1 (Forall_forall _ _) Hcur).
        apply elem_of_app. right. by left.
      * by rewrite during_flashless.
Qed.

(** With no two flashless entries next to each other, a loop that returns
    has removed them all. *)
Lemma removal_loop_complete budget i cur r0 h' :
  cur `sublist_of` items →
  filter (λ v, is_flashless h v = false) cur
  = filter (λ v, is_flashless h v = false) items →
  Forall (λ v, is_flashless h v = false) (take i cur) →
  adjacent_free (is_flashless h) (drop i cur) = true →
  for_list budget ll i (removal_body limit (VRef li)) (during cur) = (Ok r0, h') →
  h' = during (filter (λ v, is_flashless h v = false) items).
Proof.
  revert i cur. induction budget as [|budget IH];
    intros i cur Hsub Hfilter Hdone Hrest; cbn [for_list]; rewrite during_list.
  - destruct (cur !! i) eqn:Hi; [done|]. intros [= _ <-].
    rewrite take_ge in Hdone by (by apply lookup_ge_None_1).
    by rewrite <- Hfilter, (filter_Forall_id _ _ Hdone).
  - destruct (cur !! i) as [x|] eqn:Hi.
    2:{ intros [= _ <-].
        rewrite take_ge in Hdone by (by apply lookup_ge_None_1).
        by rewrite <- Hfilter, (filter_Forall_id _ _ Hdone). }
    pose proof (entries_sublist _ Hsub) as Hcur.
    assert (Hx : is_Some (entry_at h x)).
    { apply (proj1 (Forall_forall _ _) Hcur). by eapply list_elem_of_lookup_2. }
    rewrite (drop_S _ _ _ Hi) in Hrest.
    rewrite bind_run, (removal_body_run _ _ Hx).
    destruct (is_flashless h x) eqn:Hflash.
    2:{ apply IH; [done|done| |by eapply adjacent_free_tail].
        rewrite (take_S_r _ _ _ Hi). apply Forall_app. split; [done|].
        by constructor. }
    pose proof (take_drop_middle _ _ _ Hi) as Hsplit.
    assert (Hlen : length (take i cur) = i).
    { apply length_take_le. apply lookup_lt_Some in Hi. lia. }
    remember (take i cur) as pre eqn:Hpre.
    remember (drop (S i) cur) as post eqn:Hpost.
    clear Hpre Hpost.
    destruct Hx as [ex Hex]. destruct x as [| | | |le]; try done.
    pose proof (remove_first_at (λ y, py_eq limit (during cur) y (VRef le)) pre
                  (VRef le) post) as Hrm.
    rewrite Hsplit in Hrm. destruct Hrm as [Hrm|[e Hrm]].
    { apply Forall_forall. intros y Hy Heq.
      assert (is_flashless h y = true) as Hy'.
      { rewrite <- (during_flashless cur).
        eapply py_eq_flashless; [| |exact Heq].
        - rewrite during_entry. apply (proj1 (Forall_forall _ _) Hcur).
          rewrite <- Hsplit. apply elem_of_app. by left.
        - by rewrite during_flashless. }
      by rewrite (proj1 (Forall_forall _ _) Hdone y Hy) in Hy'. }
    { apply py_eq_same. }
    2:{ by rewrite Hrm. }
    rewrite Hrm. subst cur. subst i.
    apply IH.
    + etrans; [|exact Hsub].
      apply sublist_app; [done|]. by apply sublist_cons.
    + rewrite <- Hfilter, !filter_app. f_equal.
      rewrite filter_cons_False; [done|]. by rewrite Hflash.
    + rewrite take_app_S. apply Forall_app. split; [done|].
      destruct post as [|y post']; [done|]. cbn [take]. constructor; [|done].
      by eapply adjacent_free_next.
    + rewrite drop_app_S. destruct post as [|y post']; [done|]. cbn [drop].
      by apply adjacent_free_tail in Hrest as ?%adjacent_free_tail.
Qed.

Lemma within_during n cur v :
  cur `sublist_of` items → within n h v → within n (during cur) v.
Proof.
  intros Hsub%sublist_subseteq. revert v.
  induction n as [|n IH]; intros [| | | |l]; try done. cbn [within].
  destruct (decide (l = ll)) as [->|Hl].
  - rewrite during_list, Hlist. intros Hall. apply Forall_forall.
    intros x Hx. by apply IH, (proj1 (Forall_forall _ _) Hall), Hsub.
  - rewrite (during_other _ _ Hl). destruct (h !! l) as [[xs|m]|]; [| |done].
    + intros Hall. eapply Forall_impl; [done|]. apply IH.
    + intros Hall. eapply map_Forall_impl; [done|]. intros k v. apply IH.
Qed.

(** On data within the recursion limit the loop returns. *)
Lemma removal_loop_returns n budget i cur r h' :
  (n ≤ limit)%nat → Forall (within n h) items →
  cur `sublist_of` items → (length cur ≤ i + budget)%nat →
  for_list budget ll i (removal_body limit (VRef li)) (during cur) = (r, h') →
  ∃ r0, r = Ok r0.
Proof.
  intros Hn Hdepth. revert i cur.
  induction budget as [|budget IH]; intros i cur Hsub Hlen;
    cbn [for_list]; rewrite during_list.
  - rewrite lookup_ge_None_2 by lia. intros [= <- _]. eauto.
  - destruct (cur !! i) as [x|] eqn:Hi; [|intros [= <- _]; eauto].
    pose proof (entries_sublist _ Hsub) as Hcur.
    assert (Hx : is_Some (entry_at h x)).
    { apply (proj1 (Forall_forall _ _) Hcur). by eapply list_elem_of_lookup_2. }
    rewrite bind_run, (removal_body_run _ _ Hx).
    destruct (is_flashless h x); [|apply IH; [done|lia]].
    assert (Hdeep : ∀ y, y ∈ cur → within n (during cur) y).
    { intros y Hy. apply within_during; [done|].
      apply (proj1 (Forall_forall _ _) Hdepth).
      by apply (sublist_subseteq _ _ Hsub). }
    destruct (remove_first_total (λ y, py_eq limit (during cur) y x) cur x)
      as [cur' Hrm].
    { by eapply list_elem_of_lookup_2. }
    { destruct Hx as [ex Hex]. destruct x; try done. apply py_eq_same. }
    { apply Forall_forall. intros y Hy. apply (py_eq_total _ _ n); [done|..].
      - by apply Hdeep.
      - apply Hdeep. by eapply list_elem_of_lookup_2. }
    rewrite Hrm.
    apply remove_first_inv in Hrm as (pre & y & post & -> & -> & _).
    apply IH.
    + etrans; [|exact Hsub]. apply sublist_app; [done|]. by apply sublist_cons.
    + rewrite length_app in *. cbn [length] in Hlen. lia.
Qed.

Lemma removal_run r h' :
  run (_RemoveFlashlessAttributeCorrection limit (VRef li)) h = (r, h') →
  ∃ r', for_list (length items) ll 0 (removal_body limit (VRef li)) (during items)
        = (r', h') ∧
        r = match r' with Ok _ => Ok tt | Raise e => Raise e end.
Proof.
  unfold run, _RemoveFlashlessAttributeCorrection.
  rewrite (bind_ok _ _ _ _ _ (dict_get_dict _ _ _ _ Hitem)), Hkey.
  rewrite bind_run. unfold py_for.
  rewrite (bind_ok _ _ _ _ _ (load_ref _ _ _ Hlist)).
  assert (during items = h) as ->.
  { unfold generate_ssr_shape.during. by apply list_insert_id. }
  change (for_list (length items) ll 0 _ h)
    with (for_list (length items) ll 0 (removal_body limit (VRef li)) h).
  destruct (for_list _ _ _ _ h) as [[r'|e] h1]; intros [= <- <-]; eauto.
Qed.

End removal.

(** X1: whatever [_RemoveFlashlessAttributeCorrection] does and however
    it ends, it changes nothing but the list of corrections, the list it
    leaves is a sublist of the one it found, and every entry whose 'type'
    is not FLASHLESS_ATTRIBUTE is still in it, in the original order. *)
Theorem RemoveFlashless_keeps_others limit h li ll d items r h' :
  h !! li = Some (ODict d) →
  d !! "snippet_correction" = Some (VRef ll) →
  h !! ll = Some (OList items) →
  Forall (λ v, is_Some (entry_at h v)) items →
  run (_RemoveFlashlessAttributeCorrection limit (VRef li)) h = (r, h') →
  ∃ items', h' = <[ll := OList items']> h ∧
            items' `sublist_of` items ∧
            filter (λ v, is_flashless h v = false) items'
            = filter (λ v, is_flashless h v = false) items.
Proof.
  intros Hitem Hkey Hlist Hentries Hrun.
  destruct (removal_run _ _ _ _ _ _ Hitem Hkey Hlist _ _ Hrun) as (r' & Hloop & _).
  by eapply removal_loop_keeps.
Qed.

(** X2: on JSON data within the recursion limit
    [_RemoveFlashlessAttributeCorrection] returns: the comparisons of
    [list.remove] end, and the entry to remove is in the list. *)
Theorem RemoveFlashless_returns limit n h li ll d items :
  h !! li = Some (ODict d) →
  d !! "snippet_correction" = Some (VRef ll) →
  h !! ll = Some (OList items) →
  Forall (λ v, is_Some (entry_at h v)) items →
  (n ≤ limit)%nat → Forall (within n h) items →
  ∃ h', run (_RemoveFlashlessAttributeCorrection limit (VRef li)) h = (Ok tt, h').
Proof.
  intros Hitem Hkey Hlist Hentries Hn Hdepth.
  destruct (run _ h) as [r h'] eqn:Hrun. exists h'.
  destruct (removal_run _ _ _ _ _ _ Hitem Hkey Hlist _ _ Hrun) as (r' & Hloop & ->).
  assert (∃ r0, r' = Ok r0) as [r0 ->]; [|done].
  eapply removal_loop_returns; try eassumption; [done|simpl; lia].
Qed.

(** X3: when no two entries of type FLASHLESS_ATTRIBUTE are next to each
    other in the list, [_RemoveFlashlessAttributeCorrection] removes them
    all: on JSON data within the recursion limit it returns, and the list
    it leaves holds the other entries, in their order, and nothing else. *)
Theorem RemoveFlashless_complete limit n h li ll d items :
  h !! li = Some (ODict d) →
  d !! "snippet_correction" = Some (VRef ll) →
  h !! ll = Some (OList items) →
  Forall (λ v, is_Some (entry_at h v)) items →
  (n ≤ limit)%nat → Forall (within n h) items →
  adjacent_free (is_flashless h) items = true →
  run (_RemoveFlashlessAttributeCorrection limit (VRef li)) h
  = (Ok tt, <[ll := OList (filter (λ v, is_flashless h v = false) items)]> h).
Proof.
  intros Hitem Hkey Hlist Hentries Hn Hdepth Hfree.
  destruct (run _ h) as [r h'] eqn:Hrun.
  destruct (removal_run _ _ _ _ _ _ Hitem Hkey Hlist _ _ Hrun) as (r' & Hloop & ->).
  assert (∃ r0, r' = Ok r0) as [r0 ->].
  { eapply removal_loop_returns; try eassumption; [done|simpl; lia]. }
  f_equal. eapply removal_loop_complete; try eassumption; done.
Qed.

(** *** _IsSSLCapable after the removal *)

Lemma entries_exist h items :
  Forall (λ v, is_Some (entry_at h v)) items →
  ∃ entries, Forall2 (dict_at h) items entries ∧
    ∀ field s,
      Exists (λ e : gmap string value, e !! field = Some (VStr s)) entries ↔
      Exists (λ v, has_field h field s v = true) items.
Proof.
  induction 1 as [|v items [e He] _ (entries & Hent & Hex)].
  - exists []. split; [constructor|]. intros. by rewrite !Exists_nil.
  - exists (e :: entries). split.
    + constructor; [|done]. unfold entry_at in He.
      destruct v as [| | | |l]; try done.
      destruct (h !! l) as [[|m]|] eqn:Hl; try done.
      injection He as ->. by exists l.
    + intros field s. rewrite !Exists_cons, Hex.
      assert (has_field h field s v = bool_decide (e !! field = Some (VStr s)))
        as -> by (unfold has_field; by rewrite He).
      by rewrite bool_decide_eq_true.
Qed.

(** The result of [_IsSSLCapable], computed from the item. *)
Lemma IsSSLCapable_value limit h item d attribute reasons corrections :
  h !! item = Some (ODict d) →
  seq_at h d "attribute" attribute →
  seq_at h d "disapproval_reason" reasons →
  Forall (λ v, is_Some (entry_at h v)) reasons →
  seq_at h d "snippet_correction" corrections →
  Forall (λ v, is_Some (entry_at h v)) corrections →
  run (_IsSSLCapable limit (VRef item)) h
  = (Ok (bool_decide
           (VInt RICH_MEDIA_CAPABILITY_SSL ∈ attribute ∧
            ¬ Exists (λ v, has_field h "reason" INVALID_SSL_DECLARATION v = true)
                reasons ∧
            ¬ Exists (λ v, has_field h "type" SSL_ATTRIBUTE v = true)
                corrections)), h).
Proof.
  intros Hitem Hattr Hdr Hreasons Hsc Hcorr.
  destruct (entries_exist _ _ Hreasons) as (er & Her & Hexr).
  destruct (entries_exist _ _ Hcorr) as (ec & Hec & Hexc).
  unfold run, _IsSSLCapable.
  rewrite (bind_ok _ _ _ _ _ (dict_get_dict _ _ _ _ Hitem)).
  rewrite (bind_ok _ _ _ _ _ (scan_attribute limit _ _ _ Hattr)).
  case_bool_decide as Ha; simpl.
  2:{ rewrite bool_decide_eq_false_2; [done|]. tauto. }
  rewrite (bind_ok _ _ _ _ _ (dict_get_dict _ _ _ _ Hitem)).
  rewrite (bind_ok _ _ _ _ _ (scan_entries limit _ _ _ _ _ _ _ Hdr Her)).
  case_bool_decide as Hr.
  { rewrite bool_decide_eq_false_2; [done|]. rewrite <- Hexr. tauto. }
  rewrite (bind_ok _ _ _ _ _ (dict_get_dict _ _ _ _ Hitem)).
  rewrite (bind_ok _ _ _ _ _ (scan_entries limit _ _ _ _ _ _ _ Hsc Hec)).
  case_bool_decide as Hc.
  { rewrite bool_decide_eq_false_2; [done|]. rewrite <- Hexc. tauto. }
  rewrite bool_decide_eq_true_2; [done|]. rewrite <- Hexr, <- Hexc. tauto.
Qed.

Lemma has_field_during h ll items cur field s v :
  h !! ll = Some (OList items) →
  has_field (during h ll cur) field s v = has_field h field s v.
Proof. intros Hlist. unfold has_field. by rewrite (during_entry _ _ _ Hlist). Qed.

Lemma seq_at_during h ll items cur d key xs :
  h !! ll = Some (OList items) →
  d !! key ≠ Some (VRef ll) →
  seq_at h d key xs → seq_at (during h ll cur) d key xs.
Proof.
  intros Hlist Hkey. unfold seq_at. destruct (d !! key) as [v|]; [|done].
  intros (l & -> & Hl). exists l. split; [done|].
  rewrite (during_other h ll); [done|]. congruence.
Qed.

Lemma flashless_not_ssl h v :
  has_field h "type" SSL_ATTRIBUTE v = true → is_flashless h v = false.
Proof.
  unfold has_field, is_flashless. destruct (entry_at h v) as [m|]; [|done].
  intros Hm%bool_decide_eq_true. apply bool_decide_eq_false_2.
  rewrite Hm. by intros [=].
Qed.

(** X4: the removal does not change what [_IsSSLCapable] returns.  On an
    item whose three sequences are different lists, with mappings as
    reasons and corrections, [_IsSSLCapable] returns the same value on the
    store [_RemoveFlashlessAttributeCorrection] leaves, however that ended,
    as on the store it found: no entry of type SSL_ATTRIBUTE is removed. *)
Theorem IsSSLCapable_after_removal limit limit' h li ll d attribute reasons
    items r h' :
  h !! li = Some (ODict d) →
  seq_at h d "attribute" attribute →
  seq_at h d "disapproval_reason" reasons →
  Forall (λ v, is_Some (entry_at h v)) reasons →
  d !! "snippet_correction" = Some (VRef ll) →
  h !! ll = Some (OList items) →
  Forall (λ v, is_Some (entry_at h v)) items →
  d !! "attribute" ≠ Some (VRef ll) →
  d !! "disapproval_reason" ≠ Some (VRef ll) →
  run (_RemoveFlashlessAttributeCorrection limit (VRef li)) h = (r, h') →
  ∃ b, run (_IsSSLCapable limit' (VRef li)) h = (Ok b, h) ∧
       run (_IsSSLCapable limit' (VRef li)) h' = (Ok b, h').
Proof.
  intros Hitem Hattr Hdr Hreasons Hkey Hlist Hentries Hna Hnd Hrun.
  destruct (removal_run _ _ _ _ _ _ Hitem Hkey Hlist _ _ Hrun) as (r' & Hloop & _).
  eapply removal_loop_keeps in Hloop as (items' & -> & Hsub & Hfilter);
    try eassumption; try done.
  assert (Hsc : seq_at h d "snippet_correction" items).
  { unfold seq_at. rewrite Hkey. eauto. }
  eexists. split.
  { by apply (IsSSLCapable_value limit' h li d attribute reasons items). }
  rewrite (IsSSLCapable_value limit' _ li d attribute reasons items').
  - f_equal. f_equal. apply bool_decide_ext.
    assert (Hsame :
      Exists (λ v, has_field (during h ll items') "type" SSL_ATTRIBUTE v = true) items'
      ↔ Exists (λ v, has_field h "type" SSL_ATTRIBUTE v = true) items).
    { rewrite !list.Exists_exists. split.
      - intros (v & Hv & Hhit). exists v.
        rewrite (has_field_during _ _ _ _ _ _ _ Hlist) in Hhit.
        split; [|done]. by apply (sublist_subseteq _ _ Hsub).
      - intros (v & Hv & Hhit). exists v.
        rewrite (has_field_during _ _ _ _ _ _ _ Hlist). split; [|done].
        assert (v ∈ filter (λ v, is_flashless h v = false) items) as Hin.
        { apply list_elem_of_filter. split; [|done]. by apply flashless_not_ssl. }
        rewrite <- Hfilter in Hin. by apply list_elem_of_filter in Hin as [_ ?]. }
    rewrite Hsame.
    assert (Hreason :
      Exists (λ v, has_field (during h ll items') "reason"
                     INVALID_SSL_DECLARATION v = true) reasons
      ↔ Exists (λ v, has_field h "reason" INVALID_SSL_DECLARATION v = true)
          reasons).
    { apply Exists_proper; [|done]. intros v.
      by rewrite (has_field_during _ _ _ _ _ _ _ Hlist). }
    by rewrite Hreason.
  - eapply during_item; eassumption.
  - by eapply seq_at_during.
  - by eapply seq_at_during.
  - eapply Forall_impl; [exact Hreasons|]. intros v.
    by rewrite (during_entry _ _ _ Hlist).
  - unfold seq_at. rewrite Hkey. exists ll. split; [done|].
    eapply during_list; eassumption.
  - eapply Forall_impl; [eapply entries_sublist; eassumption|]. intros v.
    by rewrite (during_entry _ _ _ Hlist).
Qed.

(** *** _ReplaceKey *)

(** X5: [_ReplaceKey] moves the value under [old_key] to [new_key],
    replacing what was under [new_key], and leaves every other key and
    every other object as it was; a mapping without [old_key] is left as
    it is, and no exception is raised. *)
Theorem ReplaceKey_moves_value h l m old_key new_key :
  h !! l = Some (ODict m) →
  ∃ m', run (_ReplaceKey (VRef l) old_key new_key) h
        = (Ok tt, <[l := ODict m']> h) ∧
        match m !! old_key with
        | None => m' = m
        | Some v =>
            m' !! new_key = Some v ∧
            (old_key ≠ new_key → m' !! old_key = None) ∧
            ∀ k, k ≠ old_key → k ≠ new_key → m' !! k = m !! k
        end.
Proof.
  intros Hl. unfold run. rewrite (ReplaceKey_run _ _ _ _ _ Hl).
  destruct (m !! old_key) as [v|] eqn:Hold.
  - eexists. split; [done|]. split; [by rewrite lookup_insert_eq|]. split.
    + intros Hne. by rewrite lookup_insert_ne, lookup_delete_eq.
    + intros k Hk1 Hk2. by rewrite lookup_insert_ne, lookup_delete_ne.
  - exists m. split; [|done]. by rewrite list_insert_id.
Qed.

(** *** What the traversal keeps, for any table *)

(** What a run of [_ReplaceKey] does to the store. *)
Lemma ReplaceKey_cases json old new h r h' :
  _ReplaceKey json old new h = (r, h') →
  h' = h ∨
  ∃ l m v, h !! l = Some (ODict m) ∧ m !! old = Some v ∧
           h' = <[l := ODict (<[new := v]> (delete old m))]> h.
Proof.
  destruct json as [| | |s|l].
  1-3: unfold _ReplaceKey, dict_contains, load; mstep; intros [= _ <-]; by left.
  - unfold _ReplaceKey, dict_contains, load. mstep.
    destruct (is_substring old s); unfold dict_pop, load; mstep;
      intros [= _ <-]; by left.
  - destruct (h !! l) as [[xs|m]|] eqn:Hl.
    + unfold _ReplaceKey, dict_contains, load. mstep. rewrite Hl. mstep.
      case_bool_decide; unfold dict_pop, load; mstep; rewrite ?Hl; mstep;
        intros [= _ <-]; by left.
    + rewrite (ReplaceKey_run _ _ _ _ _ Hl). intros [= _ <-].
      destruct (m !! old) as [v|] eqn:Hold; [|by left].
      right. by exists l, m, v.
    + unfold _ReplaceKey, dict_contains, load. mstep. rewrite Hl.
      intros [= _ <-]; by left.
Qed.

Section traversal.
Context (Rel : heap → heap → Prop) `{!PreOrder Rel}.
Context (translation : gmap string string).
Hypothesis Rel_rename : ∀ h l m old new v p,
  translation !! (p +:+ old) = Some new →
  h !! l = Some (ODict m) → m !! old = Some v →
  Rel h (<[l := ODict (<[new := v]> (delete old m))]> h).

#[local] Abbreviation preserves := (preserves Rel).

Lemma dict_getitem_keeps d key : preserves (dict_getitem d key).
Proof.
  unfold dict_getitem. apply preserves_bind; [done|by apply preserves_load|].
  intros [[l [xs|m]]|]; try by apply preserves_raise.
  destruct (m !! key); [by apply preserves_ret|by apply preserves_raise].
Qed.

Lemma ReplaceJSONFields_keeps limit json p :
  preserves (_ReplaceJSONFields limit json translation p).
Proof.
  revert json p. induction limit as [|limit IH]; intros json p; simpl.
  { by apply preserves_raise. }
  apply preserves_bind; [done|by apply preserves_load|].
  intros [[l [items|m]]|].
  - apply preserves_bind; [done| |intros; by apply preserves_ret].
    apply preserves_for_list; [done|]. intros x.
    apply preserves_bind; [done|by apply IH|].
    intros; by apply preserves_ret.
  - apply preserves_bind; [done| |intros; by apply preserves_ret].
    apply preserves_for_seq; [done|]. intros f _.
    destruct (translation !! (p +:+ f)) as [nk|] eqn:Hnk;
      [|by apply preserves_ret].
    apply preserves_bind; [done| |intros _].
    { intros h r h' [->|(l' & m' & v & Hl & Hm & ->)]%ReplaceKey_cases;
        [reflexivity|]. by eapply Rel_rename. }
    apply preserves_bind; [done|apply dict_getitem_keeps|intros child].
    apply preserves_bind; [done|apply IH|intros; by apply preserves_ret].
  - by apply preserves_ret.
Qed.

End traversal.

Lemma renamed_preorder : PreOrder renamed.
Proof.
  split.
  - intros h l. destruct (h !! l) as [[xs|m]|]; try done.
    exists m. split; [done|]. eauto.
  - intros h1 h2 h3 H12 H23 l. specialize (H12 l). specialize (H23 l).
    destruct (h1 !! l) as [[xs|m]|].
    + by rewrite H12 in H23.
    + destruct H12 as (m2 & H2 & Hr12). rewrite H2 in H23.
      destruct H23 as (m3 & H3 & Hr23).
      exists m3. split; [done|]. intros k' v Hv.
      destruct (Hr23 _ _ Hv) as [k2 Hk2]. eauto.
    + by rewrite H12 in H23.
Qed.

Lemma key_kept_preorder k : PreOrder (key_kept k).
Proof.
  split.
  - intros h l. destruct (h !! l) as [[xs|m]|]; try done. eauto.
  - intros h1 h2 h3 H12 H23 l. specialize (H12 l). specialize (H23 l).
    destruct (h1 !! l) as [[xs|m]|].
    + by rewrite H12 in H23.
    + destruct H12 as (m2 & H2 & Hr12). rewrite H2 in H23.
      destruct H23 as (m3 & H3 & Hr23).
      exists m3. split; [done|]. congruence.
    + by rewrite H12 in H23.
Qed.

Lemma renamed_store h l m m' :
  h !! l = Some (ODict m) →
  (∀ k' v, m' !! k' = Some v → ∃ k, m !! k = Some v) →
  renamed h (<[l := ODict m']> h).
Proof.
  intros Hl Hm l'. destruct (decide (l = l')) as [<-|Hne].
  - rewrite Hl, list_lookup_insert_eq by (by eapply lookup_lt_Some). eauto.
  - rewrite list_lookup_insert_ne by done.
    destruct (h !! l') as [[xs|m2]|]; eauto.
Qed.

Lemma key_kept_store k h l m m' :
  h !! l = Some (ODict m) → m' !! k = m !! k →
  key_kept k h (<[l := ODict m']> h).
Proof.
  intros Hl Hm l'. destruct (decide (l = l')) as [<-|Hne].
  - rewrite Hl, list_lookup_insert_eq by (by eapply lookup_lt_Some). eauto.
  - rewrite list_lookup_insert_ne by done.
    destruct (h !! l') as [[xs|m2]|]; eauto.
Qed.

(** X6: [_ReplaceJSONFields] only renames, for every table and prefix and
    however it ends: the store has the same objects, every list is as it
    was, and every mapping is a mapping whose values are values it had
    before the pass. *)
Theorem ReplaceJSONFields_only_renames limit json translation prefix h r h' :
  run (_ReplaceJSONFields limit json translation prefix) h = (r, h') →
  renamed h h'.
Proof.
  apply (ReplaceJSONFields_keeps renamed (PreOrder0 := renamed_preorder)).
  intros h0 l m old new v p _ Hl Hold.
  eapply renamed_store; [done|].
  intros k' v' Hv'. destruct (decide (new = k')) as [->|Hne].
  - rewrite lookup_insert_eq in Hv'. injection Hv' as <-. eauto.
  - rewrite lookup_insert_ne in Hv' by done.
    apply lookup_delete_Some in Hv' as [_ Hv']. eauto.
Qed.

Lemma tails_app p k : k ∈ tails (p +:+ k).
Proof.
  induction p as [|c p IH].
  - destruct k; left.
  - change (String c p +:+ k) with (String c (p +:+ k)). cbn [tails]. by right.
Qed.

(** X7: a key that is out of the reach of the table (no entry renames to
    it and no path of the table ends with it) is never touched: after
    [_ReplaceJSONFields], however it ends, every mapping of the store has
    under that key the value it had. *)
Theorem ReplaceJSONFields_keeps_key limit json translation prefix k h r h' :
  out_of_reach translation k →
  run (_ReplaceJSONFields limit json translation prefix) h = (r, h') →
  key_kept k h h'.
Proof.
  intros Hout.
  apply (ReplaceJSONFields_keeps (key_kept k) (PreOrder0 := key_kept_preorder k)).
  intros h0 l m old new v p Hentry Hl Hold.
  destruct (Hout _ _ Hentry) as [Hnew Htail].
  eapply key_kept_store; [done|].
  rewrite lookup_insert_ne by done. rewrite lookup_delete_ne; [done|].
  intros ->. apply Htail, tails_app.
Qed.

(** *** The copy of the item *)

Lemma dicts_kept_preorder : PreOrder dicts_kept.
Proof.
  split; [by intros h l m|]. intros h1 h2 h3 H12 H23 l m Hl. auto.
Qed.

#[local] Existing Instance dicts_kept_preorder.

Lemma pure_preserves (Rel : heap → heap → Prop) `{!PreOrder Rel} {A}
    (m : M A) :
  (∀ h, (m h).2 = h) → preserves Rel m.
Proof.
  intros Hpure h r h' Hm. specialize (Hpure h). rewrite Hm in Hpure.
  simpl in Hpure. by subst h'.
Qed.

Lemma dict_get_preserves (Rel : heap → heap → Prop) `{!PreOrder Rel} d key :
  preserves Rel (dict_get d key).
Proof.
  apply pure_preserves; [done|]. intros h. unfold dict_get, load. mstep.
  destruct d as [| | | |l]; try done. by destruct (h !! l) as [[|]|].
Qed.

Lemma load_inv v h r h1 :
  load v h = (r, h1) →
  h1 = h ∧ ∀ l o, r = Ok (Some (l, o)) → h !! l = Some o.
Proof.
  unfold load. destruct v as [| | | |l0]; try (intros [= <- <-]; by split).
  destruct (h !! l0) as [o0|] eqn:Hl; intros [= <- <-]; split; try done.
  by intros l o [= <- <-].
Qed.

Lemma list_remove_keeps_dicts limit lst x :
  preserves dicts_kept (list_remove limit lst x).
Proof.
  intros h r h'. unfold list_remove.
  intros [(o & h1 & Hload & Hrest)|(e & Hload & _)]%bind_inv.
  2:{ apply load_inv in Hload as [-> _]. reflexivity. }
  apply load_inv in Hload as [-> Ho].
  destruct o as [[l [items|m]]|]; try (injection Hrest as _ <-; reflexivity).
  specialize (Ho l (OList items) eq_refl).
  revert Hrest. unfold lift. rewrite bind_run.
  destruct (remove_first _ items) as [[items'|]|e]; intros [= _ <-];
    try reflexivity.
  intros l' m Hl'. rewrite list_lookup_insert_ne; [done|]. congruence.
Qed.

Lemma RemoveFlashless_keeps_dicts limit item :
  preserves dicts_kept (_RemoveFlashlessAttributeCorrection limit item).
Proof.
  unfold _RemoveFlashlessAttributeCorrection.
  apply preserves_bind; [apply _|apply dict_get_preserves; apply _|].
  intros [corrections|]; [|apply preserves_ret; apply _].
  apply preserves_bind; [apply _| |intros; apply preserves_ret; apply _].
  apply preserves_py_for; [apply _|]. intros x.
  apply preserves_bind; [apply _|apply dict_get_preserves; apply _|intros type].
  apply preserves_bind; [apply _|apply preserves_lift; apply _|intros [|]];
    [|apply preserves_ret; apply _].
  apply preserves_bind; [apply _|apply dict_getitem_keeps; apply _|intros lst].
  apply preserves_bind; [apply _|apply list_remove_keeps_dicts|].
  intros; apply preserves_ret; apply _.
Qed.

(** X8: the copy that [GenerateSnippetStatusReportPBObject] takes shares
    everything below the top level with the item.  When the rename pass,
    the copy and the removal have run, the copy and the item are two
    objects, mappings with the same keys and the same value objects: the
    list the removal has changed is the list the copy holds, so what
    [json2pb] and [_IsSSLCapable] read from the copy is the state after
    the removal. *)
Theorem translate_item_copy_aliases limit item h copy h' :
  run (translate_item limit item) h = (Ok copy, h') →
  ∃ li lc m, item = VRef li ∧ copy = VRef lc ∧ li ≠ lc ∧
             h' !! li = Some (ODict m) ∧ h' !! lc = Some (ODict m) ∧
             ∀ key, items_under h' copy key = items_under h' item key.
Proof.
  unfold run, translate_item.
  intros (u & h1 & _ & Hrest)%bind_inv_ok.
  apply bind_inv_ok in Hrest as (c & h2 & Hcopy & Hrest).
  apply bind_inv_ok in Hrest as (u' & h3 & Hremove & Hret).
  injection Hret as <- <-.
  revert Hcopy. unfold dict_copy, load, alloc. mstep.
  destruct item as [| | | |li]; try done.
  destruct (h1 !! li) as [[|m]|] eqn:Hli; try done. intros [= <- <-].
  assert (Hlt : (li < length h1)%nat) by (by eapply lookup_lt_Some).
  pose proof (RemoveFlashless_keeps_dicts _ _ _ _ _ Hremove) as Hkept.
  assert (H1 : h3 !! li = Some (ODict m)).
  { apply Hkept. by rewrite lookup_app_l. }
  assert (H2 : h3 !! length h1 = Some (ODict m)).
  { apply Hkept. by rewrite lookup_app_r, Nat.sub_diag. }
  exists li, (length h1), m. split; [done|]. split; [done|].
  split; [lia|]. split; [done|]. split; [done|].
  intros key. unfold items_under. by rewrite H1, H2.
Qed.

(** *** On the examples *)

Import sample_stores.

Lemma flat_entry h l (k : string) (s : string) n :
  h !! l = Some (ODict {[ k := VStr s ]}) → within (S n) h (VRef l).
Proof.
  intros Hl. cbn [within]. rewrite Hl. apply map_Forall_singleton.
  by destruct n.
Qed.

Lemma RemoveFlashless_keeps_others_witness :
  ∃ items', <[1%nat := OList [VRef 3]]> two_sentinels
            = <[1%nat := OList items']> two_sentinels ∧
            items' `sublist_of` [VRef 2; VRef 3] ∧
            filter (λ v, is_flashless two_sentinels v = false) items'
            = filter (λ v, is_flashless two_sentinels v = false)
                [VRef 2; VRef 3].
Proof.
  apply (RemoveFlashless_keeps_others 1 two_sentinels 0 1
           {[ "snippet_correction" := VRef 1 ]} [VRef 2; VRef 3]
           (Ok tt) (<[1%nat := OList [VRef 3]]> two_sentinels)).
  - reflexivity.
  - reflexivity.
  - reflexivity.
  - repeat constructor; by eexists.
  - vm_compute. reflexivity.
Defined.

Lemma RemoveFlashless_returns_witness :
  ∃ h', run (_RemoveFlashlessAttributeCorrection 1 (VRef 0)) two_sentinels
        = (Ok tt, h').
Proof.
  apply (RemoveFlashless_returns 1 1 two_sentinels 0 1
           {[ "snippet_correction" := VRef 1 ]} [VRef 2; VRef 3]).
  - reflexivity.
  - reflexivity.
  - reflexivity.
  - repeat constructor; by eexists.
  - lia.
  - repeat constructor; by eapply flat_entry.
Defined.

Lemma RemoveFlashless_complete_witness :
  run (_RemoveFlashlessAttributeCorrection 1 (VRef 0)) spaced_sentinels
  = (Ok tt,
     <[1%nat := OList (filter (λ v, is_flashless spaced_sentinels v = false)
                         [VRef 2; VRef 3; VRef 4])]> spaced_sentinels).
Proof.
  apply (RemoveFlashless_complete 1 1 spaced_sentinels 0 1
           {[ "snippet_correction" := VRef 1 ]} [VRef 2; VRef 3; VRef 4]).
  - reflexivity.
  - reflexivity.
  - reflexivity.
  - repeat constructor; by eexists.
  - lia.
  - repeat constructor; by eapply flat_entry.
  - vm_compute. reflexivity.
Defined.

Lemma IsSSLCapable_after_removal_witness :
  ∃ b, run (_IsSSLCapable 1 (VRef 0)) ssl_flashless_item
       = (Ok b, ssl_flashless_item) ∧
       run (_IsSSLCapable 1 (VRef 0))
         (<[4%nat := OList [VRef 6]]> ssl_flashless_item)
       = (Ok b, <[4%nat := OList [VRef 6]]> ssl_flashless_item).
Proof.
  apply (IsSSLCapable_after_removal 1 1 ssl_flashless_item 0 4
           ssl_flashless_dict [VInt RICH_MEDIA_CAPABILITY_SSL] [VRef 3]
           [VRef 5; VRef 6] (Ok tt)).
  - reflexivity.
  - exists 1%nat. split; reflexivity.
  - exists 2%nat. split; reflexivity.
  - repeat constructor; by eexists.
  - reflexivity.
  - reflexivity.
  - repeat constructor; by eexists.
  - discriminate.
  - discriminate.
  - vm_compute. reflexivity.
Defined.

Lemma ReplaceKey_moves_value_witness :
  ∃ m', run (_ReplaceKey (VRef 0) "old" "new") old_foo
        = (Ok tt, <[0%nat := ODict m']> old_foo) ∧
        match ({[ "old" := VStr "foo" ]} : gmap string value) !! "old" with
        | None => m' = {[ "old" := VStr "foo" ]}
        | Some v =>
            m' !! "new" = Some v ∧
            ("old" ≠ "new" → m' !! "old" = None) ∧
            ∀ k, k ≠ "old" → k ≠ "new" →
                 m' !! k = ({[ "old" := VStr "foo" ]} : gmap string value) !! k
        end.
Proof.
  apply (ReplaceKey_moves_value old_foo 0 {[ "old" := VStr "foo" ]} "old" "new").
  reflexivity.
Defined.

Lemma ReplaceJSONFields_only_renames_witness :
  renamed (corrections_input ["a"]) (corrections_output ["a"]).
Proof.
  apply (ReplaceJSONFields_only_renames 8 (VRef 0) KEY_TRANSLATION ""
           (corrections_input ["a"]) (Ok tt) (corrections_output ["a"])).
  vm_compute. reflexivity.
Defined.

Lemma out_of_reach_kind : out_of_reach KEY_TRANSLATION "kind".
Proof.
  assert (Hall : Forall (λ kv : string * string,
                           kv.2 ≠ "kind" ∧ "kind" ∉ tails kv.1)
                   KEY_TRANSLATION_items).
  { apply (bool_decide_unpack _). vm_compute. exact I. }
  intros x nk Hx%lookup_translation.
  by apply (proj1 (Forall_forall _ _) Hall (x, nk)).
Qed.

Lemma ReplaceJSONFields_keeps_key_witness :
  key_kept "kind" (corrections_input ["a"]) (corrections_output ["a"]).
Proof.
  apply (ReplaceJSONFields_keeps_key 8 (VRef 0) KEY_TRANSLATION "" "kind"
           (corrections_input ["a"]) (Ok tt) (corrections_output ["a"])).
  - exact out_of_reach_kind.
  - vm_compute. reflexivity.
Defined.

Lemma translate_item_copy_aliases_witness :
  ∃ li lc m, VRef 0 = VRef li ∧ VRef 3 = VRef lc ∧ li ≠ lc ∧
             flashless_copied !! li = Some (ODict m) ∧
             flashless_copied !! lc = Some (ODict m) ∧
             ∀ key, items_under flashless_copied (VRef 3) key
                    = items_under flashless_copied (VRef 0) key.
Proof.
  apply (translate_item_copy_aliases 4 (VRef 0) flashless_item (VRef 3)
           flashless_copied).
  vm_compute. reflexivity.
Defined.

End generate_ssr_props.

(** ** generate_ssr.py: the report as CSV *)

Module generate_ssr_csv_props.
Import Builtins protobuf protobuf_json generate_ssr_csv.

Section generate_ssr_csv_props.
Context `{PyFloat}.
Variable PrintFieldValue : FieldDescriptor → Element → string.
Variable SnippetStatusItem : Descriptor.

#[local] Abbreviation active_fields := (active_fields SnippetStatusItem).
#[local] Abbreviation header_row := (header_row SnippetStatusItem).
#[local] Abbreviation SnippetStatusColumns :=
  (SnippetStatusColumns PrintFieldValue SnippetStatusItem).
#[local] Abbreviation write_rows := (write_rows PrintFieldValue SnippetStatusItem).
#[local] Abbreviation WriteSnippetStatusReportInCSV :=
  (WriteSnippetStatusReportInCSV PrintFieldValue SnippetStatusItem).

Lemma mapM_length {A B} (g : A → outcome B) xs ys :
  mapM g xs = Returns ys → length ys = length xs.
Proof.
  revert ys. induction xs as [|x xs IH]; intros ys; cbn [mapM].
  - by intros [= <-].
  - destruct (g x) as [y|]; [|done]. cbn.
    destruct (mapM g xs) as [ys'|]; [|done]. cbn. intros [= <-].
    cbn. by rewrite (IH ys').
Qed.

Lemma columns_length snippet_status columns :
  SnippetStatusColumns snippet_status = Returns columns →
  length columns = length header_row.
Proof.
  intros Hc%mapM_length. unfold generate_ssr_csv.header_row.
  by rewrite length_fmap.
Qed.

Lemma write_rows_rectangular statuses rows r :
  write_rows statuses = (rows, r) →
  Forall (λ row, length row = length header_row) rows ∧
  (length rows ≤ length statuses)%nat ∧
  (r = Returns tt → length rows = length statuses).
Proof.
  revert rows r. induction statuses as [|x statuses IH]; intros rows r;
    cbn [generate_ssr_csv.write_rows].
  - intros [= <- <-]. split; [constructor|]. done.
  - destruct x as [v|snippet_status].
    { intros [= <- <-]. split; [constructor|]. split; [simpl; lia|done]. }
    destruct (SnippetStatusColumns snippet_status) as [columns|e] eqn:Hc.
    2:{ intros [= <- <-]. split; [constructor|]. split; [simpl; lia|done]. }
    destruct (write_rows statuses) as [rows' r'] eqn:Hrest.
    intros [= <- <-]. destruct (IH _ _ eq_refl) as (Hall & Hle & Hlen).
    split; [|split].
    + constructor; [by eapply columns_length|done].
    + simpl. lia.
    + intros Hr. simpl. by rewrite Hlen.
Qed.

(** X9: the CSV report is a table.  When the stream is there,
    [WriteSnippetStatusReportInCSV] writes the header first, which names
    the fields that are not deprecated in the order of the descriptor, and
    every row after it has as many columns as the header; when the
    function returns there is one row for each snippet status of the
    report.  Without a stream nothing is written. *)
Theorem csv_report_is_table report report_csv rows r :
  WriteSnippetStatusReportInCSV report report_csv = (rows, r) →
  if report_csv then
    ∃ body, rows = header_row :: body ∧
      Forall (λ name, String.prefix "DEPRECATED_" name = false) header_row ∧
      Forall (λ row, length row = length header_row) body ∧
      (r = Returns tt →
       length body = length (get_repeated report "snippet_status"))
  else rows = [] ∧ r = Returns tt.
Proof.
  unfold generate_ssr_csv.WriteSnippetStatusReportInCSV.
  destruct report_csv; cbn [negb]; [|by intros [= <- <-]].
  destruct (write_rows _) as [body r'] eqn:Hrows. intros [= <- <-].
  destruct (write_rows_rectangular _ _ _ Hrows) as (Hall & _ & Hlen).
  exists body. split; [done|]. split; [|done].
  unfold generate_ssr_csv.header_row, generate_ssr_csv.active_fields.
  apply Forall_fmap, Forall_forall. intros f Hf.
  by apply list_elem_of_filter in Hf as [? _].
Qed.

End generate_ssr_csv_props.

(** *** On the examples *)

Import sample_report.

Lemma csv_report_is_table_witness :
  ∃ body, [["id"; "xs"]; ["a"; "[1;2]"]; ["b"; "[]"]]
          = header_row Row :: body ∧
    Forall (λ name, String.prefix "DEPRECATED_" name = false) (header_row Row) ∧
    Forall (λ row, length row = length (header_row Row)) body ∧
    (Returns tt = Returns tt →
     length body = length (get_repeated two_rows "snippet_status")).
Proof.
  apply (csv_report_is_table print_value Row two_rows true
           [["id"; "xs"]; ["a"; "[1;2]"]; ["b"; "[]"]] (Returns tt)).
  reflexivity.
Defined.

End generate_ssr_csv_props.

(** ** protobuf_json.py: further properties of the codec *)

Module protobuf_json_props.
Import Builtins protobuf protobuf_json protobuf_json_spec protobuf_json_facts.

Section protobuf_json_props.
Context `{PyFloat}.
Variable container_repr : json → string.
Variable _MessageSetJson2Pb : Message → json → bool → Message * outcome unit.
Variable _MessageSetPb2Json : Message → bool → bool → outcome json.

#[local] Abbreviation json2pb := (json2pb container_repr _MessageSetJson2Pb).
#[local] Abbreviation json2pb_fields :=
  (json2pb_fields container_repr _MessageSetJson2Pb).
#[local] Abbreviation json2pb_field :=
  (json2pb_field container_repr _MessageSetJson2Pb).
#[local] Abbreviation choose_ftype := (choose_ftype container_repr).
#[local] Abbreviation pb2json := (pb2json container_repr _MessageSetPb2Json).
#[local] Abbreviation pb2json_field :=
  (pb2json_field container_repr _MessageSetPb2Json).
#[local] Abbreviation _Pb2JsonConverter :=
  (_Pb2JsonConverter container_repr _MessageSetPb2Json).

#[local] Existing Instance same_but_preorder.
#[local] Existing Instance same_at_preorder.
#[local] Existing Instance keeps_fields_preorder.

(** *** The decode loop, field by field *)

Lemma check_initialized_message d r pb1 r1 :
  check_initialized d r = (pb1, r1) → r.1 = pb1.
Proof.
  destruct r as [pb [[]|e]]; simpl; [|by intros [= <- _]].
  destruct (FindInitializationErrors d pb); by intros [= <- _].
Qed.

Lemma json2pb_message d pb js use pb1 r :
  json2pb d pb js use = (pb1, r) →
  ∃ r', json2pb_fields d pb js use = (pb1, r').
Proof.
  rewrite json2pb_unfold. intros Hc.
  destruct (json2pb_fields d pb js use) as [pb2 r2] eqn:Hloop.
  apply check_initialized_message in Hc. simpl in Hc. subst pb2. eauto.
Qed.

Lemma json2pb_returns d pb js use pb1 :
  json2pb d pb js use = (pb1, Returns tt) →
  json2pb_fields d pb js use = (pb1, Returns tt).
Proof.
  rewrite json2pb_unfold. by intros [? _]%check_initialized_returns.
Qed.

(** The turn of one field in a loop that finishes: the step of the field
    returns, starts from the value the field had before the loop and leaves
    the value it has after the loop. *)
Lemma json2pb_fields_turn d pb js use (f : FieldDescriptor) pb1 :
  NoDup (name <$> fields d) → f ∈ fields d →
  json2pb_fields d pb js use = (pb1, Returns tt) →
  ∃ pb2 pb3,
    json2pb_field json2pb (class_name d) js use f pb2 = (pb3, Returns tt) ∧
    set_fields pb2 !! name f = set_fields pb !! name f ∧
    set_fields pb1 !! name f = set_fields pb3 !! name f.
Proof.
  intros Hnodup Hf Hloop. unfold protobuf_json.json2pb_fields in Hloop.
  apply list_elem_of_split in Hf as (fs1 & fs2 & Hfs).
  rewrite Hfs in Hloop, Hnodup.
  rewrite fmap_app, fmap_cons in Hnodup.
  apply NoDup_app in Hnodup as (_ & Hdisj & Hnodup).
  apply NoDup_cons in Hnodup as [Hnotin _].
  rewrite for_each_app in Hloop.
  match type of Hloop with
  | context [for_each ?body fs1 pb] =>
      destruct (for_each body fs1 pb) as [pb2 [[]|e]] eqn:Hbefore; [|done]
  end.
  cbn [for_each] in Hloop.
  match type of Hloop with
  | context [protobuf_json.json2pb_field ?c ?ms ?rec ?o ?j ?u f pb2] =>
      destruct (protobuf_json.json2pb_field c ms rec o j u f pb2)
        as [pb3 [[]|e]] eqn:Hstep; [|done]
  end.
  exists pb2, pb3. split; [done|]. split.
  - revert Hbefore. apply (for_each_rel (same_at (name f))).
    intros g pb4 pb5 r Hg Hg_step.
    apply (json2pb_field_same_but _ _ _ _ _ _ _ _ _ _ Hg_step).
    intros Heq. apply (Hdisj (name f)); [|by left].
    rewrite Heq. apply list_elem_of_fmap. eauto.
  - revert Hloop. apply (for_each_rel (same_at (name f))).
    intros g pb4 pb5 r Hg Hg_step.
    apply (json2pb_field_same_but _ _ _ _ _ _ _ _ _ _ Hg_step).
    intros Heq. apply Hnotin. rewrite Heq. apply list_elem_of_fmap. eauto.
Qed.

(** *** A mapping that names no field, and fields the mapping does not name *)

Lemma json2pb_fields_no_key d pb m use :
  (∀ f : FieldDescriptor, f ∈ fields d → m !! name f = None) →
  json2pb_fields d pb (JDict m) use = (pb, Returns tt).
Proof.
  unfold protobuf_json.json2pb_fields. generalize (fields d) as fs.
  induction fs as [|f fs IH]; intros Hm; [done|].
  cbn [for_each]. rewrite json2pb_field_absent by (apply Hm; by left).
  apply IH. intros g Hg. apply Hm. by right.
Qed.

(** X10: a mapping none of whose keys names a field of the message (the
    empty mapping, for one) leaves the message as it is; [json2pb] then
    returns when the message is initialized and raises
    [RequiredFieldMissing] with its initialization errors when not. *)
Theorem json2pb_no_field_in_mapping d pb m use :
  (∀ f : FieldDescriptor, f ∈ fields d → m !! name f = None) →
  json2pb d pb (JDict m) use
  = (pb, match FindInitializationErrors d pb with
         | [] => Returns tt
         | init_errors => Raises (RequiredFieldMissing init_errors)
         end).
Proof.
  intros Hm. rewrite json2pb_unfold, (json2pb_fields_no_key _ _ _ _ Hm).
  simpl. by destruct (FindInitializationErrors d pb).
Qed.

(** X11: [json2pb] writes only to fields the mapping names: a field whose
    name is not a key of the mapping has after the call the value it had
    before, however the call ends. *)
Theorem json2pb_unmentioned_field d pb m use k pb1 r :
  m !! k = None →
  json2pb d pb (JDict m) use = (pb1, r) →
  set_fields pb1 !! k = set_fields pb !! k.
Proof.
  intros Hm [r' Hloop]%json2pb_message. revert Hloop.
  unfold protobuf_json.json2pb_fields.
  apply (for_each_rel (same_at k)).
  intros f pb2 pb3 r2 _ Hstep. unfold same_at.
  destruct (decide (name f = k)) as [Heq|Hne].
  - rewrite json2pb_field_absent in Hstep by (by rewrite Heq).
    by injection Hstep as <- _.
  - by apply (json2pb_field_same_but _ _ _ _ _ _ _ _ _ _ Hstep), not_eq_sym.
Qed.

(** *** Repeated fields *)

Lemma for_each_convert_appends ftype t name vs pb pb' :
  for_each (λ v pb,
      match convert ftype t v with
      | Returns x => (append pb name (Value x), Returns tt)
      | Raises e => (pb, Raises e)
      end) vs pb = (pb', Returns tt) →
  ∃ xs, mapM (convert ftype t) vs = Returns xs ∧
        get_repeated pb' name = get_repeated pb name ++ (Value <$> xs).
Proof.
  revert pb. induction vs as [|v vs IH]; intros pb; cbn [for_each].
  - intros [= <-]. exists []. split; [done|]. by rewrite app_nil_r.
  - cbn [mapM]. destruct (convert ftype t v) as [x|e]; [|done].
    intros (xs & Hxs & Hget)%IH. exists (x :: xs). rewrite Hxs.
    split; [done|]. rewrite Hget, get_repeated_append, <- app_assoc. done.
Qed.

Lemma get_repeated_same pb pb' name :
  set_fields pb' !! name = set_fields pb !! name →
  get_repeated pb' name = get_repeated pb name.
Proof. unfold get_repeated. by intros ->. Qed.

Lemma scalar_not_set (f : FieldDescriptor) :
  is_composite (type f) = false → _IsMessageSet f = false.
Proof.
  unfold is_composite, _IsMessageSet. intros Hc%bool_decide_eq_false.
  rewrite bool_decide_eq_false_2; [done|]. tauto.
Qed.

(** X12: decoding appends to a repeated scalar field.  When the mapping
    gives a list for the field and [json2pb] returns, the field holds the
    elements it held before followed by the converted items of the list, in
    the order of the list. *)
Theorem json2pb_appends_repeated d pb m use (f : FieldDescriptor) vs pb1 :
  NoDup (name <$> fields d) → f ∈ fields d →
  label f = LABEL_REPEATED → is_composite (type f) = false →
  m !! name f = Some (JList vs) →
  json2pb d pb (JDict m) use = (pb1, Returns tt) →
  ∃ ftype xs,
    choose_ftype (class_name d) f use = Returns ftype ∧
    mapM (convert ftype (type f)) vs = Returns xs ∧
    get_repeated pb1 (name f) = get_repeated pb (name f) ++ (Value <$> xs).
Proof.
  intros Hnodup Hf Hlabel Hscalar Hm Hret%json2pb_returns.
  destruct (json2pb_fields_turn _ _ _ _ _ _ Hnodup Hf Hret)
    as (pb2 & pb3 & Hstep & Hbefore & Hafter).
  revert Hstep. unfold protobuf_json.json2pb_field.
  cbn [py_contains py_getitem]. rewrite Hm.
  rewrite bool_decide_eq_true_2 by eauto.
  destruct (choose_ftype _ _ _) as [ftype|]; [|done]. cbn [or_raise py_iter].
  rewrite (bool_decide_eq_true_2 _ Hlabel).
  rewrite (scalar_not_set _ Hscalar), Hscalar.
  intros (xs & Hxs & Hget)%for_each_convert_appends.
  exists ftype, xs. split; [done|]. split; [done|].
  by rewrite (get_repeated_same _ _ _ Hafter), Hget,
    (get_repeated_same _ _ _ Hbefore).
Qed.

(** *** Singular fields *)

(** What a finished loop has written to a singular scalar field that the
    mapping names: the converted value. *)
Lemma json2pb_sets_scalar d pb m use (f : FieldDescriptor) js_value pb1 :
  NoDup (name <$> fields d) → f ∈ fields d →
  label f ≠ LABEL_REPEATED → is_composite (type f) = false →
  m !! name f = Some js_value →
  json2pb d pb (JDict m) use = (pb1, Returns tt) →
  ∃ ftype x,
    choose_ftype (class_name d) f use = Returns ftype ∧
    convert ftype (type f) js_value = Returns x ∧
    set_fields pb1 !! name f = Some (Singular (Value x)).
Proof.
  intros Hnodup Hf Hlabel Hscalar Hm Hret%json2pb_returns.
  destruct (json2pb_fields_turn _ _ _ _ _ _ Hnodup Hf Hret)
    as (pb2 & pb3 & Hstep & Hbefore & Hafter).
  revert Hstep. unfold protobuf_json.json2pb_field.
  cbn [py_contains py_getitem]. rewrite Hm.
  rewrite bool_decide_eq_true_2 by eauto.
  destruct (choose_ftype _ _ _) as [ftype|]; [|done]. cbn [or_raise].
  rewrite (bool_decide_eq_false_2 _ Hlabel).
  rewrite (scalar_not_set _ Hscalar), Hscalar.
  destruct (convert ftype (type f) js_value) as [x|] eqn:Hx; [|done].
  intros [= <-]. exists ftype, x. split; [done|]. split; [done|].
  rewrite Hafter. unfold set_value. simpl. by rewrite lookup_insert_eq.
Qed.

(** X13: a singular message field is not marked as set by a mapping that
    writes nothing into it.  When the field is unset, the value under its
    name is a mapping that names no field of the sub-message (as [{}]), and
    [json2pb] returns, the field is still unset: [HasField] is false. *)
Theorem json2pb_hollow_submessage d pb m use (f : FieldDescriptor) sub m' pb1 :
  NoDup (name <$> fields d) → f ∈ fields d →
  label f ≠ LABEL_REPEATED → is_composite (type f) = true →
  message_type f = Some sub → _IsMessageSet f = false →
  set_fields pb !! name f = None →
  m !! name f = Some (JDict m') →
  (∀ g : FieldDescriptor, g ∈ fields sub → m' !! name g = None) →
  json2pb d pb (JDict m) use = (pb1, Returns tt) →
  HasField pb1 (name f) = false.
Proof.
  intros Hnodup Hf Hlabel Hcomp Hsub Hms Hunset Hm Hm' Hret%json2pb_returns.
  destruct (json2pb_fields_turn _ _ _ _ _ _ Hnodup Hf Hret)
    as (pb2 & pb3 & Hstep & Hbefore & Hafter).
  revert Hstep. unfold protobuf_json.json2pb_field.
  cbn [py_contains py_getitem]. rewrite Hm.
  rewrite bool_decide_eq_true_2 by eauto.
  destruct (choose_ftype _ _ _) as [ftype|]; [|done]. cbn [or_raise].
  rewrite (bool_decide_eq_false_2 _ Hlabel), Hms, Hcomp, Hsub.
  rewrite Hunset in Hbefore.
  unfold get_message, put_message. rewrite Hbefore.
  rewrite json2pb_unfold, (json2pb_fields_no_key _ _ _ _ Hm').
  unfold check_initialized. cbn [fst snd].
  destruct (FindInitializationErrors sub empty); [|done].
  assert (is_empty empty = true) as -> by done.
  intros [= <-]. unfold HasField. rewrite Hafter, Hbefore.
  apply bool_decide_eq_false_2. by intros [? ?].
Qed.

(** *** Encoding *)

(** X14: [pb2json] never returns a mapping for a message that is not
    initialized (a required field unset, in the message or in a message
    set below it): it raises, and when the loop over the fields has
    finished what it raises is [RequiredFieldMissing] with the
    initialization errors. *)
Theorem pb2json_uninitialized d pb use all :
  FindInitializationErrors d pb ≠ [] →
  ∃ e, pb2json d pb use all = Raises e ∧
       ∀ js, fold_fields (pb2json_field pb2json pb use all) (fields d) ∅
             = Returns js →
             e = RequiredFieldMissing (FindInitializationErrors d pb).
Proof.
  intros Herr. rewrite pb2json_unfold.
  destruct (fold_fields _ _ _) as [js|e]; cbn [mbind outcome_bind].
  - destruct (FindInitializationErrors d pb) as [|e1 es]; [done|]. eauto.
  - exists e. split; [done|]. by intros js.
Qed.

Lemma bind_insert_inv (m : outcome json) k (js js1 : gmap string json) :
  (m ≫= λ v, Returns (<[k := v]> js)) = Returns js1 →
  ∃ v, js1 = <[k := v]> js.
Proof. destruct m as [v|]; [|done]. intros [= <-]. eauto. Qed.

(** A step of the encode loop writes the key of its field, when it writes. *)
Lemma pb2json_field_keys rec pb use all (f : FieldDescriptor) js js1 :
  pb2json_field rec pb use all f js = Returns js1 →
  (∀ k, k ≠ name f → js1 !! k = js !! k) ∧
  (is_Some (js1 !! name f) ↔
     is_Some (js !! name f) ∨ all = true ∨ is_Some (listed pb (name f))) ∧
  (all = true → label f = LABEL_OPTIONAL → set_fields pb !! name f = None →
   js1 !! name f = Some JNone).
Proof.
  unfold protobuf_json.pb2json_field.
  assert (Hwritten : ∀ v, js1 = <[name f := v]> js →
    (all = true ∨ is_Some (listed pb (name f))) →
    (∀ k, k ≠ name f → js1 !! k = js !! k) ∧
    (is_Some (js1 !! name f) ↔
       is_Some (js !! name f) ∨ all = true ∨ is_Some (listed pb (name f)))).
  { intros v -> Hturn. split.
    - intros k Hk. by rewrite lookup_insert_ne.
    - rewrite lookup_insert_eq. split; eauto. }
  destruct (if all then Some (getattr pb f) else listed pb (name f))
    as [value|] eqn:Hvalue.
  2:{ destruct all; [done|]. intros [= <-]. split; [done|]. split; [|done].
      rewrite Hvalue. split; [eauto|]. intros [?|[?|[? ?]]]; done. }
  assert (Hturn : all = true ∨ is_Some (listed pb (name f))).
  { destruct all; [by left|]. right. rewrite Hvalue. eauto. }
  destruct (all && bool_decide (label f = LABEL_OPTIONAL)
            && negb (HasField pb (name f))) eqn:Hguard.
  - intros [= <-].
    destruct (Hwritten JNone eq_refl Hturn) as [? ?].
    split; [done|]. split; [done|]. intros _ _ _. by rewrite lookup_insert_eq.
  - destruct (protobuf_json._Pb2JsonConverter _ _ _ _ _ _) as [ftype|];
      [|done]. cbn [mbind outcome_bind].
    intros [v Hv]%bind_insert_inv.
    destruct (Hwritten v Hv Hturn) as [? ?].
    split; [done|]. split; [done|]. intros -> Hlabel Hunset.
    unfold HasField in Hguard. rewrite Hunset in Hguard.
    rewrite (bool_decide_eq_true_2 _ Hlabel) in Hguard.
    rewrite (bool_decide_eq_false_2 (is_Some None)) in Hguard by (by intros [? ?]).
    done.
Qed.

Lemma fold_fields_keys rec pb use all fs js0 js :
  fold_fields (pb2json_field rec pb use all) fs js0 = Returns js →
  ∀ k, is_Some (js !! k) ↔
       is_Some (js0 !! k) ∨
       ∃ f : FieldDescriptor,
         f ∈ fs ∧ name f = k ∧ (all = true ∨ is_Some (listed pb k)).
Proof.
  revert js0. induction fs as [|f fs IH]; intros js0; cbn [fold_fields].
  - intros [= <-] k. split; [eauto|].
    intros [?|(f & ?%elem_of_nil & _)]; done.
  - destruct (pb2json_field rec pb use all f js0) as [js1|] eqn:Hstep; [|done].
    cbn [mbind outcome_bind]. intros Hrest k.
    destruct (pb2json_field_keys _ _ _ _ _ _ _ Hstep) as (Hframe & Hkey & _).
    rewrite (IH _ Hrest k). split.
    + intros [Hk|(g & Hg & <- & Hturn)].
      * destruct (decide (k = name f)) as [->|Hne].
        -- apply Hkey in Hk as [?|Hturn]; [by left|].
           right. exists f. split; [by left|]. done.
        -- left. by rewrite <- Hframe.
      * right. exists g. split; [by right|]. done.
    + intros [Hk|(g & [->|Hg]%elem_of_cons & <- & Hturn)].
      * left. destruct (decide (k = name f)) as [->|Hne].
        -- apply Hkey. by left.
        -- by rewrite Hframe.
      * left. apply Hkey. by right.
      * right. exists g. done.
Qed.

(** X15: the keys of the mapping [pb2json] returns.  With [all_fields] they
    are the names of all fields of the descriptor; without, the names of
    the fields [ListFields] lists: the singular fields that are set and the
    repeated fields that have elements. *)
Theorem pb2json_keys d pb use all js :
  pb2json d pb use all = Returns (JDict js) →
  ∀ k, is_Some (js !! k) ↔
       ∃ f : FieldDescriptor,
         f ∈ fields d ∧ name f = k ∧ (all = true ∨ is_Some (listed pb k)).
Proof.
  rewrite pb2json_unfold.
  destruct (fold_fields _ _ _) as [js1|] eqn:Hloop; [|done].
  cbn [mbind outcome_bind].
  destruct (FindInitializationErrors d pb); [|done].
  intros [= <-] k. rewrite (fold_fields_keys _ _ _ _ _ _ _ Hloop k).
  rewrite lookup_empty. split; [|eauto].
  intros [[? ?]|?]; done.
Qed.

Lemma fold_fields_frame rec pb use all fs js0 js k :
  fold_fields (pb2json_field rec pb use all) fs js0 = Returns js →
  k ∉ name <$> fs → js !! k = js0 !! k.
Proof.
  revert js0. induction fs as [|f fs IH]; intros js0; cbn [fold_fields].
  - by intros [= <-].
  - destruct (pb2json_field rec pb use all f js0) as [js1|] eqn:Hstep; [|done].
    cbn [mbind outcome_bind]. intros Hrest Hk.
    rewrite fmap_cons, not_elem_of_cons in Hk. destruct Hk as [Hkf Hk].
    rewrite (IH _ Hrest Hk).
    by apply (pb2json_field_keys _ _ _ _ _ _ _ Hstep).
Qed.

(** With [all_fields], an optional field that is not set is encoded as
    [None]. *)
Lemma pb2json_unset_optional d pb use js (f : FieldDescriptor) :
  NoDup (name <$> fields d) → f ∈ fields d →
  label f = LABEL_OPTIONAL → set_fields pb !! name f = None →
  pb2json d pb use true = Returns (JDict js) →
  js !! name f = Some JNone.
Proof.
  intros Hnodup Hf Hlabel Hunset. rewrite pb2json_unfold.
  destruct (fold_fields _ _ _) as [js1|] eqn:Hloop; [|done].
  cbn [mbind outcome_bind].
  destruct (FindInitializationErrors d pb); [|done]. intros [= <-].
  revert Hloop. generalize (∅ : gmap string json) as js0.
  revert Hnodup Hf. generalize (fields d) as fs.
  induction fs as [|g fs IH]; intros Hnodup Hf js0; [by apply elem_of_nil in Hf|].
  rewrite fmap_cons in Hnodup. apply NoDup_cons in Hnodup as [Hnotin Hnodup].
  cbn [fold_fields].
  destruct (protobuf_json.pb2json_field _ _ _ _ _ _ g js0) as [js2|] eqn:Hstep;
    [|done].
  cbn [mbind outcome_bind]. intros Hrest.
  apply elem_of_cons in Hf as [<-|Hf].
  - rewrite (fold_fields_frame _ _ _ _ _ _ _ _ Hrest Hnotin).
    by apply (pb2json_field_keys _ _ _ _ _ _ _ Hstep).
  - by eapply IH.
Qed.

(** *** What the constructors of [_js2ftype] make of a value *)

(** X16: [all_fields] output is not read back as it was written.  An
    optional string field that is not set is encoded as [None], and
    [json2pb] of the mapping, when it returns, has set the field to the
    string ['None']: the constructor [unicode] is applied to [None]. *)
Theorem all_fields_unset_string d pb use js (f : FieldDescriptor) pb1 :
  NoDup (name <$> fields d) → f ∈ fields d →
  label f = LABEL_OPTIONAL → type f = TYPE_STRING →
  set_fields pb !! name f = None →
  pb2json d pb use true = Returns (JDict js) →
  json2pb d empty (JDict js) use = (pb1, Returns tt) →
  set_fields pb1 !! name f = Some (Singular (Value (JStr "None"))).
Proof.
  intros Hnodup Hf Hlabel Htype Hunset Henc Hdec.
  pose proof (pb2json_unset_optional _ _ _ _ _ Hnodup Hf Hlabel Hunset Henc) as Hjs.
  assert (Hsingular : label f ≠ LABEL_REPEATED) by (by rewrite Hlabel).
  assert (Hscalar : is_composite (type f) = false) by (by rewrite Htype).
  destruct (json2pb_sets_scalar _ _ _ _ _ _ _ Hnodup Hf Hsingular Hscalar Hjs Hdec)
    as (ftype & x & Hchoose & Hconv & Hset).
  rewrite Hset. revert Hchoose Hconv. unfold protobuf_json.choose_ftype.
  rewrite Htype.
  replace (is_composite TYPE_STRING) with false by done.
  replace (bool_decide (TYPE_STRING = TYPE_ENUM)) with false by done.
  rewrite andb_false_r.
  replace (_js2ftype container_repr !! TYPE_STRING)
    with (Some (py_unicode container_repr)) by done.
  intros [= <-]. cbn. by intros [= <-].
Qed.

Lemma scalar_types_not_composite t :
  t ∈ scalar_types → is_composite t = false.
Proof.
  unfold scalar_types. intros Ht.
  repeat (apply elem_of_cons in Ht as [->|Ht]; [reflexivity|]).
  by apply elem_of_nil in Ht.
Qed.

Lemma js2ftype_None t :
  t ∈ scalar_types → t ≠ TYPE_BOOL → t ≠ TYPE_STRING →
  ∃ g e, _js2ftype container_repr !! t = Some g ∧ g JNone = Raises e.
Proof.
  unfold scalar_types. intros Ht Hbool Hstring.
  repeat (apply elem_of_cons in Ht as [->|Ht];
          [first [by destruct Hbool | by destruct Hstring
                 | eexists _, _; split; reflexivity]|]).
  by apply elem_of_nil in Ht.
Qed.

Lemma convert_None_raises owner (f : FieldDescriptor) use ftype :
  type f ∈ scalar_types → type f ≠ TYPE_BOOL → type f ≠ TYPE_STRING →
  choose_ftype owner f use = Returns ftype →
  ∃ e, convert ftype (type f) JNone = Raises e.
Proof.
  intros Ht Hbool Hstring. unfold protobuf_json.choose_ftype.
  rewrite (scalar_types_not_composite _ Ht).
  destruct (use && bool_decide (type f = TYPE_ENUM)).
  - intros [= <-]. unfold convert, _EnumNameToNumber.
    destruct (enum_type f); cbn [py_int mbind outcome_bind]; eauto.
  - destruct (js2ftype_None _ Ht Hbool Hstring) as (g & e & -> & Hg).
    intros [= <-]. unfold convert. rewrite Hg. cbn [mbind outcome_bind]. eauto.
Qed.

(** X17: with [all_fields], a message with an unset optional field of a
    number type (or of type bytes) is encoded to a mapping that [json2pb]
    does not take back: [None] stands for the field, no constructor of
    these types accepts [None], and the decode raises. *)
Theorem all_fields_unset_number d pb use js (f : FieldDescriptor) :
  NoDup (name <$> fields d) → f ∈ fields d →
  label f = LABEL_OPTIONAL →
  type f ∈ scalar_types → type f ≠ TYPE_BOOL → type f ≠ TYPE_STRING →
  set_fields pb !! name f = None →
  pb2json d pb use true = Returns (JDict js) →
  ∃ pb1 e, json2pb d empty (JDict js) use = (pb1, Raises e).
Proof.
  intros Hnodup Hf Hlabel Ht Hbool Hstring Hunset Henc.
  pose proof (pb2json_unset_optional _ _ _ _ _ Hnodup Hf Hlabel Hunset Henc) as Hjs.
  destruct (json2pb d empty (JDict js) use) as [pb1 [[]|e]] eqn:Hdec; [|eauto].
  assert (Hsingular : label f ≠ LABEL_REPEATED) by (by rewrite Hlabel).
  pose proof (scalar_types_not_composite _ Ht) as Hscalar.
  destruct (json2pb_sets_scalar _ _ _ _ _ _ _ Hnodup Hf Hsingular Hscalar Hjs Hdec)
    as (ftype & x & Hchoose & Hconv & _).
  destruct (convert_None_raises _ _ _ _ Ht Hbool Hstring Hchoose) as [e He].
  by rewrite He in Hconv.
Qed.

(** X18: a bool field takes the truth value of what the mapping gives, not
    its meaning: every string but the empty one, ['false'] and ['0']
    included, sets the field to [True]. *)
Theorem json2pb_bool_of_string d pb m use (f : FieldDescriptor) s pb1 :
  NoDup (name <$> fields d) → f ∈ fields d →
  label f ≠ LABEL_REPEATED → type f = TYPE_BOOL →
  m !! name f = Some (JStr s) →
  json2pb d pb (JDict m) use = (pb1, Returns tt) →
  set_fields pb1 !! name f
  = Some (Singular (Value (JBool (negb (bool_decide (s = "")))))).
Proof.
  intros Hnodup Hf Hlabel Htype Hm Hdec.
  assert (Hscalar : is_composite (type f) = false) by (by rewrite Htype).
  destruct (json2pb_sets_scalar _ _ _ _ _ _ _ Hnodup Hf Hlabel Hscalar Hm Hdec)
    as (ftype & x & Hchoose & Hconv & Hset).
  rewrite Hset. revert Hchoose Hconv. unfold protobuf_json.choose_ftype.
  rewrite Htype.
  replace (is_composite TYPE_BOOL) with false by done.
  replace (bool_decide (TYPE_BOOL = TYPE_ENUM)) with false by done.
  rewrite andb_false_r.
  replace (_js2ftype container_repr !! TYPE_BOOL) with (Some py_bool) by done.
  intros [= <-]. cbn. by intros [= <-].
Qed.

(** *** The two tables *)

Lemma type_cases (t : Z) :
  1 ≤ t ≤ 18 →
  t ∈ [TYPE_DOUBLE; TYPE_FLOAT; TYPE_INT64; TYPE_UINT64; TYPE_INT32;
       TYPE_FIXED64; TYPE_FIXED32; TYPE_BOOL; TYPE_STRING; TYPE_GROUP;
       TYPE_MESSAGE; TYPE_BYTES; TYPE_UINT32; TYPE_ENUM; TYPE_SFIXED32;
       TYPE_SFIXED64; TYPE_SINT32; TYPE_SINT64].
Proof.
  intros Ht. rewrite !elem_of_cons.
  unfold TYPE_DOUBLE, TYPE_FLOAT, TYPE_INT64, TYPE_UINT64, TYPE_INT32,
    TYPE_FIXED64, TYPE_FIXED32, TYPE_BOOL, TYPE_STRING, TYPE_BYTES,
    TYPE_UINT32, TYPE_ENUM, TYPE_SFIXED32, TYPE_SFIXED64, TYPE_SINT32,
    TYPE_SINT64, TYPE_GROUP, TYPE_MESSAGE.
  lia.
Qed.

(** X19: the tables [_js2ftype] and [_ftype2js] cover the field types of
    protocol buffers.  For a field of a type from 1 to 18 both directions
    find a converter; [ParseError] is what a field of any other type
    number gets, in both directions. *)
Theorem converters_cover_field_types rec owner (f : FieldDescriptor) use all :
  if bool_decide (1 ≤ type f ≤ 18)
  then (∃ c, choose_ftype owner f use = Returns c) ∧
       (∃ c, _Pb2JsonConverter rec f use all = Returns c)
  else choose_ftype owner f use
       = Raises (ParseError (owner +:+ "." +:+ name f) (type f)) ∧
       _Pb2JsonConverter rec f use all
       = Raises (ParseError (full_name f) (type f)).
Proof.
  unfold protobuf_json.choose_ftype, protobuf_json._Pb2JsonConverter.
  case_bool_decide as Ht.
  - apply type_cases in Ht. split.
    + destruct (is_composite (type f)) eqn:Hc; [eauto|].
      destruct (use && _); [eauto|].
      revert Hc.
      repeat (apply elem_of_cons in Ht as [->|Ht];
              [first [discriminate | eauto]|]).
      by apply elem_of_nil in Ht.
    + destruct (_IsMessageSet f); [eauto|].
      destruct (use && _); [eauto|].
      repeat (apply elem_of_cons in Ht as [->|Ht]; [eauto|]).
      by apply elem_of_nil in Ht.
  - assert (Hc : is_composite (type f) = false).
    { apply bool_decide_eq_false_2. unfold TYPE_MESSAGE, TYPE_GROUP. lia. }
    assert (He : bool_decide (type f = TYPE_ENUM) = false).
    { apply bool_decide_eq_false_2. unfold TYPE_ENUM. lia. }
    assert (Hms : _IsMessageSet f = false).
    { unfold _IsMessageSet. rewrite bool_decide_eq_false_2; [done|].
      unfold TYPE_MESSAGE. lia. }
    rewrite Hc, He, Hms, andb_false_r.
    assert (_js2ftype container_repr !! type f = None) as ->.
    { apply not_elem_of_list_to_map. cbn [fmap list_fmap fst].
      rewrite !not_elem_of_cons.
      unfold TYPE_DOUBLE, TYPE_FLOAT, TYPE_INT64, TYPE_UINT64, TYPE_INT32,
        TYPE_FIXED64, TYPE_FIXED32, TYPE_BOOL, TYPE_STRING, TYPE_BYTES,
        TYPE_UINT32, TYPE_ENUM, TYPE_SFIXED32, TYPE_SFIXED64, TYPE_SINT32,
        TYPE_SINT64.
      repeat split; try lia. apply not_elem_of_nil. }
    assert (_ftype2js container_repr !! type f = None) as ->.
    { apply not_elem_of_list_to_map. cbn [fmap list_fmap fst].
      rewrite !not_elem_of_cons.
      unfold TYPE_DOUBLE, TYPE_FLOAT, TYPE_INT64, TYPE_UINT64, TYPE_INT32,
        TYPE_FIXED64, TYPE_FIXED32, TYPE_BOOL, TYPE_STRING, TYPE_BYTES,
        TYPE_UINT32, TYPE_ENUM, TYPE_SFIXED32, TYPE_SFIXED64, TYPE_SINT32,
        TYPE_SINT64, TYPE_GROUP, TYPE_MESSAGE.
      repeat split; try lia. apply not_elem_of_nil. }
    done.
Qed.

(** *** The bytes codec and the enum converters *)

Lemma escape_char_printable c :
  Forall (λ x, 32 ≤ code x ≤ 126) (escape_char c).
Proof.
  destruct c as [[] [] [] [] [] [] [] []];
    apply (bool_decide_unpack _); vm_compute; exact I.
Qed.

(** X20: the converters of a bytes field are inverse to each other, and
    what is encoded is printable ASCII: [x.encode('string_escape')] has
    only characters from the space to the tilde, and
    [.decode('string_escape')] of it is [x]. *)
Theorem string_escape_codec s :
  ∃ t, py_encode_string_escape (JStr s) = Returns (JStr t) ∧
       py_decode_string_escape (JStr t) = Returns (JStr s) ∧
       Forall (λ x, 32 ≤ code x ≤ 126) (list_ascii_of_string t).
Proof.
  eexists. split; [reflexivity|]. split.
  - cbn. rewrite list_ascii_of_string_of_list_ascii, decode_encode_string_escape.
    cbn. by rewrite string_of_list_ascii_of_string.
  - rewrite list_ascii_of_string_of_list_ascii. unfold encode_string_escape.
    apply Forall_bind, Forall_forall. intros c _. apply escape_char_printable.
Qed.

(** X21: in symbol mode the decode converter of an enum inverts the encode
    converter of either mode.  When the values of the enum have different
    names, [_EnumNameToNumber] gives back the number [n] both from what
    [_EnumNumberToName] makes of [n] (the name, or [n] itself when no value
    has that number) and from [n] as a number. *)
Theorem enum_decode_inverts_encode (f : FieldDescriptor) enum n :
  enum_type f = Some enum →
  NoDup (EnumValueDescriptor.name <$> values enum) →
  (_EnumNumberToName f (JInt n) ≫= _EnumNameToNumber f) = Returns (JInt n) ∧
  _EnumNameToNumber f (JInt n) = Returns (JInt n).
Proof.
  intros Henum Hnd.
  unfold _EnumNumberToName, _EnumNameToNumber. rewrite Henum.
  split; [|done]. cbn [number_key mbind option_bind].
  pose proof (index_lookup EnumValueDescriptor.number (values enum) n) as Hnum.
  unfold values_by_number. destruct (foldl _ _ _ !! n) as [vd|].
  - destruct Hnum as [Hvd Hn]. cbn [mbind outcome_bind].
    pose proof (index_lookup EnumValueDescriptor.name (values enum)
                  (EnumValueDescriptor.name vd)) as Hname.
    unfold values_by_name. destruct (foldl _ _ _ !! _) as [vd'|].
    + destruct Hname as [Hvd' Heq].
      by rewrite (NoDup_fmap_elem_inj _ _ _ _ Hnd Hvd' Hvd Heq), Hn.
    + by destruct (Hname vd Hvd).
  - done.
Qed.

End protobuf_json_props.

(** *** On the examples *)

Import sample_inputs.

#[local] Abbreviation json2pb :=
  (json2pb sample.container_repr sample._MessageSetJson2Pb).
#[local] Abbreviation pb2json :=
  (pb2json sample.container_repr sample._MessageSetPb2Json).

Lemma NoDup_two (a b : string) : a ≠ b → NoDup [a; b].
Proof.
  intros Hab. apply NoDup_cons. split; [|apply NoDup_singleton].
  by intros ?%list_elem_of_singleton.
Qed.

Lemma json2pb_no_field_in_mapping_witness :
  json2pb sample.Item sample.only_n (JDict ∅) true
  = (sample.only_n,
     match FindInitializationErrors sample.Item sample.only_n with
     | [] => Returns tt
     | init_errors => Raises (RequiredFieldMissing init_errors)
     end).
Proof.
  apply (json2pb_no_field_in_mapping sample.container_repr
           sample._MessageSetJson2Pb sample.Item sample.only_n ∅ true).
  intros f _. apply lookup_empty.
Defined.

Lemma json2pb_unmentioned_field_witness :
  set_fields sample.full_item !! "n" = set_fields sample.only_n !! "n".
Proof.
  apply (json2pb_unmentioned_field sample.container_repr
           sample._MessageSetJson2Pb sample.Item sample.only_n
           sample.with_id true "n" sample.full_item (Returns tt)).
  - reflexivity.
  - reflexivity.
Defined.

Lemma json2pb_appends_repeated_witness :
  ∃ ftype xs,
    choose_ftype sample.container_repr (class_name sample.Inner) xs_field false
    = Returns ftype ∧
    mapM (convert ftype (type xs_field)) [JInt 2; JInt 3] = Returns xs ∧
    get_repeated three_xs (name xs_field)
    = get_repeated one_x (name xs_field) ++ (Value <$> xs).
Proof.
  apply (json2pb_appends_repeated sample.container_repr
           sample._MessageSetJson2Pb sample.Inner one_x more_xs_json false
           xs_field [JInt 2; JInt 3] three_xs).
  - apply NoDup_singleton.
  - left.
  - reflexivity.
  - reflexivity.
  - reflexivity.
  - reflexivity.
Defined.

Lemma json2pb_hollow_submessage_witness :
  HasField empty (name inner_field) = false.
Proof.
  apply (json2pb_hollow_submessage sample.container_repr
           sample._MessageSetJson2Pb sample.Outer empty sample.hollow_json false
           inner_field sample.Inner ∅ empty).
  - apply NoDup_singleton.
  - left.
  - discriminate.
  - reflexivity.
  - reflexivity.
  - reflexivity.
  - reflexivity.
  - reflexivity.
  - intros g _. apply lookup_empty.
  - reflexivity.
Defined.

Lemma pb2json_uninitialized_witness :
  ∃ e, pb2json sample.Item sample.only_n false false = Raises e ∧
       ∀ js, fold_fields
               (pb2json_field sample.container_repr sample._MessageSetPb2Json
                  pb2json sample.only_n false false)
               (fields sample.Item) ∅ = Returns js →
             e = RequiredFieldMissing
                   (FindInitializationErrors sample.Item sample.only_n).
Proof.
  apply (pb2json_uninitialized sample.container_repr sample._MessageSetPb2Json
           sample.Item sample.only_n false false).
  discriminate.
Defined.

Lemma pb2json_keys_witness :
  is_Some (full_item_json !! "n") ↔
  ∃ f : FieldDescriptor,
    f ∈ fields sample.Item ∧ name f = "n" ∧
    (true = true ∨ is_Some (listed sample.full_item "n")).
Proof.
  apply (pb2json_keys sample.container_repr sample._MessageSetPb2Json
           sample.Item sample.full_item false true full_item_json).
  reflexivity.
Defined.

Lemma all_fields_unset_string_witness :
  set_fields none_note !! name text_field
  = Some (Singular (Value (JStr "None"))).
Proof.
  apply (all_fields_unset_string sample.container_repr
           sample._MessageSetJson2Pb sample._MessageSetPb2Json
           Note empty false blank_note_json text_field none_note).
  - by apply NoDup_two.
  - left.
  - reflexivity.
  - reflexivity.
  - reflexivity.
  - reflexivity.
  - reflexivity.
Defined.

Lemma all_fields_unset_number_witness :
  ∃ pb1 e, json2pb sample.Item empty (JDict id_only_json) false = (pb1, Raises e).
Proof.
  apply (all_fields_unset_number sample.container_repr
           sample._MessageSetJson2Pb sample._MessageSetPb2Json
           sample.Item id_only false id_only_json sample.n_field).
  - by apply NoDup_two.
  - right. left.
  - reflexivity.
  - unfold scalar_types. do 4 right. left.
  - discriminate.
  - discriminate.
  - reflexivity.
  - reflexivity.
Defined.

Lemma json2pb_bool_of_string_witness :
  set_fields true_flag_note !! name flag_field
  = Some (Singular (Value (JBool (negb (bool_decide ("false" = "")))))).
Proof.
  apply (json2pb_bool_of_string sample.container_repr
           sample._MessageSetJson2Pb Note empty false_flag_json false
           flag_field "false" true_flag_note).
  - by apply NoDup_two.
  - right. left.
  - discriminate.
  - reflexivity.
  - reflexivity.
  - reflexivity.
Defined.

Lemma enum_decode_inverts_encode_witness :
  (_EnumNumberToName sample.status_field (JInt 2)
   ≫= _EnumNameToNumber sample.status_field) = Returns (JInt 2) ∧
  _EnumNameToNumber sample.status_field (JInt 2) = Returns (JInt 2).
Proof.
  apply (enum_decode_inverts_encode sample.status_field sample.Status 2).
  - reflexivity.
  - by apply NoDup_two.
Defined.

End protobuf_json_props.
